(** * Piral: package-metadata reconciliation, file-set resolution and the
      SystemJS pilet loader

    A shallow embedding of

    - [piral-cli/src/common/package.ts]  ([getDependencyVersion], [getFilesOf],
      [findRoot], [findPackage], [getFileStats], [copyPiralFiles],
      [getPiletsInfo], [retrievePiralRoot], [retrievePiletsInfo],
      [patchPiletPackage], [retrievePiletData]) and
    - [piral-base/src/loaders/v2/index.ts] ([loadSystemModule], [loader]).

    JavaScript objects used as dictionaries are finite maps keyed by strings
    ([gmap string _]) where the program only reads and writes properties,
    and ordered objects ([Dict _]) where it enumerates them: [Object.keys]
    lists the array indices in ascending order and then the other keys in
    the order of their creation.  A key is a package name or a metadata
    field name; the special keys of the JavaScript object model
    ([__proto__] and the properties inherited from [Object.prototype]) are
    outside the model.

    Asynchronous functions are computations in the monad [M]: a computation
    reads and updates the outside world (file system, module registry),
    returns a value or throws (a rejected promise), and emits the calls it
    makes to its collaborators ([io], [log], [console], [System]) as a trace
    of events.  The tasks of a [Promise.all] run under a scheduler that is
    a parameter: what is proved holds for every schedule. *)

From Stdlib Require Import Ascii String.
From stdpp Require Import gmap strings list fin_maps pretty sorting.

#[local] Open Scope string_scope.
#[local] Open Scope list_scope.
#[local] Set Warnings "-register-all".

(** ** JavaScript values *)

Module Js.

(** An object whose key order the program observes: its properties in
    the order in which they were created. A key occurs once; on a list
    that repeats a key the first entry is the property. *)
Record Dict (V : Type) := MkDict { entries : list (string * V) }.
Arguments MkDict {V} _.
Arguments entries {V} _.

Fixpoint assoc {V} (k : string) (l : list (string * V)) : option V :=
  match l with
  | [] => None
  | (k', v) :: rest => if decide (k' = k) then Some v else assoc k rest
  end.

(** [o[k] = v]: an existing property keeps its place, a new one goes to
    the end. *)
Fixpoint assoc_set {V} (k : string) (v : V) (l : list (string * V))
    : list (string * V) :=
  match l with
  | [] => [(k, v)]
  | (k', v') :: rest =>
      if decide (k' = k) then (k, v) :: rest else (k', v') :: assoc_set k v rest
  end.

#[global] Instance dict_lookup {V} : Lookup string V (Dict V) :=
  λ k o, assoc k (entries o).
#[global] Instance dict_empty {V} : Empty (Dict V) := MkDict [].
#[global] Instance dict_insert {V} : Insert string V (Dict V) :=
  λ k v o, MkDict (assoc_set k v (entries o)).
#[global] Instance dict_singleton {V} : SingletonM string V (Dict V) :=
  λ k v, MkDict [(k, v)].

(** The properties of an object as a finite map. *)
Definition dict_to_map {V} (o : Dict V) : gmap string V :=
  list_to_map (entries o).

Definition digit (c : ascii) : option N :=
  let n := N_of_ascii c in
  if ((48 <=? n) && (n <=? 57))%N then Some (n - 48)%N else None.

Fixpoint digits_value (acc : N) (s : string) : option N :=
  match s with
  | EmptyString => Some acc
  | String c rest =>
      match digit c with
      | Some d => digits_value (10 * acc + d)%N rest
      | None => None
      end
  end.

(** An array index: the canonical decimal numeral of an integer from 0 to
    2^32 - 2. *)
Definition array_index (k : string) : option N :=
  match k with
  | EmptyString => None
  | String c rest =>
      if bool_decide (c = Ascii.ascii_of_nat 48) && negb (bool_decide (rest = EmptyString))
      then None
      else match digits_value 0 k with
           | Some n => if (n <=? 4294967294)%N then Some n else None
           | None => None
           end
  end.

Definition is_index (k : string) : Prop := is_Some (array_index k).

#[global] Instance is_index_dec k : Decision (is_index k).
Proof. unfold is_index. apply _. Defined.

Definition index_le (a b : string) : Prop :=
  match array_index a, array_index b with
  | Some m, Some n => (m ≤ n)%N
  | _, _ => True
  end.

#[global] Instance index_le_dec a b : Decision (index_le a b).
Proof.
  unfold index_le. destruct (array_index a), (array_index b); apply _.
Defined.

(** [Object.keys(o)]: the array indices in ascending numeric order, then
    the other keys in the order of their creation. *)
Definition Object_keys {V} (o : Dict V) : list string :=
  let keys := remove_dups (entries o).*1 in
  merge_sort index_le (filter is_index keys)
    ++ filter (λ k, ¬ is_index k) keys.

Inductive JsVal :=
  | JUndefined
  | JNull
  | JBool (b : bool)
  | JNum (n : Z)
  | JStr (s : string)
  | JFun (id : nat)
  | JObj (o : Dict JsVal).

Definition is_empty (s : string) : bool :=
  match s with EmptyString => true | String _ _ => false end.

(** [!!v] for a value that is a string or [undefined]. *)
Definition truthy (v : option string) : bool :=
  match v with Some s => negb (is_empty s) | None => false end.

(** [a || b] where [a] is a string or [undefined] and [b] a string. *)
Definition or_else (a : option string) (b : string) : string :=
  match a with
  | Some s => if is_empty s then b else s
  | None => b
  end.

(** [a || b] where both sides may be [undefined]. *)
Definition or_opt (a b : option string) : option string :=
  if truthy a then a else b.

(** A template literal [`${v}`] of a string or [undefined]. *)
Definition template (v : option string) : string :=
  match v with Some s => s | None => "undefined" end.

(** [{ ...a, ...b }]: the entries of [b] win on a key collision. *)
Definition spread2 {V} (a b : gmap string V) : gmap string V := b ∪ a.

Fixpoint chars_from (i : nat) (s : string) : gmap string JsVal :=
  match s with
  | EmptyString => ∅
  | String c rest =>
      <[pretty i := JStr (String c EmptyString)]> (chars_from (S i) rest)
  end.

(** The own enumerable properties that [...v] copies out of a value:
    the fields of an object, the indexed characters of a string, nothing
    for [undefined], [null], numbers, booleans and plain functions. *)
Definition own_enumerable (v : JsVal) : gmap string JsVal :=
  match v with
  | JObj o => dict_to_map o
  | JStr s => chars_from 0 s
  | _ => ∅
  end.

Definition reduce {A B} (f : B → A → B) (init : B) (l : list A) : B :=
  foldl f init l.

(** The double-quote character, for messages that quote a name. *)
Definition dq : string := String (Ascii.ascii_of_nat 34) EmptyString.

End Js.
Import Js.

(** ** Data model ([types.ts], [package.ts]) *)

Record TemplateFileLocation := {
  tfl_from : string;
  tfl_to : string;
  tfl_deep : option bool;   (* [deep?: boolean] *)
}.

(** An entry of [pilets.files]: [string | TemplateFileLocation]. *)
Inductive FileEntry :=
  | Plain (f : string)
  | Location (l : TemplateFileLocation).

(** A value of [pilets.devDependencies]: [string | true]. *)
Inductive DevDependency :=
  | Literal (version : string)
  | Sentinel.                (* the boolean [true] *)

Record FileInfo := {
  fi_path : string;
  fi_hash : option string;
  fi_changed : bool;
}.

Record ResolvedFile := {
  sourcePath : string;
  targetPath : string;
}.

(** The raw [pilets] block of a host manifest; every field may be absent. *)
Record PiletsBlock := {
  raw_files : option (list FileEntry);
  raw_externals : option (list string);
  raw_scripts : option (gmap string string);
  raw_validators : option (gmap string string);
  raw_devDependencies : option (Dict DevDependency);
  raw_preScaffold : option string;
  raw_postScaffold : option string;
  raw_preUpgrade : option string;
  raw_postUpgrade : option string;
}.

(** [PiletsInfo]: the normalised block, every field populated. *)
Record PiletsInfo := {
  files : list FileEntry;
  externals : list string;
  scripts : gmap string string;
  validators : gmap string string;
  devDependencies : Dict DevDependency;
  preScaffold : string;
  postScaffold : string;
  preUpgrade : string;
  postUpgrade : string;
}.

(** The host manifest ([piralInfo]), as far as the reconciliation reads it. *)
Record PiralInfo := {
  piral_name : option string;
  piral_version : option string;
  piral_dependencies : option (gmap string string);
  piral_devDependencies : option (gmap string string);
  piral_pilets : option PiletsBlock;
}.

(** The [piral] section written into the pilet manifest. *)
Record PiralSection := {
  ps_comment : string;
  ps_name : string;
  ps_version : option string;
  ps_tooling : string;
  ps_externals : list string;
  ps_files : list FileEntry;
  ps_scripts : gmap string string;
  ps_validators : gmap string string;
  ps_devDependencies : Dict DevDependency;
  ps_preScaffold : string;
  ps_postScaffold : string;
  ps_preUpgrade : string;
  ps_postUpgrade : string;
}.

(** The object handed to [updateExistingJson]. *)
Record Patch := {
  patch_piral : PiralSection;
  patch_devDependencies : gmap string string;
  patch_peerDependencies : gmap string string;
  patch_scripts : gmap string string;
}.

(** A manifest as [require] returns it. *)
Record PackageJson := {
  pkg_app : option string;
  pkg_piral : option PiralSection;
  pkg_devDependencies : option (Dict string);
  pkg_peerDependencies : option (gmap string string);
  pkg_scripts : option (gmap string string);
  pkg_rest : gmap string string;
}.

Inductive exn :=
  | Error (message : string)     (* [new Error(message)] thrown by this code *)
  | External (what : string).    (* a failure raised by a collaborator *)

Inductive result (A : Type) :=
  | Ok (a : A)
  | Throw (e : exn).
Arguments Ok {A} a.
Arguments Throw {A} e.

(** ** Collaborators *)

(** Node's [path] module. [resolve] and [join] are variadic. *)
Class PathApi := {
  resolve : list string → string;
  join : list string → string;
  relative : string → string → string;
  extname : string → string;
  basename : string → string;
  dirname : string → string;
}.

(** [info.ts] and [language.ts]: the CLI version, the language enumeration
    and the baseline tooling table are declared outside this file. *)
Class Tooling := {
  cliVersion : string;
  PiletLanguage : Type;
  language_truthy : PiletLanguage → bool;
  getDevDependencies : PiletLanguage → Dict string;
}.

(** [io.ts] and Node's [require], over an abstract file system. A copy, a
    manifest update and a [require] can fail; the queries cannot.
    [io_readFile] observes the content of a file; the program does not call
    it, the statements about files that keep their content do. *)
Class Io := {
  FS : Type;
  ForceOverwrite : Type;
  ForceOverwrite_yes : ForceOverwrite;
  io_checkExists : string → FS → bool;
  io_checkIsDirectory : string → FS → bool;
  io_matchFiles : string → string → FS → list string;
  io_getHash : string → FS → option string;
  io_readFile : string → FS → option string;
  io_copy : string → string → ForceOverwrite → FS → option FS;
  io_updateExistingJson : string → string → Patch → FS → option FS;
  io_require : string → FS → option PackageJson;
}.

(** The global SystemJS registry and the helpers of [utils].
    [setBasePath(meta, link)] returns the link and assigns [meta.basePath]:
    [setBasePath] is the link it returns and [basePath_of] the value it
    assigns. *)
Class ModuleSystem := {
  Registry : Type;
  sys_has : string → Registry → bool;
  sys_import : string → Registry → result JsVal * Registry;
  sys_register : string → JsVal → Registry → Registry;
  setBasePath : gmap string JsVal → JsVal → string;
  basePath_of : gmap string JsVal → JsVal → JsVal;
}.

(** The event loop. The program does not determine in which order the
    tasks of a [Promise.all] make progress. [interleave] is the schedule
    of a run: it merges the sequences of the tasks into one sequence in
    which every task keeps its own order. *)
Class Scheduler := {
  interleave : ∀ {X : Type}, list (list X) → list X;
  interleave_Permutation :
    ∀ {X : Type} (tasks : list (list X)), interleave tasks ≡ₚ mjoin tasks;
  interleave_sublist :
    ∀ {X : Type} (tasks : list (list X)) (task : list X),
      task ∈ tasks → task `sublist_of` interleave tasks;
}.

(** ** The effect monad and the program *)

Section Program.

Context {path_api : PathApi} {tooling : Tooling} {io : Io}
        {module_system : ModuleSystem} {scheduler : Scheduler}.

Record World := {
  fs : FS;
  registry : Registry;
}.

(** One event per call that leaves this code. *)
Inductive Event :=
  | EvWarn (message : string)
  | EvFail (message : string) (args : list string)
  | EvConsoleError (message source : string) (error : exn)
  | EvCheckExists (path : string)
  | EvCheckIsDirectory (path : string)
  | EvMatchFiles (dir pattern : string)
  | EvGetHash (path : string)
  | EvRequire (path : string)
  | EvCopy (source target : string) (force : ForceOverwrite)
  | EvUpdateExistingJson (dir file : string) (content : Patch)
  | EvSystemHas (name : string)
  | EvRegisterModule (name : string) (url : JsVal)
  | EvSystemImport (url : string).

Record Run (A : Type) := {
  outcome : result A;
  final : World;
  events : list Event;
}.
Arguments outcome {A} _.
Arguments final {A} _.
Arguments events {A} _.

Definition M (A : Type) : Type := World → Run A.

Definition ret {A} (a : A) : M A :=
  λ w, {| outcome := Ok a; final := w; events := [] |}.

Definition bind {A B} (m : M A) (k : A → M B) : M B :=
  λ w,
    let r := m w in
    match outcome r with
    | Ok a =>
        let r' := k a (final r) in
        {| outcome := outcome r'; final := final r';
           events := events r ++ events r' |}
    | Throw e =>
        {| outcome := Throw e; final := final r; events := events r |}
    end.

Definition throw {A} (e : exn) : M A :=
  λ w, {| outcome := Throw e; final := w; events := [] |}.

Definition emit (ev : Event) : M unit :=
  λ w, {| outcome := Ok tt; final := w; events := [ev] |}.

#[local] Notation "x <- c1 ;; c2" := (bind c1 (λ x, c2))
  (at level 20, c1 at level 99, c2 at level 200, only parsing).
#[local] Notation "' pat <- c1 ;; c2" :=
  (bind c1 (λ x, match x with pat => c2 end))
  (at level 20, pat pattern, c1 at level 99, c2 at level 200, only parsing).
#[local] Notation "c1 ;; c2" := (bind c1 (λ _, c2))
  (at level 100, c2 at level 200, only parsing, right associativity).

(** [for (const x of l) { await body(x) }] *)
Fixpoint for_of {A} (l : list A) (body : A → M unit) : M unit :=
  match l with
  | [] => ret tt
  | x :: rest => body x ;; for_of rest body
  end.

(** [l.reduce(f, init)] with a callback that has effects. *)
Fixpoint reduceM {A B} (f : B → A → M B) (init : B) (l : list A) : M B :=
  match l with
  | [] => ret init
  | x :: rest => acc <- f init x ;; reduceM f acc rest
  end.

(** *** Collaborator calls *)

Definition query {A} (ev : Event) (f : FS → A) : M A :=
  λ w, {| outcome := Ok (f (fs w)); final := w; events := [ev] |}.

Definition update (ev : Event) (what : string) (f : FS → option FS) : M unit :=
  λ w,
    match f (fs w) with
    | Some fs' =>
        {| outcome := Ok tt;
           final := {| fs := fs'; registry := registry w |};
           events := [ev] |}
    | None =>
        {| outcome := Throw (External what); final := w; events := [ev] |}
    end.

Definition logWarn (message : string) : M unit := emit (EvWarn message).

Definition logFail (message : string) (args : list string) : M unit :=
  emit (EvFail message args).

Definition console_error (message source : string) (error : exn) : M unit :=
  emit (EvConsoleError message source error).

Definition checkExists (p : string) : M bool :=
  query (EvCheckExists p) (io_checkExists p).

Definition checkIsDirectory (p : string) : M bool :=
  query (EvCheckIsDirectory p) (io_checkIsDirectory p).

Definition matchFiles (dir pattern : string) : M (list string) :=
  query (EvMatchFiles dir pattern) (io_matchFiles dir pattern).

Definition getHash (p : string) : M (option string) :=
  query (EvGetHash p) (io_getHash p).

Definition copy (source target : string) (force : ForceOverwrite) : M unit :=
  update (EvCopy source target force) "copy" (io_copy source target force).

Definition updateExistingJson (dir file : string) (content : Patch) : M unit :=
  update (EvUpdateExistingJson dir file content) "updateExistingJson"
         (io_updateExistingJson dir file content).

Definition require (p : string) : M PackageJson :=
  λ w,
    match io_require p (fs w) with
    | Some pkg => {| outcome := Ok pkg; final := w; events := [EvRequire p] |}
    | None =>
        {| outcome := Throw (External "require"); final := w;
           events := [EvRequire p] |}
    end.

Definition System_has (name : string) : M bool :=
  λ w, {| outcome := Ok (sys_has name (registry w)); final := w;
          events := [EvSystemHas name] |}.

(** [registerModule(name, () => System.import(url))]: a registration; the
    import is deferred. *)
Definition registerModule (name : string) (url : JsVal) : M unit :=
  λ w, {| outcome := Ok tt;
          final := {| fs := fs w;
                      registry := sys_register name url (registry w) |};
          events := [EvRegisterModule name url] |}.

(** [System.import(url)]: the result of the returned promise. *)
Definition System_import (url : string) : World → result JsVal * World * list Event :=
  λ w,
    let '(r, reg) := sys_import url (registry w) in
    (r, {| fs := fs w; registry := reg |}, [EvSystemImport url]).

(** *** package.ts *)

Definition getPiralPath (root name : string) : string :=
  resolve [root; "node_modules"; name].

Definition unresolved_message (name : string) : string :=
  "The version for " +:+ dq +:+ name +:+ dq
    +:+ " could not be resolved. Using " +:+ dq +:+ "latest" +:+ dq +:+ ".".

Definition getDependencyVersion (name : string)
    (devDependencies : Dict DevDependency)
    (allDependencies : gmap string string) : M string :=
  let version := devDependencies !! name in
  let selected :=
    match version with
    | Some (Literal v) => Some v
    | Some Sentinel => allDependencies !! name
    | None => None
    end in
  (if negb (truthy selected) then logWarn (unresolved_message name) else ret tt) ;;
  ret (or_else selected "latest").

Definition getFilesOf (root name : string) (file : FileEntry)
    : M (list ResolvedFile) :=
  let '(from, to, deep) :=
    match file with
    | Plain f => (f, f, false)
    | Location l => (tfl_from l, tfl_to l, default false (tfl_deep l))
    end in
  let sourcePath := join [getPiralPath root name; from] in
  let targetPath := resolve [root; to] in
  isDirectory <- checkIsDirectory sourcePath ;;
  if isDirectory then
    let pattern := if deep then "**/*" else "*" in
    files <- matchFiles sourcePath pattern ;;
    ret (map (λ file,
                {| sourcePath := file;
                   targetPath := resolve [targetPath; relative sourcePath file] |})
             files)
  else
    ret [ {| sourcePath := sourcePath; targetPath := targetPath |} ].

(** The task that [getFileStats] starts for one entry of the list: the
    callback of [files.map]. The records it pushes are its result. *)
Definition stats_task (root name : string) (file : FileEntry)
    : M (list FileInfo) :=
  subfiles <- getFilesOf root name file ;;
  reduceM
    (λ results subfile,
       sourceHash <- getHash (sourcePath subfile) ;;
       targetHash <- getHash (targetPath subfile) ;;
       ret (results ++
            [ {| fi_path := targetPath subfile;
                 fi_hash := targetHash;
                 fi_changed := negb (bool_decide (sourceHash = targetHash)) |} ]))
    [] subfiles.

(** The runs of tasks that were started together. The world is handed
    from one task to the next in the order of the list; the order in which
    the tasks act is the scheduler's. *)
Fixpoint run_each {X} (tasks : list (M X)) (w : World) : list (Run X) :=
  match tasks with
  | [] => []
  | task :: rest => let r := task w in r :: run_each rest (final r)
  end.

Definition pushed {X} (r : Run (list X)) : list X :=
  match outcome r with Ok l => l | Throw _ => [] end.

Definition rejection {X} (r : Run X) : list exn :=
  match outcome r with Ok _ => [] | Throw e => [e] end.

(** [await Promise.all(files.map(task))] and [return results]: the calls
    and the records of the tasks come in the order of the schedule; the
    first rejection, if there is one, rejects the whole. The calls, the
    records and the rejections are merged each on their own, so every
    schedule of the code is a schedule of the model. *)
Definition getFileStats (root name : string) (files : list FileEntry)
    : M (list FileInfo) :=
  λ w,
    let runs := run_each (stats_task root name <$> files) w in
    {| outcome :=
         match interleave (rejection <$> runs) with
         | e :: _ => Throw e
         | [] => Ok (interleave (pushed <$> runs))
         end;
       final := default w (final <$> last runs);
       events := interleave (events <$> runs) |}.

Definition copyPiralFiles (root name : string) (files : list FileEntry)
    (forceOverwrite : ForceOverwrite) (originalFiles : list FileInfo)
    : M unit :=
  for_of files (λ file,
    subfiles <- getFilesOf root name file ;;
    for_of subfiles (λ subfile,
      let overwrite :=
        existsb (λ m, bool_decide (fi_path m = targetPath subfile)
                        && negb (fi_changed m))
                originalFiles in
      let force := if overwrite then ForceOverwrite_yes else forceOverwrite in
      copy (sourcePath subfile) (targetPath subfile) force)).

Definition getPiletsInfo (piralInfo : PiralInfo) : PiletsInfo :=
  let pilets :=
    default {| raw_files := None; raw_externals := None; raw_scripts := None;
               raw_validators := None; raw_devDependencies := None;
               raw_preScaffold := None; raw_postScaffold := None;
               raw_preUpgrade := None; raw_postUpgrade := None |}
            (piral_pilets piralInfo) in
  {| files := default [] (raw_files pilets);
     externals := default [] (raw_externals pilets);
     scripts := default ∅ (raw_scripts pilets);
     validators := default ∅ (raw_validators pilets);
     devDependencies := default ∅ (raw_devDependencies pilets);
     preScaffold := default EmptyString (raw_preScaffold pilets);
     postScaffold := default EmptyString (raw_postScaffold pilets);
     preUpgrade := default EmptyString (raw_preUpgrade pilets);
     postUpgrade := default EmptyString (raw_postUpgrade pilets) |}.

Definition retrievePiralRoot (baseDir entry : string) : M string :=
  let rootDir := join [baseDir; entry] in
  if negb (bool_decide (extname rootDir = ".html")) then
    let packageName :=
      if bool_decide (basename rootDir = "package.json") then rootDir
      else join [rootDir; "package.json"] in
    exists_ <- checkExists packageName ;;
    (if negb exists_ then
       logFail ("Cannot find a valid entry point. Missing package.json in "
                  +:+ dq +:+ "%s" +:+ dq +:+ ".") [rootDir] ;;
       throw (Error "Invalid Piral instance.")
     else ret tt) ;;
    pkg <- require packageName ;;
    let app := pkg_app pkg in
    (if negb (truthy app) then
       logFail ("Cannot find a valid entry point. Missing field "
                  +:+ dq +:+ "%s" +:+ dq +:+ " in the "
                  +:+ dq +:+ "%s" +:+ dq +:+ ".") ["app"; "package.json"] ;;
       throw (Error "Invalid Piral instance.")
     else ret tt) ;;
    ret (join [dirname packageName; template app])
  else
    ret rootDir.

(** Lines 273-338 of [patchPiletPackage]: the object that is written. The
    only effects are the warnings of [getDependencyVersion]. *)
Definition reconcile (name version : string) (piralInfo : PiralInfo)
    (language : option PiletLanguage) : M Patch :=
  let piralDependencies := default ∅ (piral_dependencies piralInfo) in
  let piralDevDependencies := default ∅ (piral_devDependencies piralInfo) in
  let allDependencies := spread2 piralDependencies piralDevDependencies in
  let typeDependencies :=
    match language with
    | Some l => if language_truthy l then getDevDependencies l else ∅
    | None => ∅
    end in
  let info := getPiletsInfo piralInfo in
  let externals := externals info in
  let piral :=
    {| ps_comment := "Keep this section to allow running `piral upgrade`.";
       ps_name := name;
       ps_version := piral_version piralInfo;
       ps_tooling := cliVersion;
       ps_externals := externals;
       ps_files := files info;
       ps_scripts := scripts info;
       ps_validators := validators info;
       ps_devDependencies := devDependencies info;
       ps_preScaffold := preScaffold info;
       ps_postScaffold := postScaffold info;
       ps_preUpgrade := preUpgrade info;
       ps_postUpgrade := postUpgrade info |} in
  let scripts :=
    spread2
      (<["upgrade-pilet" := "pilet upgrade"]>
         (<["build-pilet" := "pilet build"]>
            (<["debug-pilet" := "pilet debug"]> ∅)))
      (scripts info) in
  let peerDependencies :=
    <[name := "*"]>
      (<["path-to-regexp" := "*"]>
      (<["tslib" := "*"]>
      (<["react-router-dom" := "*"]>
      (<["react-router" := "*"]>
      (<["react-dom" := "*"]>
      (<["react" := "*"]>
      (<["history" := "*"]>
      (<["@libre/atom" := "*"]>
      (<["@dbeining/react-atom" := "*"]>
         (reduce (λ deps name, <[name := "*"]> deps) ∅ externals)))))))))) in
  let fromLanguage :=
    reduce
      (λ deps name,
         <[name := or_else (allDependencies !! name) (typeDependencies !!! name)]> deps)
      ∅ (Object_keys typeDependencies) in
  fromPilets <-
    reduceM
      (λ deps name,
         v <- getDependencyVersion name (devDependencies info) allDependencies ;;
         ret (<[name := v]> deps))
      ∅ (Object_keys (devDependencies info)) ;;
  let fromExternals :=
    reduce
      (λ deps name, <[name := or_else (piralDependencies !! name) "latest"]> deps)
      ∅ externals in
  let devDependencies :=
    <["piral-cli" := "^" +:+ cliVersion]>
      (<[name := template (or_opt (Some version) (piral_version piralInfo))]>
         (spread2 (spread2 fromLanguage fromPilets) fromExternals)) in
  ret {| patch_piral := piral;
         patch_devDependencies := devDependencies;
         patch_peerDependencies := peerDependencies;
         patch_scripts := scripts |}.

Definition patchPiletPackage (root name version : string)
    (piralInfo : PiralInfo) (language : option PiletLanguage)
    : M (list FileEntry) :=
  content <- reconcile name version piralInfo language ;;
  updateExistingJson root "package.json" content ;;
  ret (files (getPiletsInfo piralInfo)).

(** *** loaders/v2/index.ts *)

Definition loadSystemModule (source : string) : M (string * JsVal) :=
  λ w,
    let '(r, w', evs) := System_import source w in
    match r with
    | Ok value => {| outcome := Ok (source, value); final := w'; events := evs |}
    | Throw error =>
        let r' := console_error "Failed to load SystemJS module" source error w' in
        {| outcome := Ok (source, JObj ∅); final := final r';
           events := evs ++ events r' |}
    end.

(** Lines 30-37 of [loader]: the registration of the declared dependencies.
    [PiletMetadataV2] types [dependencies] as an optional record. *)
Definition registerDependencies (meta : gmap string JsVal) : M unit :=
  match meta !! "dependencies" with
  | Some (JObj deps) =>
      for_of (Object_keys deps) (λ depName,
        known <- System_has depName ;;
        if negb known then
          let depUrl := default JUndefined (deps !! depName) in
          registerModule depName depUrl
        else ret tt)
  | _ => ret tt
  end.

(** The metadata object as [setBasePath(meta, meta.link)] leaves it. *)
Definition with_basePath (meta : gmap string JsVal) : gmap string JsVal :=
  <["basePath" := basePath_of meta (default JUndefined (meta !! "link"))]> meta.

(** [deps] is read from the metadata before [setBasePath] assigns to it;
    the spread at the end reads the object after the assignment. *)
Definition loader (meta : gmap string JsVal) (_config : gmap string JsVal)
    : M (gmap string JsVal) :=
  let link := setBasePath meta (default JUndefined (meta !! "link")) in
  let meta' := with_basePath meta in
  registerDependencies meta ;;
  '(_, app) <- loadSystemModule link ;;
  ret (spread2 meta' (own_enumerable app)).

(** *** Observations on a run *)

(** The objects handed to [updateExistingJson], in call order. *)
Definition written (evs : list Event) : list Patch :=
  omap (λ ev, match ev with
              | EvUpdateExistingJson _ _ content => Some content
              | _ => None
              end) evs.

(** The calls of [copy], in call order. *)
Definition copies (evs : list Event) : list (string * string * ForceOverwrite) :=
  omap (λ ev, match ev with
              | EvCopy source target force => Some (source, target, force)
              | _ => None
              end) evs.

(** The pairs an entry of the file list resolves to in a world. *)
Definition resolved (root name : string) (file : FileEntry) (w : World)
    : list ResolvedFile :=
  match outcome (getFilesOf root name file w) with
  | Ok pairs => pairs
  | Throw _ => []
  end.

(** The run of one computation followed, unless it threw, by another in
    the world the first one left. *)
Definition run_then {A B} (first : Run A) (second : World → Run B) : Run B :=
  match outcome first with
  | Ok _ =>
      {| outcome := outcome (second (final first));
         final := final (second (final first));
         events := events first ++ events (second (final first)) |}
  | Throw e =>
      {| outcome := Throw e; final := final first; events := events first |}
  end.

(** The file system after a call of [copy]; a copy that fails leaves it
    as it is. *)
Definition apply_copy (d : FS) (call : string * string * ForceOverwrite) : FS :=
  let '(source, target, force) := call in
  default d (io_copy source target force d).

(** The file system after a sequence of calls of [copy] that all
    succeed. *)
Definition copy_all (d : FS) (calls : list (string * string * ForceOverwrite))
    : option FS :=
  foldl (λ acc '(source, target, force), acc ≫= io_copy source target force)
        (Some d) calls.

(** The messages passed to [logWarn], in call order. *)
Definition warnings (evs : list Event) : list string :=
  omap (λ ev, match ev with EvWarn message => Some message | _ => None end) evs.

(** How many warnings name the package [name] as unresolved. *)
Definition warnings_for (name : string) (evs : list Event) : nat :=
  length (filter (λ message, message = unresolved_message name) (warnings evs)).

(** The union of the host's [dependencies] and [devDependencies], as
    [patchPiletPackage] builds it: a [devDependencies] entry wins. *)
Definition host_union (piralInfo : PiralInfo) : gmap string string :=
  default ∅ (piral_devDependencies piralInfo)
    ∪ default ∅ (piral_dependencies piralInfo).

Definition host_dependencies (piralInfo : PiralInfo) : gmap string string :=
  default ∅ (piral_dependencies piralInfo).

(** The value of the local [selected] of [getDependencyVersion]. *)
Definition selected_of (devDependencies : Dict DevDependency)
    (allDependencies : gmap string string) (name : string) : option string :=
  match devDependencies !! name with
  | Some (Literal v) => Some v
  | Some Sentinel => allDependencies !! name
  | None => None
  end.

Definition shared_runtime_libraries : list string :=
  [ "@dbeining/react-atom"; "@libre/atom"; "history"; "react"; "react-dom";
    "react-router"; "react-router-dom"; "tslib"; "path-to-regexp" ].

(** The prior stats pass recorded the target path as unchanged. *)
Definition recorded_unchanged (originalFiles : list FileInfo)
    (target : string) : Prop :=
  ∃ m, m ∈ originalFiles ∧ fi_path m = target ∧ fi_changed m = false.

(** Assumptions on [copy]: it touches the content of its target only, and
    under the policy [p] it leaves the content of an existing target. *)
Definition copy_frame : Prop :=
  ∀ source target p d d' q,
    io_copy source target p d = Some d' →
    q ≠ target → io_readFile q d' = io_readFile q d.

Definition preserving (p : ForceOverwrite) : Prop :=
  ∀ source target d d' c,
    io_copy source target p d = Some d' →
    io_readFile target d = Some c → io_readFile target d' = Some c.

(** A plain string entry of [files], read as a location. *)
Definition as_location (file : FileEntry) : FileEntry :=
  match file with
  | Plain f => Location {| tfl_from := f; tfl_to := f; tfl_deep := Some false |}
  | Location l => Location l
  end.

(** The warning that the declaration of [name] causes, if any. *)
Definition warning_of (dd : Dict DevDependency)
    (all : gmap string string) (name : string) : list Event :=
  if truthy (selected_of dd all name) then []
  else [EvWarn (unresolved_message name)].

(** The reconciled [devDependencies], layer by layer. *)
Definition reconciled_devDependencies (name version : string)
    (piralInfo : PiralInfo) (language : option PiletLanguage)
    : gmap string string :=
  let typeDependencies :=
    match language with
    | Some l => if language_truthy l then getDevDependencies l else ∅
    | None => ∅
    end in
  let info := getPiletsInfo piralInfo in
  <["piral-cli" := "^" +:+ cliVersion]>
    (<[name := template (or_opt (Some version) (piral_version piralInfo))]>
       (reduce (λ deps n,
                  <[n := or_else (host_dependencies piralInfo !! n) "latest"]> deps)
               ∅ (externals info)
        ∪ (reduce (λ deps n,
                     <[n := or_else (selected_of (devDependencies info)
                                                 (host_union piralInfo) n)
                                    "latest"]> deps)
                  ∅ (Object_keys (devDependencies info))
           ∪ reduce (λ deps n,
                       <[n := or_else (host_union piralInfo !! n)
                                      (typeDependencies !!! n)]> deps)
                    ∅ (Object_keys typeDependencies)))).

(** Every event of a trace satisfies [good]; the state property [I]
    survives a computation. *)
Definition emits_only {A} (good : Event → Prop) (m : M A) : Prop :=
  ∀ w, Forall good (events (m w)).

Definition maintains {A} (I : World → Prop) (m : M A) : Prop :=
  ∀ w, I w → I (final (m w)).

(** A call of [copy] carries the policy the prior stats pass prescribes for
    its target. *)
Definition policy_respected (originalFiles : list FileInfo)
    (forceOverwrite : ForceOverwrite) (ev : Event) : Prop :=
  match ev with
  | EvCopy _ target force =>
      (recorded_unchanged originalFiles target → force = ForceOverwrite_yes)
      ∧ (¬ recorded_unchanged originalFiles target → force = forceOverwrite)
  | _ => True
  end.

(** Two entries of [files] that denote the same location. *)
Definition same_entry (a b : FileEntry) : Prop :=
  as_location a = as_location b.

(** *** The sentences of the specification that the code does not meet,
      as they are written *)

(** "For every name declared in [pilets.devDependencies]: a literal
    version is used verbatim; [true] is looked up in the union of the
    host's dependencies; if neither resolves, the reconciled specifier is
    ['latest'] and exactly one warning is emitted for that name." *)
Definition declared_versions_as_stated (root name version : string)
    (piralInfo : PiralInfo) (language : option PiletLanguage) (w : World)
    : Prop :=
  let run := patchPiletPackage root name version piralInfo language w in
  ∀ content n declared,
    written (events run) = [content] →
    devDependencies (getPiletsInfo piralInfo) !! n = Some declared →
    match declared with
    | Literal v => patch_devDependencies content !! n = Some v
    | Sentinel =>
        match host_union piralInfo !! n with
        | Some v => patch_devDependencies content !! n = Some v
        | None =>
            patch_devDependencies content !! n = Some "latest"
            ∧ warnings_for n (events run) = 1
        end
    end.

(** "For every name listed in [pilets.externals], the reconciled
    devDependencies maps that name to the host's own dependencies entry,
    defaulting to ['latest'] when there is no entry." *)
Definition externals_as_stated (root name version : string)
    (piralInfo : PiralInfo) (language : option PiletLanguage) (w : World)
    : Prop :=
  let run := patchPiletPackage root name version piralInfo language w in
  ∀ content n,
    written (events run) = [content] →
    n ∈ externals (getPiletsInfo piralInfo) →
    patch_devDependencies content !! n
      = Some (default "latest" (host_dependencies piralInfo !! n)).

(** "The reconciled devDependencies maps the given name to the given
    version and [piral-cli] to [^<cliVersion>]." *)
Definition forced_entries_as_stated (root name version : string)
    (piralInfo : PiralInfo) (language : option PiletLanguage) (w : World)
    : Prop :=
  let run := patchPiletPackage root name version piralInfo language w in
  ∀ content,
    written (events run) = [content] →
    patch_devDependencies content !! name = Some version
    ∧ patch_devDependencies content !! "piral-cli" = Some ("^" +:+ cliVersion).

End Program.

Arguments outcome {_ _ _} _.
Arguments final {_ _ _} _.
Arguments events {_ _ _} _.

(** ** A reference implementation of the collaborators

    The theorems below hold for every implementation of the collaborators;
    this one makes the program executable on concrete inputs. *)

Module Sample.

(** *** Paths: slash-separated strings, already normalised *)

Fixpoint split_last (sep : ascii) (s : string) : option (string * string) :=
  match s with
  | EmptyString => None
  | String c rest =>
      match split_last sep rest with
      | Some (before, after) => Some (String c before, after)
      | None => if bool_decide (c = sep) then Some (EmptyString, rest) else None
      end
  end.

Fixpoint strip_prefix (pre s : string) : option string :=
  match pre, s with
  | EmptyString, _ => Some s
  | String a pre', String b s' =>
      if bool_decide (a = b) then strip_prefix pre' s' else None
  | String _ _, EmptyString => None
  end.

Definition slash : ascii := Ascii.ascii_of_nat 47.
Definition dot : ascii := Ascii.ascii_of_nat 46.

Definition is_absolute (p : string) : bool :=
  match p with
  | String c _ => bool_decide (c = slash)
  | EmptyString => false
  end.

Definition join2 (a b : string) : string :=
  if is_empty a then b else if is_empty b then a else a +:+ "/" +:+ b.

Definition sample_join (parts : list string) : string :=
  foldl join2 EmptyString parts.

Definition sample_resolve (parts : list string) : string :=
  foldl (λ acc p, if is_absolute p then p else join2 acc p) EmptyString parts.

Definition sample_relative (from to : string) : string :=
  match strip_prefix (from +:+ "/") to with
  | Some rest => rest
  | None => if bool_decide (from = to) then EmptyString else to
  end.

Definition sample_basename (p : string) : string :=
  match split_last slash p with
  | Some (_, name) => name
  | None => p
  end.

Definition sample_dirname (p : string) : string :=
  match split_last slash p with
  | Some (dir, _) => if is_empty dir then "/" else dir
  | None => "."
  end.

Definition sample_extname (p : string) : string :=
  match split_last dot (sample_basename p) with
  | Some (stem, ext) => if is_empty stem then EmptyString else "." +:+ ext
  | None => EmptyString
  end.

(** Modelled from the spec: Node's [path] functions on slash-separated
    paths without [.] and [..] segments. *)
#[global] Instance sample_path : PathApi := {|
  resolve := sample_resolve;
  join := sample_join;
  relative := sample_relative;
  extname := sample_extname;
  basename := sample_basename;
  dirname := sample_dirname;
|}.

(** *** Tooling *)

Inductive Language := ts | js.

(** Modelled from the spec: [getDevDependencies] maps a language to its
    baseline tooling packages; [cliVersion] is the version of the CLI. *)
#[global] Instance sample_tooling : Tooling := {|
  cliVersion := "0.10.0";
  PiletLanguage := Language;
  language_truthy := λ _, true;
  getDevDependencies := λ l,
    match l with
    | ts => <["typescript" := "latest"]> (<["@types/react" := "latest"]> ∅)
    | js => ∅
    end;
|}.

Definition typescript : option (@PiletLanguage sample_tooling) := Some ts.

(** *** File system *)

Inductive Node :=
  | Dir
  | File (content : string)
  | Manifest (pkg : PackageJson).

(** Modelled from the spec: the overwrite policies of [io]; [yes] forces the
    overwrite, [no] preserves an existing target. *)
Inductive Policy := no | yes.

Definition contains_slash (s : string) : bool :=
  match split_last slash s with Some _ => true | None => false end.

Definition is_dir (n : Node) : bool :=
  match n with Dir => true | _ => false end.

(** Modelled from the spec: [matchFiles(dir, pattern)] with the pattern
    [**/*] matches all files below [dir] recursively and with [*] only the
    files that are direct children of [dir]. *)
Definition sample_matchFiles (dir pattern : string) (fs : gmap string Node)
    : list string :=
  let below p := strip_prefix (dir +:+ "/") p in
  let recursive := bool_decide (pattern = "**/*") in
  let shallow := bool_decide (pattern = "*") in
  (List.filter
     (λ '(p, n),
        negb (is_dir n) &&
        match below p with
        | Some rest => recursive || (shallow && negb (contains_slash rest))
        | None => false
        end)
     (map_to_list fs)).*1.

(** Modelled from the spec: [copy(source, target, forcePolicy)] writes the
    source to the target when the target is absent or the policy forces
    the overwrite, and leaves an existing target alone otherwise; it fails
    when there is no source. *)
Definition sample_copy (source target : string) (force : Policy)
    (fs : gmap string Node) : option (gmap string Node) :=
  match fs !! source with
  | None => None
  | Some n =>
      match force, fs !! target with
      | no, Some _ => Some fs
      | _, _ => Some (<[target := n]> fs)
      end
  end.

(** Modelled from the spec: [updateExistingJson(dir, file, patch)]
    shallow-merges the patch into the existing JSON and preserves the
    fields the patch does not name. The keys of the written
    [devDependencies] are listed as the finite map enumerates them. *)
Definition merge_patch (pkg : PackageJson) (content : Patch) : PackageJson :=
  {| pkg_app := pkg_app pkg;
     pkg_piral := Some (patch_piral content);
     pkg_devDependencies :=
       Some (MkDict (map_to_list (patch_devDependencies content)));
     pkg_peerDependencies := Some (patch_peerDependencies content);
     pkg_scripts := Some (patch_scripts content);
     pkg_rest := pkg_rest pkg |}.

Definition sample_updateExistingJson (dir file : string) (content : Patch)
    (fs : gmap string Node) : option (gmap string Node) :=
  let p := sample_join [dir; file] in
  match fs !! p with
  | Some (Manifest pkg) => Some (<[p := Manifest (merge_patch pkg content)]> fs)
  | _ => None
  end.

(** Modelled from the spec: the file-system queries of [io]; the hash of
    a file is its content and the hash of a missing file is [undefined]. *)
#[global] Instance sample_io : Io := {|
  FS := gmap string Node;
  ForceOverwrite := Policy;
  ForceOverwrite_yes := yes;
  io_checkExists := λ p fs, bool_decide (is_Some (fs !! p));
  io_checkIsDirectory := λ p fs,
    match fs !! p with Some Dir => true | _ => false end;
  io_matchFiles := sample_matchFiles;
  io_getHash := λ p fs,
    match fs !! p with Some (File c) => Some c | _ => None end;
  io_readFile := λ p fs,
    match fs !! p with Some (File c) => Some c | _ => None end;
  io_copy := sample_copy;
  io_updateExistingJson := sample_updateExistingJson;
  io_require := λ p fs,
    match fs !! p with Some (Manifest pkg) => Some pkg | _ => None end;
|}.

(** *** Module registry *)

Record Modules := {
  registered : gmap string JsVal;   (* names known to [System.has] *)
  served : gmap string JsVal;       (* what a URL evaluates to *)
}.

(** Modelled from the spec: a registry supporting [has], [import] and
    [register]; an import of a URL that serves nothing rejects. The base
    path of a link is the link up to and including its last slash. *)
#[global] Instance sample_modules : ModuleSystem := {|
  Registry := Modules;
  sys_has := λ name r, bool_decide (is_Some (registered r !! name));
  sys_import := λ url r,
    match served r !! url with
    | Some m => (Ok m, r)
    | None => (Throw (External "import"), r)
    end;
  sys_register := λ name url r,
    {| registered := <[name := url]> (registered r); served := served r |};
  setBasePath := λ _ link,
    match link with JStr s => s | _ => EmptyString end;
  basePath_of := λ _ link,
    match link with
    | JStr s =>
        if is_empty s then link
        else match split_last slash s with
             | Some (before, _) => JStr (before +:+ "/")
             | None => JStr EmptyString
             end
    | _ => link
    end;
|}.

(** *** Event loop *)

(** One round for each step: in every round each task that is not
    finished takes its next step, in the order in which the tasks were
    started. *)
Fixpoint round_robin {X} (rounds : nat) (tasks : list (list X)) : list X :=
  match rounds with
  | 0 => []
  | S rounds' => omap head tasks ++ round_robin rounds' (tail <$> tasks)
  end.

Definition sample_interleave {X} (tasks : list (list X)) : list X :=
  round_robin (List.length (mjoin tasks)) tasks.

Lemma join_heads_tails {X} (tasks : list (list X)) :
  omap head tasks ++ mjoin (tail <$> tasks) ≡ₚ mjoin tasks.
Proof.
  induction tasks as [|[|x task] tasks IH]; [done | exact IH |].
  cbn [omap head]. rewrite fmap_cons. cbn [tail].
  change (mjoin ((x :: task) :: tasks)) with (x :: (task ++ mjoin tasks)).
  change (mjoin (task :: (tail <$> tasks)))
    with (task ++ mjoin (tail <$> tasks)).
  cbn [List.app]. constructor.
  etrans; [apply Permutation_app_swap_app |]. by rewrite IH.
Qed.

Lemma join_cons {X} (task : list X) (tasks : list (list X)) :
  mjoin (task :: tasks) = task ++ mjoin tasks.
Proof. reflexivity. Qed.

Lemma length_join_tails_le {X} (tasks : list (list X)) :
  (List.length (mjoin (tail <$> tasks)) ≤ List.length (mjoin tasks))%nat.
Proof.
  induction tasks as [|[|y t] tasks IH]; [done | exact IH |].
  rewrite fmap_cons, !join_cons, !List.length_app.
  cbn [tail List.length]. lia.
Qed.

Lemma length_join_tails {X} (tasks : list (list X)) (n : nat) :
  (List.length (mjoin tasks) ≤ S n)%nat →
  mjoin tasks = [] ∨ (List.length (mjoin (tail <$> tasks)) ≤ n)%nat.
Proof.
  induction tasks as [|[|x task] tasks IH]; [by left | exact IH |].
  intros Hlen. right.
  rewrite fmap_cons, join_cons, List.length_app. cbn [tail].
  rewrite join_cons, List.length_app in Hlen. cbn [List.length] in Hlen.
  pose proof (length_join_tails_le tasks). lia.
Qed.

Lemma join_nil_heads {X} (tasks : list (list X)) :
  mjoin tasks = [] → omap head tasks = [] ∧ mjoin (tail <$> tasks) = [].
Proof.
  induction tasks as [|[|x task] tasks IH]; [done | exact IH | done].
Qed.

Lemma round_robin_nil {X} (rounds : nat) (tasks : list (list X)) :
  mjoin tasks = [] → round_robin rounds tasks = [].
Proof.
  revert tasks. induction rounds as [|rounds IH]; intros tasks Hnil; [done |].
  cbn [round_robin]. destruct (join_nil_heads tasks Hnil) as [-> Htails].
  by rewrite IH.
Qed.

Lemma round_robin_Permutation {X} (rounds : nat) (tasks : list (list X)) :
  (List.length (mjoin tasks) ≤ rounds)%nat → round_robin rounds tasks ≡ₚ mjoin tasks.
Proof.
  revert tasks. induction rounds as [|rounds IH]; intros tasks Hlen.
  - destruct (mjoin tasks); [done | cbn in Hlen; lia].
  - cbn [round_robin].
    destruct (length_join_tails tasks rounds Hlen) as [Hnil|Htails].
    + destruct (join_nil_heads tasks Hnil) as [-> Htails].
      by rewrite Hnil, round_robin_nil.
    + rewrite IH; [| done]. apply join_heads_tails.
Qed.

Lemma singleton_sublist {X} (x : X) (l : list X) : x ∈ l → [x] `sublist_of` l.
Proof.
  induction 1 as [x l|x y l _ IH].
  - apply sublist_skip, sublist_nil_l.
  - by apply sublist_cons.
Qed.

Lemma round_robin_sublist {X} (rounds : nat) (tasks : list (list X))
    (task : list X) :
  (List.length (mjoin tasks) ≤ rounds)%nat → task ∈ tasks →
  task `sublist_of` round_robin rounds tasks.
Proof.
  revert tasks task. induction rounds as [|rounds IH]; intros tasks task Hlen Hin.
  - assert (mjoin tasks = []) as Hnil.
    { destruct (mjoin tasks); [done | cbn in Hlen; lia]. }
    destruct task as [|x task]; [apply sublist_nil_l |].
    assert (x ∈ mjoin tasks) as Hx.
    { apply list_elem_of_join. exists (x :: task). split; [by left | done]. }
    rewrite Hnil in Hx. by apply not_elem_of_nil in Hx.
  - cbn [round_robin]. destruct task as [|x task]; [apply sublist_nil_l |].
    destruct (length_join_tails tasks rounds Hlen) as [Hnil|Htails].
    { assert (x ∈ mjoin tasks) as Hx.
      { apply list_elem_of_join. exists (x :: task). split; [by left | done]. }
      rewrite Hnil in Hx. by apply not_elem_of_nil in Hx. }
    change (x :: task) with ([x] ++ task). apply sublist_app.
    + apply singleton_sublist, list_elem_of_omap. by exists (x :: task).
    + apply IH; [done |]. apply list_elem_of_fmap. by exists (x :: task).
Qed.

(** Modelled from the spec: the event loop serves the tasks of a
    [Promise.all] in turn, one step of each per round. *)
#[global] Instance sample_scheduler : Scheduler := {|
  interleave := @sample_interleave;
  interleave_Permutation := λ X tasks,
    round_robin_Permutation (List.length (mjoin tasks)) tasks (le_n _);
  interleave_sublist := λ X tasks task,
    round_robin_sublist (List.length (mjoin tasks)) tasks task (le_n _);
|}.

(** *** Concrete inputs *)

Definition no_pilets : PiletsBlock :=
  {| raw_files := None; raw_externals := None; raw_scripts := None;
     raw_validators := None; raw_devDependencies := None;
     raw_preScaffold := None; raw_postScaffold := None;
     raw_preUpgrade := None; raw_postUpgrade := None |}.

Definition with_externals (l : list string) : PiletsBlock :=
  {| raw_files := None; raw_externals := Some l; raw_scripts := None;
     raw_validators := None; raw_devDependencies := None;
     raw_preScaffold := None; raw_postScaffold := None;
     raw_preUpgrade := None; raw_postUpgrade := None |}.

Definition with_devDependencies (d : Dict DevDependency) : PiletsBlock :=
  {| raw_files := None; raw_externals := None; raw_scripts := None;
     raw_validators := None; raw_devDependencies := Some d;
     raw_preScaffold := None; raw_postScaffold := None;
     raw_preUpgrade := None; raw_postUpgrade := None |}.

Definition host (version : option string) (deps : option (gmap string string))
    (pilets : option PiletsBlock) : PiralInfo :=
  {| piral_name := Some "my-app"; piral_version := version;
     piral_dependencies := deps; piral_devDependencies := None;
     piral_pilets := pilets |}.

Definition empty_package : PackageJson :=
  {| pkg_app := None; pkg_piral := None; pkg_devDependencies := None;
     pkg_peerDependencies := None; pkg_scripts := None; pkg_rest := ∅ |}.

Definition host_package : PackageJson :=
  {| pkg_app := Some "src/index.html"; pkg_piral := None;
     pkg_devDependencies := None; pkg_peerDependencies := None;
     pkg_scripts := None; pkg_rest := ∅ |}.

(** Hosts: one that exposes a shared library, one that lists its own
    package among the externals, one that asks for [piral-cli] at its own
    version without depending on it, one that declares a range for a
    library it also exposes, one that carries a version, and one that
    declares three pilet dependencies. *)
Definition host_sharing : PiralInfo :=
  host None (Some {[ "shared-lib" := "2.1.0" ]})
       (Some (with_externals ["shared-lib"])).

Definition host_exposing_itself : PiralInfo :=
  host None None (Some (with_externals ["my-app"])).

Definition host_pinning_cli : PiralInfo :=
  host None None (Some (with_devDependencies {[ "piral-cli" := Sentinel ]})).

Definition host_sharing_declared : PiralInfo :=
  host None (Some {[ "lodash" := "4.17.21" ]})
       (Some {| raw_files := None; raw_externals := Some ["lodash"];
                raw_scripts := None; raw_validators := None;
                raw_devDependencies := Some {[ "lodash" := Literal "^4.0.0" ]};
                raw_preScaffold := None; raw_postScaffold := None;
                raw_preUpgrade := None; raw_postUpgrade := None |}).

Definition host_versioned : PiralInfo :=
  host (Some "2.0.0") None None.

Definition host_declaring : PiralInfo :=
  host None (Some {[ "lodash" := "4.17.21" ]})
       (Some (with_devDependencies
                (<["lodash" := Sentinel]>
                   (<["jest" := Literal "26.0.0"]>
                      {[ "left-pad" := Sentinel ]})))).

Definition template_folder (deep : option bool) : FileEntry :=
  Location {| tfl_from := "files"; tfl_to := "src"; tfl_deep := deep |}.

Definition readme_changed : FileInfo :=
  {| fi_path := "/work/readme.md"; fi_hash := Some "edited readme";
     fi_changed := true |}.

Definition readme_unchanged : FileInfo :=
  {| fi_path := "/work/readme.md"; fi_hash := Some "new readme";
     fi_changed := false |}.

Definition demo_meta : gmap string JsVal :=
  <["name" := JStr "demo"]>
    (<["link" := JStr "https://cdn.example/demo/index.js"]>
       (<["dependencies" :=
            JObj {[ "dep" := JStr "https://cdn.example/dep.js" ]}]> ∅)).

Definition demo_module : JsVal :=
  JObj (<["setup" := JFun 1]> {[ "name" := JStr "from-bundle" ]}).

(** A pilet folder [/work] with the host package installed below
    [node_modules]; the host ships a template folder [files] holding
    [a.txt] and [sub/b.txt]. *)
Definition disk : gmap string Node :=
  list_to_map
    [ ("/work/package.json", Manifest empty_package);
      ("/work/node_modules/my-app", Dir);
      ("/work/node_modules/my-app/files", Dir);
      ("/work/node_modules/my-app/files/a.txt", File "A");
      ("/work/node_modules/my-app/files/sub", Dir);
      ("/work/node_modules/my-app/files/sub/b.txt", File "B");
      ("/work/node_modules/my-app/readme.md", File "new readme");
      ("/work/readme.md", File "edited readme");
      ("/host/package.json", Manifest host_package);
      ("/bare/package.json", Manifest empty_package) ].

Definition world (d : gmap string Node) : World :=
  {| fs := d; registry := {| registered := ∅; served := ∅ |} |}.

Definition world_serving (url : string) (m : JsVal) : World :=
  {| fs := disk; registry := {| registered := ∅; served := {[ url := m ]} |} |}.

End Sample.

(** * Properties *)

(** ** Strings *)

Lemma string_app_cons (c : ascii) (a b : string) :
  String c a +:+ b = String c (a +:+ b).
Proof. reflexivity. Qed.

Lemma string_app_length (a b : string) :
  String.length (a +:+ b) = String.length a + String.length b.
Proof.
  induction a as [|c a IH]; [done |].
  rewrite string_app_cons. cbn. by rewrite IH.
Qed.

Lemma string_app_inv_tail (a b suffix : string) :
  a +:+ suffix = b +:+ suffix → a = b.
Proof.
  revert b. induction a as [|c a IH]; intros [|c' b] Heq.
  - done.
  - apply (f_equal String.length) in Heq.
    rewrite string_app_cons in Heq. cbn in Heq.
    rewrite !string_app_length in Heq. cbn in Heq. lia.
  - apply (f_equal String.length) in Heq.
    rewrite string_app_cons in Heq. cbn in Heq.
    rewrite !string_app_length in Heq. cbn in Heq. lia.
  - rewrite !string_app_cons in Heq. injection Heq as -> Heq.
    f_equal. by apply IH.
Qed.

Lemma string_app_inv_head (prefix a b : string) :
  prefix +:+ a = prefix +:+ b → a = b.
Proof. apply String.app_inj. Qed.

(** The warning text determines the package it names. *)
Lemma unresolved_message_inj (n1 n2 : string) :
  unresolved_message n1 = unresolved_message n2 → n1 = n2.
Proof.
  unfold unresolved_message. intros Heq.
  apply string_app_inv_head in Heq.
  apply string_app_inv_head in Heq.
  by apply string_app_inv_tail in Heq.
Qed.

(** ** Objects built by [reduce] *)

Lemma lookup_reduce_insert {V} (f : string → V) (l : list string)
    (init : gmap string V) (k : string) :
  reduce (λ deps name, <[name := f name]> deps) init l !! k
    = if decide (k ∈ l) then Some (f k) else init !! k.
Proof.
  unfold reduce. revert init.
  induction l as [|x l IH]; intros init; cbn [foldl].
  - rewrite decide_False; [done | apply not_elem_of_nil].
  - rewrite IH. destruct (decide (k ∈ l)) as [Hl|Hl].
    + rewrite decide_True; [done | by right].
    + destruct (decide (k = x)) as [->|Hne].
      * rewrite decide_True; [| by left]. by rewrite lookup_insert_eq.
      * rewrite decide_False; [by rewrite lookup_insert_ne |].
        intros [?|?]%elem_of_cons; done.
Qed.

Lemma assoc_is_Some {V} (k : string) (l : list (string * V)) :
  is_Some (assoc k l) ↔ k ∈ l.*1.
Proof.
  induction l as [|[k' v] l IH]; cbn [assoc fmap list_fmap fst].
  - split; [by intros [? ?] | by intros ?%not_elem_of_nil].
  - destruct (decide (k' = k)) as [->|Hne].
    + split; [intros _; by left | by eexists].
    + rewrite IH. split; [by right |].
      intros [?|?]%elem_of_cons; [congruence | done].
Qed.

Lemma Object_keys_Permutation {V} (o : Dict V) :
  Object_keys o ≡ₚ remove_dups (entries o).*1.
Proof.
  unfold Object_keys. rewrite merge_sort_Permutation.
  induction (remove_dups (entries o).*1) as [|k l IH]; [done |].
  rewrite !filter_cons.
  destruct (decide (is_index k)) as [Hk|Hk].
  - rewrite decide_False; [| by intros ?]. cbn. by rewrite IH.
  - rewrite decide_True; [| done]. rewrite <- Permutation_middle. by rewrite IH.
Qed.

Lemma elem_of_Object_keys {V} (o : Dict V) (k : string) :
  k ∈ Object_keys o ↔ is_Some (o !! k).
Proof.
  rewrite Object_keys_Permutation, elem_of_remove_dups.
  symmetry. apply assoc_is_Some.
Qed.

Lemma NoDup_Object_keys {V} (o : Dict V) : NoDup (Object_keys o).
Proof. rewrite Object_keys_Permutation. apply NoDup_remove_dups. Qed.

Lemma Object_keys_empty {V} : Object_keys (∅ : Dict V) = [].
Proof. reflexivity. Qed.

Lemma lookup_dict_to_map {V} (o : Dict V) (k : string) :
  dict_to_map o !! k = o !! k.
Proof.
  unfold dict_to_map, lookup at 2, dict_lookup.
  induction (entries o) as [|[k' v] l IH]; cbn [assoc list_to_map foldr].
  - apply lookup_empty.
  - cbn. destruct (decide (k' = k)) as [->|Hne].
    + apply lookup_insert_eq.
    + by rewrite lookup_insert_ne.
Qed.

Section Reasoning.

Context {path_api : PathApi} {tooling : Tooling} {io : Io}
        {module_system : ModuleSystem} {scheduler : Scheduler}.

(** ** Runs *)

Lemma bind_run_ok {A B} (m : M A) (k : A → M B) (w w' : World) (a : A)
    (evs : list Event) :
  m w = {| outcome := Ok a; final := w'; events := evs |} →
  bind m k w
    = {| outcome := outcome (k a w'); final := final (k a w');
         events := evs ++ events (k a w') |}.
Proof. intros Hm. unfold bind. by rewrite Hm. Qed.

Lemma bind_run_throw {A B} (m : M A) (k : A → M B) (w w' : World) (e : exn)
    (evs : list Event) :
  m w = {| outcome := Throw e; final := w'; events := evs |} →
  bind m k w = {| outcome := Throw e; final := w'; events := evs |}.
Proof. intros Hm. unfold bind. by rewrite Hm. Qed.

Lemma run_eta {A} (r : Run A) :
  r = {| outcome := outcome r; final := final r; events := events r |}.
Proof. by destruct r. Qed.

(** ** Runs of the reconciliation *)

Lemma getDependencyVersion_run name dd all (w : World) :
  getDependencyVersion name dd all w
    = {| outcome := Ok (or_else (selected_of dd all name) "latest");
         final := w;
         events := warning_of dd all name |}.
Proof.
  unfold getDependencyVersion, warning_of, selected_of, bind.
  destruct (truthy _); cbn; [done |]. done.
Qed.

Lemma reduceM_getDependencyVersion dd all (l : list string)
    (init : gmap string string) (w : World) :
  reduceM
    (λ deps name,
       bind (getDependencyVersion name dd all)
            (λ v, ret (<[name := v]> deps)))
    init l w
  = {| outcome :=
         Ok (reduce (λ deps name,
                       <[name := or_else (selected_of dd all name) "latest"]> deps)
                    init l);
       final := w;
       events := l ≫= warning_of dd all |}.
Proof.
  revert init. induction l as [|x l IH]; intros init; [done |].
  cbn [reduceM].
  erewrite bind_run_ok; last first.
  { erewrite bind_run_ok; [| apply getDependencyVersion_run].
    cbn. by rewrite app_nil_r. }
  by rewrite IH.
Qed.

Lemma reconcile_run name version piralInfo language :
  ∃ content,
    (∀ w : World,
       reconcile name version piralInfo language w
         = {| outcome := Ok content;
              final := w;
              events :=
                Object_keys (devDependencies (getPiletsInfo piralInfo))
                  ≫= warning_of (devDependencies (getPiletsInfo piralInfo))
                                (host_union piralInfo) |})
    ∧ patch_devDependencies content
        = reconciled_devDependencies name version piralInfo language
    ∧ patch_peerDependencies content
        = <[name := "*"]>
            (foldr (λ n deps, <[n := "*"]> deps)
                   (reduce (λ deps n, <[n := "*"]> deps) ∅
                           (externals (getPiletsInfo piralInfo)))
                   (reverse shared_runtime_libraries))
    ∧ ps_name (patch_piral content) = name.
Proof.
  eexists. split; [| split; [| split]].
  - intros w. unfold reconcile.
    erewrite bind_run_ok; [| apply reduceM_getDependencyVersion].
    cbn. rewrite app_nil_r. reflexivity.
  - reflexivity.
  - reflexivity.
  - reflexivity.
Qed.

(** ** What a run of [patchPiletPackage] emits *)

Lemma warnings_app (evs1 evs2 : list Event) :
  warnings (evs1 ++ evs2) = warnings evs1 ++ warnings evs2.
Proof. apply omap_app. Qed.

Lemma written_app (evs1 evs2 : list Event) :
  written (evs1 ++ evs2) = written evs1 ++ written evs2.
Proof. apply omap_app. Qed.

Lemma written_warning_of dd all (l : list string) :
  written (l ≫= warning_of dd all) = [].
Proof.
  induction l as [|x l IH]; [done |].
  rewrite bind_cons, written_app, IH, app_nil_r.
  unfold warning_of. by destruct (truthy _).
Qed.

Lemma warnings_for_app n (evs1 evs2 : list Event) :
  warnings_for n (evs1 ++ evs2) = warnings_for n evs1 + warnings_for n evs2.
Proof.
  unfold warnings_for. by rewrite warnings_app, filter_app, length_app.
Qed.

Lemma warnings_for_warning_of dd all n x :
  warnings_for n (warning_of dd all x)
    = if decide (x = n) then (if truthy (selected_of dd all n) then 0 else 1)
      else 0.
Proof.
  unfold warnings_for, warning_of.
  destruct (decide (x = n)) as [->|Hne].
  - destruct (truthy _); [done |].
    change (warnings [EvWarn (unresolved_message n)])
      with [unresolved_message n].
    rewrite filter_cons, decide_True; done.
  - destruct (truthy _); [done |].
    change (warnings [EvWarn (unresolved_message x)])
      with [unresolved_message x].
    rewrite filter_cons, decide_False; [done |].
    intros Heq. by apply unresolved_message_inj in Heq.
Qed.

Lemma warnings_for_absent dd all n (l : list string) :
  n ∉ l → warnings_for n (l ≫= warning_of dd all) = 0.
Proof.
  induction l as [|x l IH]; intros Hn; [done |].
  rewrite bind_cons, warnings_for_app, warnings_for_warning_of.
  apply not_elem_of_cons in Hn as [Hne Hn].
  rewrite decide_False; [| done]. by rewrite IH.
Qed.

(** One pass over a duplicate-free list of names warns at most once per
    name: once when the name does not resolve, never when it does. *)
Lemma warnings_for_present dd all n (l : list string) :
  NoDup l → n ∈ l →
  warnings_for n (l ≫= warning_of dd all)
    = if truthy (selected_of dd all n) then 0 else 1.
Proof.
  induction 1 as [|x l Hx Hnd IH]; intros Hn.
  - by apply elem_of_nil in Hn.
  - rewrite bind_cons, warnings_for_app, warnings_for_warning_of.
    apply elem_of_cons in Hn as [->|Hn].
    + rewrite decide_True; [| done].
      rewrite warnings_for_absent; [lia | done].
    + rewrite decide_False; [by rewrite IH |]. by intros ->.
Qed.

Lemma patchPiletPackage_emits root name version piralInfo language :
  ∃ content,
    (∀ w : World,
       events (patchPiletPackage root name version piralInfo language w)
         = (Object_keys (devDependencies (getPiletsInfo piralInfo))
              ≫= warning_of (devDependencies (getPiletsInfo piralInfo))
                            (host_union piralInfo))
           ++ [EvUpdateExistingJson root "package.json" content])
    ∧ patch_devDependencies content
        = reconciled_devDependencies name version piralInfo language
    ∧ patch_peerDependencies content
        = <[name := "*"]>
            (foldr (λ n deps, <[n := "*"]> deps)
                   (reduce (λ deps n, <[n := "*"]> deps) ∅
                           (externals (getPiletsInfo piralInfo)))
                   (reverse shared_runtime_libraries))
    ∧ ps_name (patch_piral content) = name.
Proof.
  destruct (reconcile_run name version piralInfo language)
    as (content & Hrun & Hrest).
  exists content. split; [| done]. intros w.
  unfold patchPiletPackage.
  erewrite bind_run_ok; [| apply Hrun]. cbn. f_equal.
  unfold bind, updateExistingJson, update.
  by destruct (io_updateExistingJson _ _ _ _).
Qed.

Lemma patchPiletPackage_written root name version piralInfo language :
  ∃ content,
    (∀ w : World,
       written (events (patchPiletPackage root name version piralInfo language w))
         = [content])
    ∧ patch_devDependencies content
        = reconciled_devDependencies name version piralInfo language
    ∧ patch_peerDependencies content
        = <[name := "*"]>
            (foldr (λ n deps, <[n := "*"]> deps)
                   (reduce (λ deps n, <[n := "*"]> deps) ∅
                           (externals (getPiletsInfo piralInfo)))
                   (reverse shared_runtime_libraries))
    ∧ ps_name (patch_piral content) = name.
Proof.
  destruct (patchPiletPackage_emits root name version piralInfo language)
    as (content & Hev & Hrest).
  exists content. split; [| done]. intros w.
  by rewrite Hev, written_app, written_warning_of.
Qed.

Lemma patchPiletPackage_warnings_for root name version piralInfo language
    (w : World) n declared :
  devDependencies (getPiletsInfo piralInfo) !! n = Some declared →
  warnings_for n (events (patchPiletPackage root name version piralInfo language w))
    = if truthy (selected_of (devDependencies (getPiletsInfo piralInfo))
                             (host_union piralInfo) n)
      then 0 else 1.
Proof.
  intros Hn.
  destruct (patchPiletPackage_emits root name version piralInfo language)
    as (content & Hev & _).
  rewrite Hev, warnings_for_app.
  rewrite warnings_for_present.
  - unfold warnings_for. cbn. lia.
  - apply NoDup_Object_keys.
  - apply elem_of_Object_keys. by exists declared.
Qed.

(** ** Lookups in the reconciled [devDependencies] *)

Lemma reconciled_forced_cli name version piralInfo language :
  reconciled_devDependencies name version piralInfo language !! "piral-cli"
    = Some ("^" +:+ cliVersion).
Proof. unfold reconciled_devDependencies. apply lookup_insert_eq. Qed.

Lemma reconciled_forced_name name version piralInfo language :
  name ≠ "piral-cli" →
  reconciled_devDependencies name version piralInfo language !! name
    = Some (template (or_opt (Some version) (piral_version piralInfo))).
Proof.
  intros Hne. unfold reconciled_devDependencies.
  rewrite lookup_insert_ne; [| done]. apply lookup_insert_eq.
Qed.

Lemma reconciled_external name version piralInfo language n :
  n ∈ externals (getPiletsInfo piralInfo) →
  n ≠ name → n ≠ "piral-cli" →
  reconciled_devDependencies name version piralInfo language !! n
    = Some (or_else (host_dependencies piralInfo !! n) "latest").
Proof.
  intros Hin Hname Hcli. unfold reconciled_devDependencies.
  rewrite lookup_insert_ne; [| done]. rewrite lookup_insert_ne; [| done].
  apply lookup_union_Some_l.
  rewrite lookup_reduce_insert. by rewrite decide_True.
Qed.

Lemma reconciled_declared name version piralInfo language n declared :
  devDependencies (getPiletsInfo piralInfo) !! n = Some declared →
  n ∉ externals (getPiletsInfo piralInfo) →
  n ≠ name → n ≠ "piral-cli" →
  reconciled_devDependencies name version piralInfo language !! n
    = Some (or_else (selected_of (devDependencies (getPiletsInfo piralInfo))
                                 (host_union piralInfo) n) "latest").
Proof.
  intros Hn Hext Hname Hcli. unfold reconciled_devDependencies.
  rewrite lookup_insert_ne; [| done]. rewrite lookup_insert_ne; [| done].
  rewrite lookup_union_r.
  - apply lookup_union_Some_l. rewrite lookup_reduce_insert.
    rewrite decide_True; [done |]. apply elem_of_Object_keys. by exists declared.
  - rewrite lookup_reduce_insert. by rewrite decide_False.
Qed.

(** ** Lookups in the reconciled [peerDependencies] *)

Lemma lookup_foldr_insert {V} (c : V) (l : list string)
    (base : gmap string V) (k : string) :
  foldr (λ n deps, <[n := c]> deps) base l !! k
    = if decide (k ∈ l) then Some c else base !! k.
Proof.
  induction l as [|x l IH]; cbn [foldr].
  - rewrite decide_False; [done | apply not_elem_of_nil].
  - destruct (decide (k = x)) as [->|Hne].
    + rewrite lookup_insert_eq, decide_True; [done | by left].
    + rewrite lookup_insert_ne, IH; [| done].
      destruct (decide (k ∈ l)) as [Hl|Hl].
      * rewrite decide_True; [done | by right].
      * rewrite decide_False; [done |]. intros [?|?]%elem_of_cons; done.
Qed.

Lemma peerDependencies_lookup (name : string) (exts : list string) (n : string) :
  <[name := "*"]>
    (foldr (λ n deps, <[n := "*"]> deps)
           (reduce (λ deps n, <[n := "*"]> deps) (∅ : gmap string string) exts)
           (reverse shared_runtime_libraries)) !! n
  = if decide (n = name ∨ n ∈ shared_runtime_libraries ∨ n ∈ exts)
    then Some "*" else None.
Proof.
  destruct (decide (n = name)) as [->|Hname].
  { rewrite lookup_insert_eq, decide_True; [done | by left]. }
  rewrite lookup_insert_ne; [| done].
  rewrite lookup_foldr_insert, (lookup_reduce_insert (λ _, "*")).
  destruct (decide (n ∈ reverse shared_runtime_libraries)) as [Hl|Hl].
  { rewrite decide_True; [done |]. right; left. by apply elem_of_reverse. }
  destruct (decide (n ∈ exts)) as [He|He].
  { rewrite decide_True; [done |]. by right; right. }
  rewrite decide_False; [done |].
  intros [?|[?%elem_of_reverse|?]]; done.
Qed.

(** ** The dependency reconciler *)

(** C2 (as amended). For every name declared in the host's
    [pilets.devDependencies], the layer built from that block assigns a
    specifier: a non-empty literal verbatim; for [true], the host's entry in
    the union of its [dependencies] and [devDependencies] when that is
    non-empty; and ['latest'] otherwise, with exactly one warning for the
    name (and none when the declaration resolves). The reconciled
    [devDependencies] carries this specifier for every declared name that
    the later layers do not assign: a name outside [pilets.externals] that
    is neither the [name] argument nor [piral-cli]. *)
Theorem declared_versions root name version piralInfo language (w : World)
    (n : string) (declared : DevDependency) :
  devDependencies (getPiletsInfo piralInfo) !! n = Some declared →
  let run := patchPiletPackage root name version piralInfo language w in
  ∃ content specifier,
    written (events run) = [content]
    ∧ (n ∉ externals (getPiletsInfo piralInfo) →
       n ≠ name → n ≠ "piral-cli" →
       patch_devDependencies content !! n = Some specifier)
    ∧ match declared with
      | Literal v =>
          if is_empty v
          then specifier = "latest" ∧ warnings_for n (events run) = 1
          else specifier = v ∧ warnings_for n (events run) = 0
      | Sentinel =>
          match host_union piralInfo !! n with
          | Some v =>
              if is_empty v
              then specifier = "latest" ∧ warnings_for n (events run) = 1
              else specifier = v ∧ warnings_for n (events run) = 0
          | None => specifier = "latest" ∧ warnings_for n (events run) = 1
          end
      end.
Proof.
  intros Hn run.
  destruct (patchPiletPackage_written root name version piralInfo language)
    as (content & Hw & Hdev & _).
  exists content,
    (or_else (selected_of (devDependencies (getPiletsInfo piralInfo))
                          (host_union piralInfo) n) "latest").
  split; [apply Hw |]. split.
  - intros Hext Hname Hcli. rewrite Hdev.
    by apply (reconciled_declared _ _ _ _ _ declared).
  - subst run.
    rewrite (patchPiletPackage_warnings_for _ _ _ _ _ _ _ declared Hn).
    unfold selected_of. rewrite Hn.
    destruct declared as [v|].
    + destruct v; done.
    + destruct (host_union piralInfo !! n) as [v|]; [| done].
      destruct v; done.
Qed.

(** C3 (as amended). For every package name listed in [pilets.externals],
    other than the [name] argument and [piral-cli], the reconciled
    [devDependencies] maps that name to the host's own [dependencies] entry
    for it (not its [devDependencies]) when that entry is a non-empty
    string, and to ['latest'] when the host's [dependencies] has no entry
    or an empty one. In particular a host with externals [shared-lib] and
    dependencies [shared-lib: 2.1.0] gives [devDependencies] [shared-lib:
    2.1.0] and [peerDependencies] [shared-lib: *]. *)
Theorem externals_take_host_dependencies root name version piralInfo language
    (w : World) :
  (∃ content,
     written (events (patchPiletPackage root name version piralInfo language w))
       = [content]
     ∧ ∀ n,
         n ∈ externals (getPiletsInfo piralInfo) →
         n ≠ name → n ≠ "piral-cli" →
         match host_dependencies piralInfo !! n with
         | Some v =>
             patch_devDependencies content !! n
               = Some (if is_empty v then "latest" else v)
         | None => patch_devDependencies content !! n = Some "latest"
         end)
  ∧ (∃ content,
       written
         (events
            (patchPiletPackage root "my-pilet" "1.0.0" Sample.host_sharing
               language w))
         = [content]
       ∧ patch_devDependencies content !! "shared-lib" = Some "2.1.0"
       ∧ patch_peerDependencies content !! "shared-lib" = Some "*").
Proof.
  split.
  - destruct (patchPiletPackage_written root name version piralInfo language)
      as (content & Hw & Hdev & _).
    exists content. split; [apply Hw |].
    intros n Hin Hname Hcli. rewrite Hdev.
    rewrite (reconciled_external _ _ _ _ _ Hin Hname Hcli).
    by destruct (host_dependencies piralInfo !! n).
  - match goal with
    | |- context [patchPiletPackage _ ?n ?v ?p _ _] =>
        destruct (patchPiletPackage_written root n v p language)
          as (content & Hw & Hdev & Hpeer & _)
    end.
    exists content. split; [apply Hw |]. split.
    + rewrite Hdev, reconciled_external; [done | | done | done].
      cbn. by left.
    + rewrite Hpeer, peerDependencies_lookup.
      rewrite decide_True; [done |]. right; right. cbn. by left.
Qed.

(** C4 (as amended). Whatever the language baseline, the
    [pilets.devDependencies] layer and the externals layer assign, the
    reconciled [devDependencies] maps [piral-cli] to [^<cliVersion>], and it
    maps the given name, when that is not [piral-cli] itself, to the given
    version when that is non-empty and to the host manifest's version
    otherwise. *)
Theorem forced_entries root name version piralInfo language (w : World) :
  ∃ content,
    written (events (patchPiletPackage root name version piralInfo language w))
      = [content]
    ∧ patch_devDependencies content !! "piral-cli" = Some ("^" +:+ cliVersion)
    ∧ (name ≠ "piral-cli" →
       patch_devDependencies content !! name
         = Some (if is_empty version
                 then template (piral_version piralInfo)
                 else version)).
Proof.
  destruct (patchPiletPackage_written root name version piralInfo language)
    as (content & Hw & Hdev & _).
  exists content. split; [apply Hw |]. rewrite Hdev. split.
  - apply reconciled_forced_cli.
  - intros Hne. rewrite reconciled_forced_name; [| done].
    by destruct version.
Qed.

(** C5. The reconciled [peerDependencies] maps every name in the host's
    [pilets.externals] to [*], maps each of the nine well-known shared
    runtime libraries to [*], and maps the host's own package name, which
    is the [name] argument that the function also records as [piral.name],
    to [*]; it holds no other entry. *)
Theorem peerDependencies_wildcards root name version piralInfo language
    (w : World) :
  ∃ content,
    written (events (patchPiletPackage root name version piralInfo language w))
      = [content]
    ∧ (∀ n, n ∈ externals (getPiletsInfo piralInfo) →
            patch_peerDependencies content !! n = Some "*")
    ∧ (∀ n, n ∈ shared_runtime_libraries →
            patch_peerDependencies content !! n = Some "*")
    ∧ patch_peerDependencies content !! name = Some "*"
    ∧ ps_name (patch_piral content) = name
    ∧ (∀ n v, patch_peerDependencies content !! n = Some v →
              v = "*"
              ∧ (n ∈ externals (getPiletsInfo piralInfo)
                 ∨ n ∈ shared_runtime_libraries ∨ n = name)).
Proof.
  destruct (patchPiletPackage_written root name version piralInfo language)
    as (content & Hw & _ & Hpeer & Hname).
  exists content. split; [apply Hw |].
  rewrite Hpeer. split; [| split; [| split; [| split]]].
  - intros n Hin. rewrite peerDependencies_lookup, decide_True; auto.
  - intros n Hin. rewrite peerDependencies_lookup, decide_True; auto.
  - rewrite peerDependencies_lookup, decide_True; auto.
  - done.
  - intros n v Hlookup. rewrite peerDependencies_lookup in Hlookup.
    case_decide; [| done]. split; [congruence | tauto].
Qed.

(** C9. Running the reconciliation a second time, in the world the first
    run left behind and with the same host manifest, name, version and
    language, hands [updateExistingJson] the same object: the
    [devDependencies] and [peerDependencies] blocks of both runs are
    identical. *)
Theorem reconciliation_twice root name version piralInfo language (w : World) :
  let first := patchPiletPackage root name version piralInfo language w in
  let second :=
    patchPiletPackage root name version piralInfo language (final first) in
  ∃ content,
    written (events first) = [content]
    ∧ written (events second) = [content]
    ∧ map patch_devDependencies (written (events first))
        = map patch_devDependencies (written (events second))
    ∧ map patch_peerDependencies (written (events first))
        = map patch_peerDependencies (written (events second))
    ∧ warnings (events first) = warnings (events second).
Proof.
  intros first second. subst first second.
  destruct (patchPiletPackage_emits root name version piralInfo language)
    as (content & Hev & _).
  exists content. rewrite !Hev, !written_app, !written_warning_of.
  done.
Qed.

(** ** Reasoning about traces and final states *)

Lemma emits_only_ret {A} good (a : A) : emits_only good (ret a).
Proof. intros w. constructor. Qed.

Lemma emits_only_bind {A B} good (m : M A) (k : A → M B) :
  emits_only good m → (∀ a, emits_only good (k a)) →
  emits_only good (bind m k).
Proof.
  intros Hm Hk w. unfold bind. specialize (Hm w).
  destruct (outcome (m w)) as [a|e]; cbn; [| done].
  apply Forall_app. split; [done | apply Hk].
Qed.

Lemma emits_only_for_of {A} good (l : list A) (body : A → M unit) :
  (∀ x, emits_only good (body x)) → emits_only good (for_of l body).
Proof.
  intros Hbody. induction l as [|x l IH]; cbn [for_of].
  - apply emits_only_ret.
  - apply emits_only_bind; [apply Hbody | done].
Qed.

Lemma maintains_ret {A} I (a : A) : maintains I (ret a).
Proof. by intros w. Qed.

Lemma maintains_bind {A B} I (m : M A) (k : A → M B) :
  maintains I m → (∀ a, maintains I (k a)) → maintains I (bind m k).
Proof.
  intros Hm Hk w Hw. unfold bind. specialize (Hm w Hw).
  destruct (outcome (m w)) as [a|e]; cbn; [by apply Hk | done].
Qed.

Lemma maintains_for_of {A} I (l : list A) (body : A → M unit) :
  (∀ x, maintains I (body x)) → maintains I (for_of l body).
Proof.
  intros Hbody. induction l as [|x l IH]; cbn [for_of].
  - apply maintains_ret.
  - apply maintains_bind; [apply Hbody | done].
Qed.

(** ** The file set resolver *)

Lemma getFilesOf_final root name file (w : World) :
  final (getFilesOf root name file w) = w.
Proof.
  destruct file as [f|[from to deep]];
    unfold getFilesOf, bind, checkIsDirectory, query; cbn;
    by destruct (io_checkIsDirectory _ _).
Qed.

Lemma getFilesOf_resolved root name file (w : World) :
  outcome (getFilesOf root name file w) = Ok (resolved root name file w).
Proof.
  unfold resolved.
  destruct file as [f|[from to deep]];
    unfold getFilesOf, bind, checkIsDirectory, query; cbn;
    by destruct (io_checkIsDirectory _ _).
Qed.

Lemma getFilesOf_no_copy root name file (w : World) :
  copies (events (getFilesOf root name file w)) = [].
Proof.
  destruct file as [f|[from to deep]];
    unfold getFilesOf, bind, checkIsDirectory, query; cbn;
    by destruct (io_checkIsDirectory _ _).
Qed.

Lemma getFilesOf_as_location root name file (w : World) :
  getFilesOf root name file w = getFilesOf root name (as_location file) w.
Proof. by destruct file. Qed.

Lemma existsb_recorded_unchanged (originalFiles : list FileInfo) (target : string) :
  existsb (λ m, bool_decide (fi_path m = target) && negb (fi_changed m))
          originalFiles = true
  ↔ recorded_unchanged originalFiles target.
Proof.
  rewrite existsb_exists. unfold recorded_unchanged. split.
  - intros (m & Hin & Hm). exists m.
    apply andb_true_iff in Hm as [Hpath Hchanged].
    apply bool_decide_eq_true in Hpath. apply negb_true_iff in Hchanged.
    by rewrite list_elem_of_In.
  - intros (m & Hin & Hpath & Hchanged). exists m.
    rewrite <- list_elem_of_In. split; [done |].
    apply andb_true_iff. split.
    + by apply bool_decide_eq_true.
    + by apply negb_true_iff.
Qed.

Lemma getFilesOf_emits_only good root name file :
  (∀ p, good (EvCheckIsDirectory p)) →
  (∀ dir pattern, good (EvMatchFiles dir pattern)) →
  emits_only good (getFilesOf root name file).
Proof.
  intros Hdir Hmatch w.
  destruct file as [f|[from to deep]];
    unfold getFilesOf, bind, checkIsDirectory, query; cbn;
    destruct (io_checkIsDirectory _ _); cbn; repeat constructor; auto.
Qed.

Lemma getFilesOf_maintains I root name file :
  maintains I (getFilesOf root name file).
Proof. intros w Hw. by rewrite getFilesOf_final. Qed.

Lemma copyPiralFiles_policy root name files forceOverwrite originalFiles :
  emits_only (policy_respected originalFiles forceOverwrite)
             (copyPiralFiles root name files forceOverwrite originalFiles).
Proof.
  unfold copyPiralFiles.
  apply emits_only_for_of. intros file.
  apply emits_only_bind; [by apply getFilesOf_emits_only |].
  intros subfiles. apply emits_only_for_of. intros subfile w.
  unfold copy, update.
  assert (policy_respected originalFiles forceOverwrite
            (EvCopy (sourcePath subfile) (targetPath subfile)
               (if existsb (λ m, bool_decide (fi_path m = targetPath subfile)
                                   && negb (fi_changed m)) originalFiles
                then ForceOverwrite_yes else forceOverwrite))) as Hgood.
  { cbn. destruct (existsb _ _) eqn:Hex.
    - split; [done |]. intros Hnot.
      by apply existsb_recorded_unchanged in Hex.
    - split; [| done]. intros Hrec.
      apply existsb_recorded_unchanged in Hrec. congruence. }
  destruct (io_copy _ _ _ _); cbn; (constructor; [exact Hgood | constructor]).
Qed.

Lemma copies_app (evs1 evs2 : list Event) :
  copies (evs1 ++ evs2) = copies evs1 ++ copies evs2.
Proof. apply omap_app. Qed.

(** A loop over resolved pairs that runs to its end has copied each pair,
    in order. *)
Lemma for_of_copies (force : string → ForceOverwrite)
    (subfiles : list ResolvedFile) (w : World) :
  let run :=
    for_of subfiles
      (λ subfile,
         copy (sourcePath subfile) (targetPath subfile)
              (force (targetPath subfile))) w in
  outcome run = Ok tt →
  copies (events run)
    = map (λ subfile,
             (sourcePath subfile, targetPath subfile,
              force (targetPath subfile)))
          subfiles.
Proof.
  revert w. induction subfiles as [|x l IH]; intros w; [done |].
  cbv zeta in *. cbn [for_of].
  destruct (io_copy (sourcePath x) (targetPath x) (force (targetPath x)) (fs w))
    as [d'|] eqn:Hcopy.
  - erewrite bind_run_ok;
      [| unfold copy, update; rewrite Hcopy; reflexivity].
    cbn [outcome events]. intros Hok.
    rewrite copies_app. cbn [copies omap List.app map]. f_equal. by apply IH.
  - erewrite bind_run_throw;
      [| unfold copy, update; rewrite Hcopy; reflexivity].
    done.
Qed.

Lemma copyPiralFiles_single root name file forceOverwrite originalFiles
    (w : World) subfiles :
  outcome (getFilesOf root name file w) = Ok subfiles →
  outcome (copyPiralFiles root name [file] forceOverwrite originalFiles w)
    = Ok tt →
  map fst (copies (events (copyPiralFiles root name [file] forceOverwrite
                             originalFiles w)))
    = map (λ subfile, (sourcePath subfile, targetPath subfile)) subfiles.
Proof.
  unfold copyPiralFiles. cbn [for_of].
  intros Hresolved.
  pose proof (getFilesOf_final root name file w) as Hfinal.
  pose proof (getFilesOf_no_copy root name file w) as Hquiet.
  set (force := λ target : string,
         if existsb (λ m, bool_decide (fi_path m = target)
                            && negb (fi_changed m)) originalFiles
         then ForceOverwrite_yes else forceOverwrite).
  set (loop := λ subfiles : list ResolvedFile,
         for_of subfiles
           (λ subfile,
              copy (sourcePath subfile) (targetPath subfile)
                   (force (targetPath subfile)))).
  assert (bind (getFilesOf root name file) loop w
            = {| outcome := outcome (loop subfiles w);
                 final := final (loop subfiles w);
                 events := events (getFilesOf root name file w)
                             ++ events (loop subfiles w) |}) as Hinner.
  { apply bind_run_ok. rewrite (run_eta (getFilesOf root name file w)).
    by rewrite Hresolved, Hfinal. }
  change (outcome (bind (bind (getFilesOf root name file) loop)
                        (λ _, ret tt) w) = Ok tt →
          map fst (copies (events (bind (bind (getFilesOf root name file) loop)
                                        (λ _, ret tt) w)))
            = map (λ subfile, (sourcePath subfile, targetPath subfile))
                  subfiles).
  unfold bind at 1 3. rewrite Hinner. cbn [outcome final events].
  pose proof (for_of_copies force subfiles w) as Hcopies.
  cbv zeta in Hcopies. fold (loop subfiles) in Hcopies.
  destruct (outcome (loop subfiles w)) as [[]|]; cbn [outcome events ret];
    [| discriminate].
  intros _. rewrite app_nil_r, copies_app, Hquiet, (Hcopies eq_refl).
  cbn [List.app]. rewrite <- list_fmap_compose.
  by apply list_fmap_ext.
Qed.

Lemma run_eta' {A} (r : Run A) (a : A) :
  outcome r = Ok a →
  r = {| outcome := Ok a; final := final r; events := events r |}.
Proof. intros <-. by destruct r. Qed.

Lemma for_of_app {A} (l1 l2 : list A) (body : A → M unit) (w : World) :
  for_of (l1 ++ l2) body w
    = run_then (for_of l1 body w) (for_of l2 body).
Proof.
  revert w. induction l1 as [|x l1 IH]; intros w.
  - unfold run_then. cbn. by rewrite <- run_eta.
  - cbn [for_of List.app]. unfold bind, run_then.
    destruct (outcome (body x w)) eqn:Hx; cbn; [| done].
    rewrite IH. unfold run_then.
    destruct (outcome (for_of l1 body (final (body x w)))); cbn; [| done].
    by rewrite app_assoc.
Qed.

(** A computation whose effect on the file system is that of its calls
    of [copy]: the final file system is the initial one after these calls,
    a run that returns has made only calls that succeeded, and a run that
    throws has made a last call of [copy] that failed. *)
Definition copying {A} (m : M A) : Prop :=
  ∀ w,
    registry (final (m w)) = registry w
    ∧ fs (final (m w)) = foldl apply_copy (fs w) (copies (events (m w)))
    ∧ (∀ a, outcome (m w) = Ok a →
         copy_all (fs w) (copies (events (m w))) = Some (fs (final (m w))))
    ∧ (∀ e, outcome (m w) = Throw e →
         ∃ source target force,
           last (copies (events (m w))) = Some (source, target, force)
           ∧ io_copy source target force (fs (final (m w))) = None).

Lemma copy_all_app (d : FS) (calls1 calls2 : list (string * string * ForceOverwrite))
    (d' : FS) :
  copy_all d calls1 = Some d' →
  copy_all d (calls1 ++ calls2) = copy_all d' calls2.
Proof. unfold copy_all. intros H. by rewrite foldl_app, H. Qed.

Lemma copying_ret {A} (a : A) : copying (ret a).
Proof.
  intros w. cbn [ret outcome final events]. split; [done |]. split; [done |].
  split; [done |]. intros e H; discriminate H.
Qed.

Lemma copying_bind {A B} (m : M A) (k : A → M B) :
  copying m → (∀ a, copying (k a)) → copying (bind m k).
Proof.
  intros Hm Hk w. destruct (Hm w) as (Hreg & Hfs & Hok & Hthrow).
  unfold bind. destruct (outcome (m w)) as [a|e] eqn:Hout;
    cbn [outcome final events].
  - destruct (Hk a (final (m w))) as (Hreg' & Hfs' & Hok' & Hthrow').
    rewrite !copies_app, foldl_app, <- Hfs.
    split; [congruence |]. split; [done |]. split.
    + intros b Hb. rewrite (copy_all_app _ _ _ _ (Hok a eq_refl)). by eapply Hok'.
    + intros e He. destruct (Hthrow' e He) as (source & target & force & Hlast & Hnone).
      exists source, target, force. split; [| done].
      apply last_app_Some. by left.
  - split; [done |]. split; [done |]. split; [intros a H; discriminate H |].
    intros e' [= <-]. exact (Hthrow e eq_refl).
Qed.

Lemma copying_for_of {A} (l : list A) (body : A → M unit) :
  (∀ x, copying (body x)) → copying (for_of l body).
Proof.
  intros Hbody. induction l as [|x l IH]; cbn [for_of].
  - apply copying_ret.
  - apply copying_bind; [apply Hbody | done].
Qed.

Lemma copying_getFilesOf root name file : copying (getFilesOf root name file).
Proof.
  intros w. rewrite getFilesOf_final, getFilesOf_no_copy, getFilesOf_resolved.
  split; [done |]. split; [done |]. split; [done |].
  intros e H; discriminate H.
Qed.

Lemma copying_copy source target force : copying (copy source target force).
Proof.
  intros w. unfold copy, update.
  destruct (io_copy source target force (fs w)) as [d'|] eqn:Hcopy;
    cbn [outcome final events fs registry].
  - change (copies [EvCopy source target force]) with [(source, target, force)].
    unfold copy_all. cbn [foldl apply_copy mbind option_bind]. rewrite Hcopy.
    split; [done |]. split; [done |]. split; [done |].
    intros e H; discriminate H.
  - change (copies [EvCopy source target force]) with [(source, target, force)].
    cbn [foldl apply_copy]. rewrite Hcopy.
    split; [done |]. split; [done |].
    split; [intros a H; discriminate H |].
    intros e _. by exists source, target, force.
Qed.

Lemma copying_copyPiralFiles root name files forceOverwrite originalFiles :
  copying (copyPiralFiles root name files forceOverwrite originalFiles).
Proof.
  unfold copyPiralFiles. apply copying_for_of. intros file.
  apply copying_bind; [apply copying_getFilesOf |].
  intros subfiles. apply copying_for_of. intros subfile. apply copying_copy.
Qed.

(** C6. [copyPiralFiles] copies every pair it resolves: each entry of the
    file list adds, to the copies of the entries before it, exactly the
    pairs that it resolves to in the file system those left, in order, and
    nothing is copied for an empty list. The copies are performed: the
    final file system is the initial one after the calls of [copy] made, a
    run that returns has made only calls that succeeded, and a run that
    throws stopped at a call of [copy] that failed. When the prior stats
    list records the exact target path with [changed: false] the copy is
    forced ([ForceOverwrite.yes]) whatever the global policy is, and
    otherwise (the path is recorded as changed only, or not recorded) it
    carries the caller's global policy. Hence, when [copy] touches its
    target only and leaves an existing target alone under the caller's
    policy, a target that is not recorded as unchanged keeps its content. *)
Theorem overwrite_policy root name files forceOverwrite originalFiles
    (w : World) :
  let copyFiles l := copyPiralFiles root name l forceOverwrite originalFiles w in
  let run := copyFiles files in
  (∀ k file,
     files !! k = Some file →
     outcome (copyFiles (take (S k) files)) = Ok tt →
     (copies (events (copyFiles (take (S k) files)))).*1
       = (copies (events (copyFiles (take k files)))).*1
         ++ ((λ pair, (sourcePath pair, targetPath pair))
               <$> resolved root name file (final (copyFiles (take k files)))))
  ∧ copies (events (copyFiles [])) = []
  ∧ fs (final run) = foldl apply_copy (fs w) (copies (events run))
  ∧ (outcome run = Ok tt →
     copy_all (fs w) (copies (events run)) = Some (fs (final run)))
  ∧ (∀ e, outcome run = Throw e →
       ∃ source target force,
         last (copies (events run)) = Some (source, target, force)
         ∧ io_copy source target force (fs (final run)) = None)
  ∧ (∀ source target force,
       (source, target, force) ∈ copies (events run) →
       (recorded_unchanged originalFiles target → force = ForceOverwrite_yes)
       ∧ (¬ recorded_unchanged originalFiles target → force = forceOverwrite))
  ∧ (copy_frame → preserving forceOverwrite →
     ∀ target content,
       ¬ recorded_unchanged originalFiles target →
       io_readFile target (fs w) = Some content →
       io_readFile target (fs (final run)) = Some content).
Proof.
  intros copyFiles run.
  destruct (copying_copyPiralFiles root name files forceOverwrite
              originalFiles w) as (_ & Hfs & Hok & Hthrow).
  split; [| split; [done |]; split; [exact Hfs |];
            split; [apply Hok |]; split; [exact Hthrow |]; split].
  - intros k file Hfile. subst copyFiles. cbv beta.
    rewrite (take_S_r _ _ _ Hfile). unfold copyPiralFiles at 1 2.
    rewrite for_of_app. fold (copyPiralFiles root name (take k files)
                                forceOverwrite originalFiles).
    fold (copyPiralFiles root name [file] forceOverwrite originalFiles).
    unfold run_then.
    destruct (outcome (copyPiralFiles root name (take k files) forceOverwrite
                         originalFiles w)) as [[]|e]; cbn [outcome events];
      [| intros H; discriminate H].
    intros Hsingle. rewrite copies_app, fmap_app. f_equal.
    apply (copyPiralFiles_single root name file forceOverwrite originalFiles
             _ _ (getFilesOf_resolved _ _ _ _) Hsingle).
  - intros source target force Hin.
    apply list_elem_of_omap in Hin as (ev & Hev & Hcopy).
    pose proof (copyPiralFiles_policy root name files forceOverwrite
                  originalFiles w) as Hall.
    rewrite Forall_forall in Hall. specialize (Hall ev Hev).
    destruct ev; try discriminate. injection Hcopy as -> -> ->. exact Hall.
  - intros Hframe Hkeep target content Hnot Hread.
    assert (maintains (λ w, io_readFile target (fs w) = Some content)
              (copyPiralFiles root name files forceOverwrite originalFiles))
      as Hmaintains; [| exact (Hmaintains w Hread)].
    clear w copyFiles run Hfs Hok Hthrow Hread.
    unfold copyPiralFiles.
    apply maintains_for_of. intros file.
    apply maintains_bind; [apply getFilesOf_maintains |].
    intros subfiles. apply maintains_for_of. intros subfile w Hread.
    unfold copy, update.
    destruct (io_copy _ _ _ _) as [d'|] eqn:Hcopy; cbn; [| done].
    destruct (decide (targetPath subfile = target)) as [Heq|Hne].
    + destruct (existsb _ _) eqn:Hex.
      * apply existsb_recorded_unchanged in Hex. by rewrite Heq in Hex.
      * rewrite <- Heq in *. by eapply Hkeep.
    + rewrite (Hframe _ _ _ _ _ target Hcopy); [done | done].
Qed.

(** ** Plain entries of the file list *)

Lemma reduceM_ext {A B} (f g : B → A → M B) (l l' : list A)
    (R : A → A → Prop) :
  (∀ acc a b w, R a b → f acc a w = g acc b w) →
  Forall2 R l l' →
  ∀ init w, reduceM f init l w = reduceM g init l' w.
Proof.
  intros Hfg Hl. induction Hl as [|a b l l' Hab Hl IH]; intros init w; [done |].
  cbn [reduceM]. unfold bind. rewrite (Hfg init a b w Hab).
  destruct (outcome (g init b w)); [by rewrite IH | done].
Qed.

Lemma for_of_ext {A} (f g : A → M unit) (l l' : list A) (R : A → A → Prop) :
  (∀ a b w, R a b → f a w = g b w) →
  Forall2 R l l' →
  ∀ w, for_of l f w = for_of l' g w.
Proof.
  intros Hfg Hl. induction Hl as [|a b l l' Hab Hl IH]; intros w; [done |].
  cbn [for_of]. unfold bind. rewrite (Hfg a b w Hab).
  destruct (outcome (g b w)); [by rewrite IH | done].
Qed.

Lemma getFilesOf_same_entry root name a b (w : World) :
  same_entry a b → getFilesOf root name a w = getFilesOf root name b w.
Proof.
  unfold same_entry. intros Hab.
  by rewrite (getFilesOf_as_location _ _ a), (getFilesOf_as_location _ _ b), Hab.
Qed.

(** C10. An entry of the files list that is a plain string [f] behaves at
    [getFilesOf], [getFileStats] and [copyPiralFiles] exactly like the
    location [{from: f, to: f, deep: false}]: replacing entries of a list by
    entries that denote the same location changes neither the result, nor
    the final state, nor the calls made. *)
Theorem plain_entry_is_location root name (files files' : list FileEntry) :
  Forall2 same_entry files files' →
  (∀ f, same_entry (Plain f)
          (Location {| tfl_from := f; tfl_to := f; tfl_deep := Some false |}))
  ∧ (∀ w : World, getFileStats root name files w = getFileStats root name files' w)
  ∧ (∀ forceOverwrite originalFiles (w : World),
       copyPiralFiles root name files forceOverwrite originalFiles w
         = copyPiralFiles root name files' forceOverwrite originalFiles w).
Proof.
  intros Hfiles. split; [done |]. split.
  - intros w. unfold getFileStats.
    assert (run_each (stats_task root name <$> files) w
              = run_each (stats_task root name <$> files') w) as ->; [| done].
    revert w. induction Hfiles as [|a b l l' Hab Hl IH]; intros w; [done |].
    rewrite !fmap_cons. cbn [run_each].
    assert (stats_task root name a w = stats_task root name b w) as ->.
    { unfold stats_task, bind.
      by rewrite (getFilesOf_same_entry _ _ a b w Hab). }
    by rewrite IH.
  - intros forceOverwrite originalFiles w. unfold copyPiralFiles.
    apply (for_of_ext _ _ _ _ same_entry); [| done].
    intros a b w' Hab. unfold bind.
    by rewrite (getFilesOf_same_entry _ _ a b w' Hab).
Qed.

(** ** The host locator *)

(** C8. [retrievePiralRoot(baseDir, entry)]: when [join(baseDir, entry)]
    has the extension [.html], that path is returned and no collaborator is
    called, so no manifest is looked for or read. Otherwise the function
    throws the error [Invalid Piral instance.] exactly when the
    [package.json] at the hint location does not exist or its [app] field
    is missing or empty, the last call before the throw being [logFail];
    and with a non-empty [app] it returns the manifest's directory joined
    with [app]. *)
Theorem host_locator baseDir entry (w : World) :
  let rootDir := join [baseDir; entry] in
  let packageName :=
    if bool_decide (basename rootDir = "package.json") then rootDir
    else join [rootDir; "package.json"] in
  let run := retrievePiralRoot baseDir entry w in
  (extname rootDir = ".html" →
   run = {| outcome := Ok rootDir; final := w; events := [] |})
  ∧ (extname rootDir ≠ ".html" →
     final run = w
     ∧ (outcome run = Throw (Error "Invalid Piral instance.")
        ↔ io_checkExists packageName (fs w) = false
          ∨ ∃ pkg, io_require packageName (fs w) = Some pkg
                   ∧ (pkg_app pkg = None ∨ pkg_app pkg = Some EmptyString))
     ∧ (outcome run = Throw (Error "Invalid Piral instance.") →
        ∃ message args, last (events run) = Some (EvFail message args))
     ∧ (∀ pkg app,
          io_checkExists packageName (fs w) = true →
          io_require packageName (fs w) = Some pkg →
          pkg_app pkg = Some app → app ≠ EmptyString →
          outcome run = Ok (join [dirname packageName; app]))).
Proof.
  intros rootDir packageName run. subst run. unfold retrievePiralRoot.
  fold rootDir. fold packageName. split.
  - intros Hext. by rewrite bool_decide_eq_true_2.
  - intros Hext. rewrite bool_decide_eq_false_2; [| done]. cbn [negb].
    destruct (io_checkExists packageName (fs w)) eqn:Hexists.
    + erewrite bind_run_ok;
        [| unfold checkExists, query; rewrite Hexists; reflexivity].
      cbn [negb]. erewrite bind_run_ok; [| reflexivity].
      destruct (io_require packageName (fs w)) as [pkg|] eqn:Hrequire.
      * erewrite bind_run_ok;
          [| unfold require; rewrite Hrequire; reflexivity].
        destruct (pkg_app pkg) as [[|c app]|] eqn:Happ;
          cbn [truthy is_empty negb template].
        -- erewrite bind_run_throw;
             [| erewrite bind_run_ok; reflexivity].
           cbn [outcome final events List.app].
           split; [done |]. split; [| split].
           ++ split; [intros _ | done]. right. exists pkg. auto.
           ++ intros _. by eexists _, _.
           ++ intros pkg' app' _ [= <-] Happ' Hne. congruence.
        -- erewrite bind_run_ok; [| reflexivity].
           cbn [outcome final events List.app ret].
           split; [done |]. split; [| split].
           ++ split; [done |]. intros [|(pkg' & [= <-] & [|])]; congruence.
           ++ done.
           ++ intros pkg' app' _ [= <-] Happ' Hne. congruence.
        -- erewrite bind_run_throw;
             [| erewrite bind_run_ok; reflexivity].
           cbn [outcome final events List.app].
           split; [done |]. split; [| split].
           ++ split; [intros _ | done]. right. exists pkg. auto.
           ++ intros _. by eexists _, _.
           ++ intros pkg' app' _ [= <-] Happ' Hne. congruence.
      * erewrite bind_run_throw;
          [| unfold require; rewrite Hrequire; reflexivity].
        cbn [outcome final events List.app].
        split; [done |]. split; [| split].
        -- split; [done |]. intros [|(pkg' & ? & _)]; congruence.
        -- done.
        -- intros pkg' app' _ ?. congruence.
    + erewrite bind_run_ok;
        [| unfold checkExists, query; rewrite Hexists; reflexivity].
      cbn [negb]. erewrite bind_run_throw;
        [| erewrite bind_run_ok; reflexivity].
      cbn [outcome final events List.app].
      split; [done |]. split; [| split].
      * split; [intros _; by left | done].
      * intros _. by eexists _, _.
      * intros pkg' app' ?. congruence.
Qed.

(** ** The module loader *)

Lemma for_of_ok {A} (l : list A) (body : A → M unit) :
  (∀ x w, outcome (body x w) = Ok tt) →
  ∀ w, outcome (for_of l body w) = Ok tt.
Proof.
  intros Hbody. induction l as [|x l IH]; intros w; [done |].
  cbn [for_of]. unfold bind. rewrite Hbody. cbn. apply IH.
Qed.

Lemma registerDependencies_ok meta (w : World) :
  outcome (registerDependencies meta w) = Ok tt.
Proof.
  unfold registerDependencies.
  destruct (meta !! "dependencies") as [[| | | | | |deps]|]; try done.
  apply for_of_ok. intros depName w'.
  unfold bind, System_has, registerModule. cbn.
  by destruct (sys_has _ _).
Qed.


End Reasoning.

(** ** Directory expansion *)

(** C7. When the source of a template file location is a directory, the
    resolver asks [matchFiles] for [**/*] (all files, recursively) if
    [deep] is true and for [*] (the direct children) otherwise, and every
    matched file goes to the target directory resolved with the file's path
    relative to the source directory; a source that is not a directory
    yields exactly the one pair source, target. On a source directory that
    holds [a.txt] and [sub/b.txt], [deep: false] yields exactly [a.txt] and
    [deep: true] yields both. *)
Theorem directory_expansion :
  (∀ (path_api : PathApi) (tooling : Tooling) (io : Io)
     (module_system : ModuleSystem) root name (l : TemplateFileLocation)
     (w : World),
     let sourceDir := join [resolve [root; "node_modules"; name]; tfl_from l] in
     let targetDir := resolve [root; tfl_to l] in
     outcome (getFilesOf root name (Location l) w)
       = Ok (if io_checkIsDirectory sourceDir (fs w)
             then
               map (λ file,
                      {| sourcePath := file;
                         targetPath :=
                           resolve [targetDir; relative sourceDir file] |})
                   (io_matchFiles sourceDir
                      (if default false (tfl_deep l) then "**/*" else "*")
                      (fs w))
             else [ {| sourcePath := sourceDir; targetPath := targetDir |} ]))
  ∧ outcome (getFilesOf "/work" "my-app" (Sample.template_folder (Some false))
                        (Sample.world Sample.disk))
      = Ok [ {| sourcePath := "/work/node_modules/my-app/files/a.txt";
                targetPath := "/work/src/a.txt" |} ]
  ∧ outcome (getFilesOf "/work" "my-app" (Sample.template_folder None)
                        (Sample.world Sample.disk))
      = Ok [ {| sourcePath := "/work/node_modules/my-app/files/a.txt";
                targetPath := "/work/src/a.txt" |} ]
  ∧ outcome (getFilesOf "/work" "my-app" (Sample.template_folder (Some true))
                        (Sample.world Sample.disk))
      = Ok [ {| sourcePath := "/work/node_modules/my-app/files/sub/b.txt";
                targetPath := "/work/src/sub/b.txt" |};
             {| sourcePath := "/work/node_modules/my-app/files/a.txt";
                targetPath := "/work/src/a.txt" |} ]
  ∧ outcome (getFilesOf "/work" "my-app" (Plain "readme.md")
                        (Sample.world Sample.disk))
      = Ok [ {| sourcePath := "/work/node_modules/my-app/readme.md";
                targetPath := "/work/readme.md" |} ].
Proof.
  split; [| split; [| split; [| split]]; vm_compute; reflexivity].
  intros path_api tooling io module_system root name l w sourceDir targetDir.
  subst sourceDir targetDir.
  unfold getFilesOf, bind, checkIsDirectory, query, getPiralPath. cbn.
  by destruct (io_checkIsDirectory _ _).
Qed.

(** ** The reference implementation meets the assumptions on [copy] *)

Lemma sample_copy_frame : copy_frame.
Proof.
  intros source target p d d' q Hcopy Hq. cbn in *.
  unfold Sample.sample_copy in Hcopy.
  destruct (d !! source) as [n|]; [| done].
  destruct p, (d !! target); injection Hcopy as <-;
    by rewrite ?lookup_insert_ne.
Qed.

Lemma sample_copy_preserving : preserving Sample.no.
Proof.
  intros source target d d' c Hcopy Hread. cbn in *.
  unfold Sample.sample_copy in Hcopy.
  destruct (d !! source) as [n|]; [| done].
  destruct (d !! target) as [m|] eqn:Htarget; [| done].
  injection Hcopy as <-. by rewrite Htarget.
Qed.

(** ** The theorems at concrete inputs *)

Import Sample.

(** Evaluate the scrutinee of the [match] that a hypothesis states. *)
Ltac eval_scrutinee H :=
  lazymatch type of H with
  | match ?s with _ => _ end =>
      let v := eval vm_compute in s in
      change s with v in H; cbv beta iota in H
  end.


(** The bundle loads: its export [name] wins, [link] comes from the
    metadata, [setup] from the bundle and [basePath] from [setBasePath]. *)
Example loader_merges_exports :
  ∃ pilet,
    outcome (loader demo_meta ∅
               (world_serving "https://cdn.example/demo/index.js" demo_module))
      = Ok pilet
    ∧ pilet !! "name" = Some (JStr "from-bundle")
    ∧ pilet !! "setup" = Some (JFun 1)
    ∧ pilet !! "link" = Some (JStr "https://cdn.example/demo/index.js")
    ∧ pilet !! "basePath" = Some (JStr "https://cdn.example/demo/").
Proof.
  eexists. split; [reflexivity |].
  split; [| split; [| split]]; vm_compute; reflexivity.
Qed.

(** [lodash: true] resolves against the host, [left-pad: true] does not. *)
Lemma declared_versions_witness :
  devDependencies (getPiletsInfo host_declaring) !! "left-pad" = Some Sentinel
  ∧ ∃ content,
      written (events (patchPiletPackage "/work" "my-app" "1.0.0"
                         host_declaring None (world disk))) = [content]
      ∧ patch_devDependencies content !! "left-pad" = Some "latest"
      ∧ warnings_for "left-pad"
          (events (patchPiletPackage "/work" "my-app" "1.0.0"
                     host_declaring None (world disk))) = 1.
Proof.
  assert (devDependencies (getPiletsInfo host_declaring) !! "left-pad"
            = Some Sentinel) as Hdeclared by (vm_compute; reflexivity).
  split; [exact Hdeclared |].
  destruct (declared_versions "/work" "my-app" "1.0.0" host_declaring None
              (world disk) "left-pad" Sentinel Hdeclared)
    as (content & specifier & Hwritten & Hreconciled & Hcase).
  eval_scrutinee Hcase. destruct Hcase as [-> Hwarn].
  exists content. split; [exact Hwritten |]. split; [| exact Hwarn].
  apply Hreconciled.
  - apply not_elem_of_nil.
  - done.
  - done.
Defined.

(** The object a run writes, with its blocks unfolded. *)
Tactic Notation "reconciled_at" uconstr(root) uconstr(name) uconstr(version)
    uconstr(piralInfo) uconstr(language) :=
  let content := fresh "content" in
  let Hwritten := fresh "Hwritten" in
  let Hdev := fresh "Hdev" in
  let Hpeer := fresh "Hpeer" in
  destruct (patchPiletPackage_written root name version piralInfo language)
    as (content & Hwritten & Hdev & Hpeer & _);
  exists content; split; [apply Hwritten |];
  rewrite ?Hdev, ?Hpeer.

Example declared_versions_resolved :
  ∃ content,
    written (events (patchPiletPackage "/work" "my-app" "1.0.0"
                       host_declaring None (world disk))) = [content]
    ∧ patch_devDependencies content !! "lodash" = Some "4.17.21"
    ∧ patch_devDependencies content !! "jest" = Some "26.0.0"
    ∧ warnings (events (patchPiletPackage "/work" "my-app" "1.0.0"
                          host_declaring None (world disk)))
        = [unresolved_message "left-pad"].
Proof.
  reconciled_at "/work" "my-app" "1.0.0" host_declaring None.
  split; [| split]; vm_compute; reflexivity.
Qed.

(** C2, the sentence as written fails. The host declares [piral-cli: true]
    and depends on no [piral-cli]: the declaration does not resolve and one
    warning is emitted, yet the reconciled specifier is [^0.10.0], not
    ['latest']. And a host that declares the literal [^4.0.0] for a library
    it also lists among the externals gets its own [dependencies] entry,
    not the literal. *)
Lemma declared_versions_counterexample :
  (devDependencies (getPiletsInfo host_pinning_cli) !! "piral-cli" = Some Sentinel
   ∧ host_union host_pinning_cli !! "piral-cli" = None
   ∧ (∃ content,
        written (events (patchPiletPackage "/work" "my-app" "1.0.0"
                           host_pinning_cli None (world disk))) = [content]
        ∧ patch_devDependencies content !! "piral-cli" = Some "^0.10.0")
   ∧ warnings_for "piral-cli"
       (events (patchPiletPackage "/work" "my-app" "1.0.0"
                  host_pinning_cli None (world disk))) = 1
   ∧ ¬ declared_versions_as_stated "/work" "my-app" "1.0.0"
         host_pinning_cli None (world disk))
  ∧ (devDependencies (getPiletsInfo host_sharing_declared) !! "lodash"
       = Some (Literal "^4.0.0")
     ∧ (∃ content,
          written (events (patchPiletPackage "/work" "my-app" "1.0.0"
                             host_sharing_declared None (world disk)))
            = [content]
          ∧ patch_devDependencies content !! "lodash" = Some "4.17.21")
     ∧ ¬ declared_versions_as_stated "/work" "my-app" "1.0.0"
           host_sharing_declared None (world disk)).
Proof.
  split.
  - split; [vm_compute; reflexivity |]. split; [vm_compute; reflexivity |].
    split.
    { reconciled_at "/work" "my-app" "1.0.0" host_pinning_cli None.
      vm_compute. reflexivity. }
    split; [vm_compute; reflexivity |].
    intros Hclaim.
    destruct (patchPiletPackage_written "/work" "my-app" "1.0.0"
                host_pinning_cli None) as (content & Hwritten & Hdev & _).
    specialize (Hclaim content "piral-cli" Sentinel (Hwritten _)).
    rewrite Hdev in Hclaim.
    assert (devDependencies (getPiletsInfo host_pinning_cli) !! "piral-cli"
              = Some Sentinel) as Hdeclared by (vm_compute; reflexivity).
    specialize (Hclaim Hdeclared).
    eval_scrutinee Hclaim. destruct Hclaim as [Hlatest _].
    vm_compute in Hlatest. discriminate Hlatest.
  - assert (devDependencies (getPiletsInfo host_sharing_declared) !! "lodash"
              = Some (Literal "^4.0.0")) as Hdeclared
      by (vm_compute; reflexivity).
    split; [exact Hdeclared |]. split.
    { reconciled_at "/work" "my-app" "1.0.0" host_sharing_declared None.
      vm_compute. reflexivity. }
    intros Hclaim.
    destruct (patchPiletPackage_written "/work" "my-app" "1.0.0"
                host_sharing_declared None) as (content & Hwritten & Hdev & _).
    specialize (Hclaim content "lodash" (Literal "^4.0.0") (Hwritten _)
                       Hdeclared).
    cbv beta iota in Hclaim. rewrite Hdev in Hclaim.
    vm_compute in Hclaim. discriminate Hclaim.
Qed.

Lemma externals_take_host_dependencies_witness :
  "shared-lib" ∈ externals (getPiletsInfo host_sharing)
  ∧ ∃ content,
      written (events (patchPiletPackage "/work" "my-pilet" "1.0.0"
                         host_sharing None (world disk))) = [content]
      ∧ patch_devDependencies content !! "shared-lib" = Some "2.1.0".
Proof.
  assert ("shared-lib" ∈ externals (getPiletsInfo host_sharing)) as Hin
    by (apply elem_of_cons; by left).
  split; [exact Hin |].
  destruct (externals_take_host_dependencies "/work" "my-pilet" "1.0.0"
              host_sharing None (world disk))
    as [(content & Hwritten & Hexternals) _].
  exists content. split; [exact Hwritten |].
  specialize (Hexternals "shared-lib" Hin ltac:(done) ltac:(done)).
  eval_scrutinee Hexternals. exact Hexternals.
Defined.

(** C3, the sentence as written fails: the host lists its own package
    [my-app] among the externals and has no [dependencies] entry for it;
    the reconciled specifier is the given version, not ['latest']. *)
Lemma externals_counterexample :
  "my-app" ∈ externals (getPiletsInfo host_exposing_itself)
  ∧ host_dependencies host_exposing_itself !! "my-app" = None
  ∧ (∃ content,
       written (events (patchPiletPackage "/work" "my-app" "1.0.0"
                          host_exposing_itself None (world disk))) = [content]
       ∧ patch_devDependencies content !! "my-app" = Some "1.0.0")
  ∧ ¬ externals_as_stated "/work" "my-app" "1.0.0"
        host_exposing_itself None (world disk).
Proof.
  assert ("my-app" ∈ externals (getPiletsInfo host_exposing_itself)) as Hin
    by (apply elem_of_cons; by left).
  split; [exact Hin |]. split; [vm_compute; reflexivity |].
  split.
  { reconciled_at "/work" "my-app" "1.0.0" host_exposing_itself
                  None.
    vm_compute. reflexivity. }
  intros Hclaim.
  destruct (patchPiletPackage_written "/work" "my-app" "1.0.0"
              host_exposing_itself None) as (content & Hwritten & Hdev & _).
  specialize (Hclaim content "my-app" (Hwritten _) Hin).
  rewrite Hdev in Hclaim. vm_compute in Hclaim. discriminate Hclaim.
Qed.

Lemma forced_entries_witness :
  "my-app" ≠ "piral-cli"
  ∧ ∃ content,
      written (events (patchPiletPackage "/work" "my-app" "1.0.0"
                         host_pinning_cli typescript (world disk))) = [content]
      ∧ patch_devDependencies content !! "piral-cli" = Some "^0.10.0"
      ∧ patch_devDependencies content !! "my-app" = Some "1.0.0".
Proof.
  split; [done |].
  destruct (forced_entries "/work" "my-app" "1.0.0" host_pinning_cli
              typescript (world disk))
    as (content & Hwritten & Hcli & Hname).
  exists content. split; [exact Hwritten |]. split; [exact Hcli |].
  by apply Hname.
Defined.

(** C4, the sentence as written fails twice: with an empty version the
    given name is mapped to the host manifest's version, and with the name
    [piral-cli] the entry [^<cliVersion>] wins over the given version. *)
Lemma forced_entries_counterexample :
  (∃ content,
     written (events (patchPiletPackage "/work" "my-app" EmptyString
                        host_versioned None (world disk))) = [content]
     ∧ patch_devDependencies content !! "my-app" = Some "2.0.0")
  ∧ ¬ forced_entries_as_stated "/work" "my-app" EmptyString
        host_versioned None (world disk)
  ∧ (∃ content,
       written (events (patchPiletPackage "/work" "piral-cli" "1.0.0"
                          host_versioned None (world disk))) = [content]
       ∧ patch_devDependencies content !! "piral-cli" = Some "^0.10.0")
  ∧ ¬ forced_entries_as_stated "/work" "piral-cli" "1.0.0"
        host_versioned None (world disk).
Proof.
  split.
  { reconciled_at "/work" "my-app" EmptyString host_versioned None.
    vm_compute. reflexivity. }
  split.
  { intros Hclaim.
    destruct (patchPiletPackage_written "/work" "my-app" EmptyString
                host_versioned None) as (content & Hwritten & Hdev & _).
    destruct (Hclaim content (Hwritten _)) as [Hname _].
    rewrite Hdev in Hname. vm_compute in Hname. discriminate Hname. }
  split.
  { reconciled_at "/work" "piral-cli" "1.0.0" host_versioned None.
    vm_compute. reflexivity. }
  intros Hclaim.
  destruct (patchPiletPackage_written "/work" "piral-cli" "1.0.0"
              host_versioned None) as (content & Hwritten & Hdev & _).
  destruct (Hclaim content (Hwritten _)) as [Hname _].
  rewrite Hdev in Hname. vm_compute in Hname. discriminate Hname.
Qed.

Lemma peerDependencies_wildcards_witness :
  "shared-lib" ∈ externals (getPiletsInfo host_sharing)
  ∧ "react-router" ∈ shared_runtime_libraries
  ∧ ∃ content,
      written (events (patchPiletPackage "/work" "my-app" "1.0.0"
                         host_sharing None (world disk))) = [content]
      ∧ patch_peerDependencies content !! "shared-lib" = Some "*"
      ∧ patch_peerDependencies content !! "react-router" = Some "*"
      ∧ patch_peerDependencies content !! "my-app" = Some "*".
Proof.
  assert ("shared-lib" ∈ externals (getPiletsInfo host_sharing)) as Hin
    by (apply elem_of_cons; by left).
  assert ("react-router" ∈ shared_runtime_libraries) as Hlib
    by (apply list_elem_of_In; cbn; tauto).
  split; [exact Hin |]. split; [exact Hlib |].
  destruct (peerDependencies_wildcards "/work" "my-app" "1.0.0" host_sharing
              None (world disk))
    as (content & Hwritten & Hexternals & Hlibs & Hname & _).
  exists content. split; [exact Hwritten |]. split; [by apply Hexternals |].
  split; [by apply Hlibs | exact Hname].
Defined.

(** The prior stats pass saw the scaffolded [readme.md] as edited: under
    the preserving policy the copy is issued with that policy and the
    edited file keeps its content. *)
Lemma overwrite_policy_witness :
  copy_frame ∧ preserving no
  ∧ ¬ recorded_unchanged [readme_changed] "/work/readme.md"
  ∧ (copies (events (copyPiralFiles "/work" "my-app"
                       [template_folder None; Plain "readme.md"] no
                       [readme_changed] (world disk)))).*1
    = (copies (events (copyPiralFiles "/work" "my-app" [template_folder None]
                         no [readme_changed] (world disk)))).*1
      ++ [("/work/node_modules/my-app/readme.md", "/work/readme.md")]
  ∧ ("/work/node_modules/my-app/readme.md", "/work/readme.md", no)
      ∈ copies (events (copyPiralFiles "/work" "my-app"
                          [template_folder None; Plain "readme.md"] no
                          [readme_changed] (world disk)))
  ∧ copy_all disk
      (copies (events (copyPiralFiles "/work" "my-app"
                         [template_folder None; Plain "readme.md"] no
                         [readme_changed] (world disk))))
    = Some (fs (final (copyPiralFiles "/work" "my-app"
                         [template_folder None; Plain "readme.md"] no
                         [readme_changed] (world disk))))
  ∧ io_readFile "/work/src/a.txt"
      (fs (final (copyPiralFiles "/work" "my-app"
                    [template_folder None; Plain "readme.md"] no
                    [readme_changed] (world disk))))
    = Some "A"
  ∧ io_readFile "/work/readme.md"
      (fs (final (copyPiralFiles "/work" "my-app"
                    [template_folder None; Plain "readme.md"] no
                    [readme_changed] (world disk))))
    = Some "edited readme".
Proof.
  assert (¬ recorded_unchanged [readme_changed] "/work/readme.md") as Hnot.
  { intros (m & Hm & _ & Hchanged).
    apply list_elem_of_singleton in Hm as ->. discriminate Hchanged. }
  assert (outcome (copyPiralFiles "/work" "my-app"
                     [template_folder None; Plain "readme.md"] no
                     [readme_changed] (world disk)) = Ok tt) as Hreturns
    by (vm_compute; reflexivity).
  split; [exact sample_copy_frame |]. split; [exact sample_copy_preserving |].
  split; [exact Hnot |].
  destruct (overwrite_policy (io := sample_io) "/work" "my-app"
              [template_folder None; Plain "readme.md"] no [readme_changed]
              (world disk))
    as (Hstep & _ & _ & Hok & _ & Hpolicy & Hkept).
  split; [| split; [| split; [| split]]].
  - etrans; [exact (Hstep 1 (Plain "readme.md") eq_refl Hreturns) |].
    f_equal; vm_compute; reflexivity.
  - apply list_elem_of_In. vm_compute. right. by left.
  - exact (Hok Hreturns).
  - vm_compute. reflexivity.
  - apply (Hkept sample_copy_frame sample_copy_preserving); [exact Hnot |].
    vm_compute. reflexivity.
Defined.

(** Recorded as unchanged, the same file is overwritten although the
    caller's policy preserves. *)
Example overwrite_forced :
  copies (events (copyPiralFiles "/work" "my-app" [Plain "readme.md"] no
                    [readme_unchanged] (world disk)))
    = [("/work/node_modules/my-app/readme.md", "/work/readme.md", yes)]
  ∧ io_readFile "/work/readme.md"
      (fs (final (copyPiralFiles "/work" "my-app" [Plain "readme.md"] no
                    [readme_unchanged] (world disk))))
    = Some "new readme".
Proof. split; vm_compute; reflexivity. Qed.

(** An entry hint that names an [.html] file, a folder with a manifest
    that declares [app], and a folder whose manifest does not. *)
Lemma host_locator_witness :
  extname (join ["/host"; "index.html"]) = ".html"
  ∧ retrievePiralRoot "/host" "index.html" (world disk)
      = {| outcome := Ok "/host/index.html"; final := world disk; events := [] |}
  ∧ extname (join ["/host"; EmptyString]) ≠ ".html"
  ∧ outcome (retrievePiralRoot "/host" EmptyString (world disk))
      = Ok "/host/src/index.html"
  ∧ outcome (retrievePiralRoot "/bare" EmptyString (world disk))
      = Throw (Error "Invalid Piral instance.")
  ∧ outcome (retrievePiralRoot "/nowhere" EmptyString (world disk))
      = Throw (Error "Invalid Piral instance.").
Proof.
  assert (extname (join ["/host"; "index.html"]) = ".html") as Hhtml
    by (vm_compute; reflexivity).
  assert (extname (join ["/host"; EmptyString]) ≠ ".html") as Hdir
    by (vm_compute; discriminate).
  split; [exact Hhtml |]. split.
  { destruct (host_locator "/host" "index.html" (world disk)) as [Hreturn _].
    exact (Hreturn Hhtml). }
  split; [exact Hdir |]. split.
  { destruct (host_locator "/host" EmptyString (world disk)) as [_ Hmanifest].
    destruct (Hmanifest Hdir) as (_ & _ & _ & Hreturn).
    apply (Hreturn host_package "src/index.html");
      [vm_compute; reflexivity | vm_compute; reflexivity | reflexivity | done]. }
  split; vm_compute; reflexivity.
Defined.

Lemma plain_entry_is_location_witness :
  Forall2 same_entry
    [Plain "readme.md"; template_folder None]
    [Location {| tfl_from := "readme.md"; tfl_to := "readme.md";
                 tfl_deep := Some false |};
     template_folder None]
  ∧ getFileStats "/work" "my-app" [Plain "readme.md"; template_folder None]
      (world disk)
    = getFileStats "/work" "my-app"
        [Location {| tfl_from := "readme.md"; tfl_to := "readme.md";
                     tfl_deep := Some false |};
         template_folder None]
        (world disk)
  ∧ copyPiralFiles "/work" "my-app" [Plain "readme.md"; template_folder None]
      no [] (world disk)
    = copyPiralFiles "/work" "my-app"
        [Location {| tfl_from := "readme.md"; tfl_to := "readme.md";
                     tfl_deep := Some false |};
         template_folder None]
        no [] (world disk).
Proof.
  assert (Forall2 same_entry
            [Plain "readme.md"; template_folder None]
            [Location {| tfl_from := "readme.md"; tfl_to := "readme.md";
                         tfl_deep := Some false |};
             template_folder None]) as Hsame
    by (repeat constructor).
  split; [exact Hsame |].
  destruct (plain_entry_is_location "/work" "my-app" _ _ Hsame)
    as (_ & Hstats & Hcopy).
  split; [apply Hstats | apply Hcopy].
Defined.

Example getFileStats_reports_changes :
  outcome (getFileStats "/work" "my-app" [Plain "readme.md"] (world disk))
    = Ok [readme_changed].
Proof. vm_compute. reflexivity. Qed.

(** After a second run the pilet manifest on disk holds what the first run
    wrote. *)
Example reconciliation_twice_on_disk :
  let first :=
    patchPiletPackage "/work" "my-app" "1.0.0" host_declaring typescript
                      (world disk) in
  let second :=
    patchPiletPackage "/work" "my-app" "1.0.0" host_declaring typescript
                      (final first) in
  outcome first = Ok [] ∧ outcome second = Ok []
  ∧ io_require "/work/package.json" (fs (final second))
    = io_require "/work/package.json" (fs (final first)).
Proof. split; [| split]; vm_compute; reflexivity. Qed.

(** * Further properties of the package module and the loader *)

(** ** Definitions *)

Section Coverage.

Context {path_api : PathApi} {tooling : Tooling} {io : Io}
        {module_system : ModuleSystem}.

(** The baseline tooling table that [patchPiletPackage] reads: the table of
    the language when a language is given and truthy, nothing otherwise. *)
Definition language_baseline (language : option PiletLanguage)
    : Dict string :=
  match language with
  | Some l => if language_truthy l then getDevDependencies l else ∅
  | None => ∅
  end.

(** The warnings of a reconciliation, in the order of
    [Object.keys(pilets.devDependencies)]. *)
Definition reconcile_warnings (piralInfo : PiralInfo) : list Event :=
  Object_keys (devDependencies (getPiletsInfo piralInfo))
    ≫= warning_of (devDependencies (getPiletsInfo piralInfo))
                  (host_union piralInfo).

(** The declaration of a name in [pilets.devDependencies] yields no
    version: an empty literal, or [true] without a non-empty host entry. *)
Definition unresolved_declaration (piralInfo : PiralInfo) (n : string)
    (declared : DevDependency) : Prop :=
  match declared with
  | Literal v => v = EmptyString
  | Sentinel =>
      host_union piralInfo !! n = None
      ∨ host_union piralInfo !! n = Some EmptyString
  end.

(** The three scripts every pilet gets unless the host overrides them. *)
Definition default_scripts : gmap string string :=
  <["upgrade-pilet" := "pilet upgrade"]>
    (<["build-pilet" := "pilet build"]>
       (<["debug-pilet" := "pilet debug"]> ∅)).

(** The record [getFileStats] pushes for a resolved pair. *)
Definition stat_of (w : World) (pair : ResolvedFile) : FileInfo :=
  {| fi_path := targetPath pair;
     fi_hash := io_getHash (targetPath pair) (fs w);
     fi_changed :=
       negb (bool_decide (io_getHash (sourcePath pair) (fs w)
                          = io_getHash (targetPath pair) (fs w))) |}.

(** A call that only asks the file system. *)
Definition is_query (ev : Event) : Prop :=
  match ev with
  | EvCheckIsDirectory _ | EvMatchFiles _ _ | EvGetHash _ => True
  | _ => False
  end.

(** A run that, when it throws, throws the failure of a [copy] that was its
    last call. *)
Definition fails_at_copy {A} (r : Run A) : Prop :=
  ∀ e, outcome r = Throw e →
       e = External "copy"
       ∧ ∃ source target force,
           last (events r) = Some (EvCopy source target force).

(** The URLs passed to [System.import] and the registrations made, in call
    order. *)
Definition imports (evs : list Event) : list string :=
  omap (λ ev, match ev with EvSystemImport url => Some url | _ => None end) evs.

Definition registrations (evs : list Event) : list (string * JsVal) :=
  omap (λ ev, match ev with
              | EvRegisterModule name url => Some (name, url)
              | _ => None
              end) evs.

(** An assumption on the module registry: registering a module does not
    change what [System.has] answers for another name. *)
Definition register_frame : Prop :=
  ∀ name url other r,
    other ≠ name → sys_has other (sys_register name url r) = sys_has other r.

End Coverage.

(** ** The dependency reconciler, layer by layer *)

Section Reconciler.

Context {path_api : PathApi} {tooling : Tooling} {io : Io}
        {module_system : ModuleSystem}.

Lemma or_else_nonempty (a : option string) (b : string) :
  b ≠ EmptyString → or_else a b ≠ EmptyString.
Proof. intros Hb. unfold or_else. destruct a as [[|c s]|]; done. Qed.

(** The whole run of [patchPiletPackage], with the object it writes. *)
Definition patch_run (root : string) (piralInfo : PiralInfo) (content : Patch)
    (w : World) : Run (list FileEntry) :=
  let evs :=
    reconcile_warnings piralInfo
      ++ [EvUpdateExistingJson root "package.json" content] in
  match io_updateExistingJson root "package.json" content (fs w) with
  | Some d' =>
      {| outcome := Ok (files (getPiletsInfo piralInfo));
         final := {| fs := d'; registry := registry w |};
         events := evs |}
  | None =>
      {| outcome := Throw (External "updateExistingJson");
         final := w; events := evs |}
  end.

Lemma patchPiletPackage_run root name version piralInfo language :
  ∃ content,
    (∀ w : World,
       patchPiletPackage root name version piralInfo language w
         = patch_run root piralInfo content w)
    ∧ patch_devDependencies content
        = reconciled_devDependencies name version piralInfo language
    ∧ patch_scripts content
        = scripts (getPiletsInfo piralInfo) ∪ default_scripts
    ∧ ps_version (patch_piral content) = piral_version piralInfo
    ∧ ps_tooling (patch_piral content) = cliVersion.
Proof.
  eexists. split; [| split; [| split; [| split]]].
  - intros w. unfold patchPiletPackage, patch_run, reconcile_warnings.
    erewrite bind_run_ok; last first.
    { unfold reconcile.
      erewrite bind_run_ok; [| apply reduceM_getDependencyVersion].
      cbn [ret outcome final events]. rewrite app_nil_r. reflexivity. }
    lazymatch goal with
    | |- context [updateExistingJson root "package.json" ?c] =>
        instantiate (1 := c)
    end.
    unfold bind, updateExistingJson, update.
    destruct (io_updateExistingJson _ _ _ _); cbn; by rewrite ?app_nil_r.
  - reflexivity.
  - reflexivity.
  - reflexivity.
  - reflexivity.
Qed.

Lemma patch_run_events root piralInfo content (w : World) :
  events (patch_run root piralInfo content w)
    = reconcile_warnings piralInfo
      ++ [EvUpdateExistingJson root "package.json" content].
Proof. unfold patch_run. by destruct (io_updateExistingJson _ _ _ _). Qed.

Lemma reconciled_lookup name version piralInfo language (n : string) :
  reconciled_devDependencies name version piralInfo language !! n
    = if decide (n = "piral-cli") then Some ("^" +:+ cliVersion)
      else if decide (n = name)
      then Some (template (or_opt (Some version) (piral_version piralInfo)))
      else if decide (n ∈ externals (getPiletsInfo piralInfo))
      then Some (or_else (host_dependencies piralInfo !! n) "latest")
      else
        match devDependencies (getPiletsInfo piralInfo) !! n with
        | Some _ =>
            Some (or_else (selected_of (devDependencies (getPiletsInfo piralInfo))
                                       (host_union piralInfo) n) "latest")
        | None =>
            match language_baseline language !! n with
            | Some v => Some (or_else (host_union piralInfo !! n) v)
            | None => None
            end
        end.
Proof.
  unfold reconciled_devDependencies. fold (language_baseline language).
  destruct (decide (n = "piral-cli")) as [->|Hcli].
  { apply lookup_insert_eq. }
  rewrite lookup_insert_ne; [| done].
  destruct (decide (n = name)) as [->|Hname].
  { apply lookup_insert_eq. }
  rewrite lookup_insert_ne; [| done].
  rewrite !lookup_union, !lookup_reduce_insert, !lookup_empty.
  destruct (decide (n ∈ externals (getPiletsInfo piralInfo))) as [Hext|Hext].
  { match goal with |- Some _ ∪ ?rest = _ => by destruct rest end. }
  rewrite (left_id None _).
  destruct (devDependencies (getPiletsInfo piralInfo) !! n) as [d|] eqn:Hd.
  - rewrite decide_True; [| apply elem_of_Object_keys; by exists d].
    match goal with |- Some _ ∪ ?rest = _ => by destruct rest end.
  - rewrite decide_False; last first.
    { rewrite elem_of_Object_keys, Hd. by intros [? ?]. }
    rewrite (left_id None _).
    destruct (language_baseline language !! n) as [v|] eqn:Hv.
    + rewrite decide_True; [| apply elem_of_Object_keys; by exists v].
      by rewrite (lookup_total_correct _ _ _ Hv).
    + rewrite decide_False; [done |].
      rewrite elem_of_Object_keys, Hv. by intros [? ?].
Qed.

Lemma patchPiletPackage_written_run root piralInfo content (w : World) :
  written (events (patch_run root piralInfo content w)) = [content].
Proof.
  rewrite patch_run_events, written_app. unfold reconcile_warnings.
  by rewrite written_warning_of.
Qed.

(** X1. The reconciled [devDependencies] is decided by the first layer, in
    this order, that names the package: [piral-cli] (always
    [^<cliVersion>]), the [name] argument (the given version, or the host's
    when that is empty), the externals (the host's [dependencies] entry or
    ['latest']), the declared [pilets.devDependencies] (the literal, or the
    host's entry for [true], or ['latest']), and the baseline table of the
    language (the host's entry if it has one, the table's version
    otherwise). A package that no layer names is absent; without a
    language, or with a falsy one, the baseline names nothing. *)
Theorem reconciliation_layers root name version piralInfo language (w : World) :
  ∃ content,
    written (events (patchPiletPackage root name version piralInfo language w))
      = [content]
    ∧ ∀ n,
        patch_devDependencies content !! n
          = if decide (n = "piral-cli") then Some ("^" +:+ cliVersion)
            else if decide (n = name)
            then Some (if is_empty version
                       then template (piral_version piralInfo)
                       else version)
            else if decide (n ∈ externals (getPiletsInfo piralInfo))
            then Some (or_else (host_dependencies piralInfo !! n) "latest")
            else
              match devDependencies (getPiletsInfo piralInfo) !! n with
              | Some (Literal v) => Some (or_else (Some v) "latest")
              | Some Sentinel =>
                  Some (or_else (host_union piralInfo !! n) "latest")
              | None =>
                  match language_baseline language !! n with
                  | Some v => Some (or_else (host_union piralInfo !! n) v)
                  | None => None
                  end
              end.
Proof.
  destruct (patchPiletPackage_run root name version piralInfo language)
    as (content & Hrun & Hdev & _).
  exists content. split.
  { rewrite Hrun. apply patchPiletPackage_written_run. }
  intros n. rewrite Hdev, reconciled_lookup.
  repeat case_decide; try done.
  - by destruct version.
  - unfold selected_of.
    by destruct (devDependencies (getPiletsInfo piralInfo) !! n) as [[v|]|].
Qed.

Lemma forced_name_empty version (host_version : option string) :
  template (or_opt (Some version) host_version) = EmptyString
  ↔ version = EmptyString ∧ host_version = Some EmptyString.
Proof.
  unfold or_opt. destruct version as [|c version]; cbn [truthy is_empty negb].
  - destruct host_version as [[|c s]|]; cbn [template]; split;
      try done; by intros [_ [=]].
  - cbn [template]. split; [done | by intros [[=] _]].
Qed.

(** X2. Which specifiers of the written [devDependencies] can be empty.
    The specifier of [piral-cli] never is, also when [piral-cli] is the
    [name] argument; nor is the one of an external or of a declared pilet
    dependency other than the [name] argument. The entry of the [name]
    argument, when that is not [piral-cli], is empty exactly when the
    given version and the host's version are both the empty string, also
    when the name is an external or a declared dependency. When the
    baseline table holds no empty version, no other entry is empty. *)
Theorem reconciled_specifiers_nonempty root name version piralInfo language
    (w : World) :
  ∃ content,
    written (events (patchPiletPackage root name version piralInfo language w))
      = [content]
    ∧ (∀ n v,
         patch_devDependencies content !! n = Some v →
         n = "piral-cli"
         ∨ n ≠ name
           ∧ (n ∈ externals (getPiletsInfo piralInfo)
              ∨ is_Some (devDependencies (getPiletsInfo piralInfo) !! n)) →
         v ≠ EmptyString)
    ∧ (name ≠ "piral-cli" →
       patch_devDependencies content !! name = Some EmptyString
       ↔ version = EmptyString ∧ piral_version piralInfo = Some EmptyString)
    ∧ ((∀ k u, language_baseline language !! k = Some u → u ≠ EmptyString) →
       ∀ n,
         patch_devDependencies content !! n = Some EmptyString →
         n = name ∧ name ≠ "piral-cli" ∧ version = EmptyString
         ∧ piral_version piralInfo = Some EmptyString).
Proof.
  destruct (patchPiletPackage_run root name version piralInfo language)
    as (content & Hrun & Hdev & _).
  exists content. split.
  { rewrite Hrun. apply patchPiletPackage_written_run. }
  rewrite Hdev. split; [| split].
  - intros n v Hlookup Hsource. rewrite reconciled_lookup in Hlookup.
    destruct (decide (n = "piral-cli")) as [->|Hcli].
    { injection Hlookup as <-. done. }
    destruct Hsource as [?|[Hname Hsource]]; [done |].
    rewrite decide_False in Hlookup; [| done].
    destruct (decide (n ∈ externals (getPiletsInfo piralInfo))).
    { injection Hlookup as <-. by apply or_else_nonempty. }
    destruct Hsource as [?|[d Hd]]; [done |].
    rewrite Hd in Hlookup. injection Hlookup as <-.
    by apply or_else_nonempty.
  - intros Hcli. rewrite reconciled_lookup.
    rewrite decide_False; [| done]. rewrite decide_True; [| done].
    rewrite <- forced_name_empty. split; [by intros [= ->] | by intros ->].
  - intros Htable n Hlookup. rewrite reconciled_lookup in Hlookup.
    destruct (decide (n = "piral-cli")) as [->|Hcli].
    { injection Hlookup as Hempty. discriminate Hempty. }
    destruct (decide (n = name)) as [->|Hname].
    { injection Hlookup as Hempty.
      apply forced_name_empty in Hempty as [-> ->]. done. }
    exfalso.
    destruct (decide (n ∈ externals (getPiletsInfo piralInfo))).
    { injection Hlookup as Hempty.
      exact (or_else_nonempty _ "latest" ltac:(done) Hempty). }
    destruct (devDependencies (getPiletsInfo piralInfo) !! n).
    { injection Hlookup as Hempty.
      exact (or_else_nonempty _ "latest" ltac:(done) Hempty). }
    destruct (language_baseline language !! n) as [u|] eqn:Hu; [| done].
    injection Hlookup as Hempty.
    exact (or_else_nonempty _ u (Htable n u Hu) Hempty).
Qed.

(** X3. The written [scripts] holds every script the host declares in
    [pilets.scripts], and the three defaults [debug-pilet], [build-pilet]
    and [upgrade-pilet] where the host declares no script of that name; it
    holds nothing else. *)
Theorem scripts_defaults_overridable root name version piralInfo language
    (w : World) :
  ∃ content,
    written (events (patchPiletPackage root name version piralInfo language w))
      = [content]
    ∧ ∀ k,
        patch_scripts content !! k
          = match scripts (getPiletsInfo piralInfo) !! k with
            | Some command => Some command
            | None =>
                if decide (k = "debug-pilet") then Some "pilet debug"
                else if decide (k = "build-pilet") then Some "pilet build"
                else if decide (k = "upgrade-pilet") then Some "pilet upgrade"
                else None
            end.
Proof.
  destruct (patchPiletPackage_run root name version piralInfo language)
    as (content & Hrun & _ & Hscripts & _).
  exists content. split.
  { rewrite Hrun. apply patchPiletPackage_written_run. }
  intros k. rewrite Hscripts, lookup_union.
  destruct (scripts (getPiletsInfo piralInfo) !! k) as [command|].
  { by destruct (default_scripts !! k). }
  rewrite (left_id None _). unfold default_scripts.
  repeat case_decide; subst; by simplify_map_eq.
Qed.

Lemma warnings_warning_of dd all (l : list string) :
  warnings (l ≫= warning_of dd all)
    = unresolved_message
        <$> filter (λ n, truthy (selected_of dd all n) = false) l.
Proof.
  induction l as [|x l IH]; [done |].
  rewrite bind_cons, warnings_app, IH, filter_cons.
  unfold warning_of at 1.
  destruct (truthy (selected_of dd all x)) eqn:Hx.
  - by rewrite decide_False.
  - by rewrite decide_True.
Qed.

Lemma unresolved_declaration_selected piralInfo n declared :
  devDependencies (getPiletsInfo piralInfo) !! n = Some declared →
  truthy (selected_of (devDependencies (getPiletsInfo piralInfo))
                      (host_union piralInfo) n) = false
  ↔ unresolved_declaration piralInfo n declared.
Proof.
  intros Hn. unfold selected_of, unresolved_declaration. rewrite Hn.
  destruct declared as [v|].
  - destruct v; cbn; split; done.
  - destruct (host_union piralInfo !! n) as [[|c v]|]; cbn; split;
      try done; auto.
    intros [|]; done.
Qed.

(** X4. The warnings of a reconciliation are exactly the messages for the
    declared pilet dependencies that do not resolve, each once: an external
    that falls back to ['latest'] and a baseline package cause no warning,
    and a host without [pilets.devDependencies] causes none at all. *)
Theorem warnings_only_for_declared root name version piralInfo language
    (w : World) :
  let run := patchPiletPackage root name version piralInfo language w in
  (∀ message,
     message ∈ warnings (events run)
     ↔ ∃ n declared,
         devDependencies (getPiletsInfo piralInfo) !! n = Some declared
         ∧ unresolved_declaration piralInfo n declared
         ∧ message = unresolved_message n)
  ∧ NoDup (warnings (events run))
  ∧ (devDependencies (getPiletsInfo piralInfo) = ∅ →
     warnings (events run) = []).
Proof.
  intros run. subst run.
  destruct (patchPiletPackage_run root name version piralInfo language)
    as (content & Hrun & _).
  rewrite Hrun, patch_run_events, warnings_app. unfold reconcile_warnings.
  rewrite warnings_warning_of, app_nil_r.
  split; [| split].
  - intros message. rewrite list_elem_of_fmap. split.
    + intros (n & -> & Hn). apply list_elem_of_filter in Hn as [Hun Hkey].
      apply elem_of_Object_keys in Hkey as [declared Hdeclared].
      exists n, declared. split; [done |]. split; [| done].
      by apply unresolved_declaration_selected.
    + intros (n & declared & Hdeclared & Hun & ->). exists n. split; [done |].
      apply list_elem_of_filter. split.
      * by apply (unresolved_declaration_selected _ _ declared).
      * apply elem_of_Object_keys. by exists declared.
  - apply NoDup_fmap_2.
    + intros a b. apply unresolved_message_inj.
    + apply NoDup_filter, NoDup_Object_keys.
  - intros ->. reflexivity.
Qed.

Lemma copies_warning_of dd all (l : list string) :
  copies (l ≫= warning_of dd all) = [].
Proof.
  induction l as [|x l IH]; [done |].
  rewrite bind_cons, copies_app, IH, app_nil_r.
  unfold warning_of. by destruct (truthy _).
Qed.

(** X5. [patchPiletPackage] calls [updateExistingJson] once, on
    [package.json] in [root], as its last call, and never copies a file.
    When the update succeeds the function returns the host's [pilets.files]
    and leaves the updated file system; when it fails the function throws,
    the world is as before, and the warnings have been logged all the
    same. *)
Theorem patchPiletPackage_outcome root name version piralInfo language
    (w : World) :
  let run := patchPiletPackage root name version piralInfo language w in
  ∃ content,
    written (events run) = [content]
    ∧ last (events run) = Some (EvUpdateExistingJson root "package.json" content)
    ∧ copies (events run) = []
    ∧ match io_updateExistingJson root "package.json" content (fs w) with
      | Some d' =>
          outcome run = Ok (files (getPiletsInfo piralInfo))
          ∧ final run = {| fs := d'; registry := registry w |}
      | None =>
          outcome run = Throw (External "updateExistingJson")
          ∧ final run = w
      end.
Proof.
  intros run. subst run.
  destruct (patchPiletPackage_run root name version piralInfo language)
    as (content & Hrun & _).
  exists content. rewrite Hrun.
  split; [apply patchPiletPackage_written_run |].
  rewrite patch_run_events. split; [apply last_snoc |]. split.
  - rewrite copies_app. unfold reconcile_warnings.
    by rewrite copies_warning_of.
  - unfold patch_run. by destruct (io_updateExistingJson _ _ _ _).
Qed.

End Reconciler.

(** ** The file set resolver: statistics and copies *)

Section FileSet.

Context {path_api : PathApi} {tooling : Tooling} {io : Io}
        {module_system : ModuleSystem} {scheduler : Scheduler}.

Lemma getFilesOf_queries root name file :
  emits_only is_query (getFilesOf root name file).
Proof. by apply getFilesOf_emits_only. Qed.

(** The calls a task of [getFileStats] makes for one entry: those of
    [getFilesOf], then the two hashes of every pair. *)
Definition stats_calls (root name : string) (file : FileEntry) (w : World)
    : list Event :=
  events (getFilesOf root name file w)
    ++ (resolved root name file w
          ≫= λ pair, [EvGetHash (sourcePath pair); EvGetHash (targetPath pair)]).

(** The inner loop of a task: one record per pair, appended. *)
Lemma getFileStats_pairs (pairs : list ResolvedFile) (results : list FileInfo)
    (w : World) :
  reduceM
    (λ results subfile,
       bind (getHash (sourcePath subfile)) (λ sourceHash,
       bind (getHash (targetPath subfile)) (λ targetHash,
       ret (results ++
            [ {| fi_path := targetPath subfile;
                 fi_hash := targetHash;
                 fi_changed :=
                   negb (bool_decide (sourceHash = targetHash)) |} ]))))
    results pairs w
  = {| outcome := Ok (results ++ (stat_of w <$> pairs)); final := w;
       events :=
         pairs ≫= λ pair,
           [EvGetHash (sourcePath pair); EvGetHash (targetPath pair)] |}.
Proof.
  revert results. induction pairs as [|pair pairs IH]; intros results.
  { cbn. by rewrite app_nil_r. }
  cbn [reduceM].
  rewrite (bind_run_ok _ _ w w (results ++ [stat_of w pair])
             [EvGetHash (sourcePath pair); EvGetHash (targetPath pair)]);
    [| reflexivity].
  rewrite IH. cbn [outcome final events].
  by rewrite fmap_cons, <- app_assoc, bind_cons.
Qed.

Lemma stats_task_run root name file (w : World) :
  stats_task root name file w
    = {| outcome := Ok (stat_of w <$> resolved root name file w); final := w;
         events := stats_calls root name file w |}.
Proof.
  unfold stats_task, stats_calls.
  rewrite (bind_run_ok _ _ w w (resolved root name file w)
             (events (getFilesOf root name file w))).
  2:{ rewrite (run_eta (getFilesOf root name file w)) at 1.
      by rewrite getFilesOf_resolved, getFilesOf_final. }
  by rewrite getFileStats_pairs.
Qed.

Lemma run_each_stats root name files (w : World) :
  run_each (stats_task root name <$> files) w
    = (λ file, stats_task root name file w) <$> files.
Proof.
  induction files as [|file files IH]; [done |].
  rewrite !fmap_cons. cbn [run_each]. f_equal.
  by rewrite stats_task_run.
Qed.

Lemma interleave_nil {X} (tasks : list (list X)) :
  Forall (λ task, task = []) tasks → interleave tasks = [].
Proof.
  intros Hnil. apply Permutation_nil_r.
  rewrite interleave_Permutation. by rewrite join_nil_2.
Qed.

Lemma join_fmap_bind {A B} (f : A → list B) (l : list A) :
  mjoin (f <$> l) = l ≫= f.
Proof. induction l as [|x l IH]; [done |]. cbn. by rewrite <- IH. Qed.

(** The run of [getFileStats] under the schedule of the run. *)
Lemma getFileStats_run root name files (w : World) :
  getFileStats root name files w
    = {| outcome :=
           Ok (interleave
                 ((λ file, stat_of w <$> resolved root name file w) <$> files));
         final := w;
         events := interleave ((λ file, stats_calls root name file w) <$> files) |}.
Proof.
  unfold getFileStats. rewrite run_each_stats, <- !list_fmap_compose.
  rewrite (interleave_nil (_ <$> files)); last first.
  { apply Forall_fmap, Forall_forall. intros file _. cbn.
    by rewrite stats_task_run. }
  f_equal.
  - f_equal. f_equal. apply list_fmap_ext. intros i file _. cbn.
    by rewrite stats_task_run.
  - rewrite fmap_last. destruct (last files) as [file|]; [| done].
    cbn. by rewrite stats_task_run.
  - f_equal. apply list_fmap_ext. intros i file _. cbn.
    by rewrite stats_task_run.
Qed.

Lemma stats_calls_queries root name file (w : World) :
  Forall is_query (stats_calls root name file w).
Proof.
  unfold stats_calls. apply Forall_app. split.
  - apply getFilesOf_queries.
  - apply Forall_forall. intros ev Hev.
    apply list_elem_of_bind in Hev as (pair & Hev & _).
    apply elem_of_cons in Hev as [->|Hev]; [done |].
    by apply list_elem_of_singleton in Hev as ->.
Qed.

(** X6. [getFileStats] calls nothing but [checkIsDirectory], [matchFiles]
    and [getHash] and leaves the world as it found it. Whatever the
    schedule of the tasks, it returns exactly one record for every pair
    that the entries of the list resolve to: the records are those pairs'
    records up to their order, and the records of one entry keep the
    order of its pairs. A record holds the target path, the hash of the
    target, and [changed] exactly when the hashes of source and target
    differ. *)
Theorem getFileStats_reads_only root name files (w : World) :
  let run := getFileStats root name files w in
  let record pair :=
    {| fi_path := targetPath pair;
       fi_hash := io_getHash (targetPath pair) (fs w);
       fi_changed :=
         negb (bool_decide (io_getHash (sourcePath pair) (fs w)
                            = io_getHash (targetPath pair) (fs w))) |} in
  ∃ stats,
    outcome run = Ok stats
    ∧ stats ≡ₚ (files ≫= λ file, record <$> resolved root name file w)
    ∧ (∀ file, file ∈ files →
         (record <$> resolved root name file w) `sublist_of` stats)
    ∧ final run = w
    ∧ (∀ ev, ev ∈ events run → is_query ev)
    ∧ events run ≡ₚ (files ≫= λ file, stats_calls root name file w)
    ∧ copies (events run) = []
    ∧ written (events run) = [].
Proof.
  intros run record. subst run. rewrite getFileStats_run.
  cbn [outcome final events]. eexists. split; [reflexivity |].
  assert (Forall is_query
            (interleave ((λ file, stats_calls root name file w) <$> files)))
    as Hqueries.
  { rewrite interleave_Permutation. apply Forall_join, Forall_fmap, Forall_forall.
    intros file _. apply stats_calls_queries. }
  split; [by rewrite interleave_Permutation, join_fmap_bind |].
  split.
  { intros file Hfile. apply interleave_sublist.
    apply list_elem_of_fmap. by exists file. }
  split; [done |]. split; [by apply Forall_forall |].
  split; [by rewrite interleave_Permutation, join_fmap_bind |].
  induction Hqueries as [|ev evs Hev _ IH]; [done |].
  destruct IH as [IHc IHw]. by destruct ev.
Qed.

(** X7. Up to the order of the records, the statistics of a concatenated
    file list are the statistics of its parts; an empty list gives no
    record. *)
Theorem getFileStats_app root name (files1 files2 : list FileEntry)
    (w : World) :
  ∃ stats1 stats2 stats,
    outcome (getFileStats root name files1 w) = Ok stats1
    ∧ outcome (getFileStats root name files2 w) = Ok stats2
    ∧ outcome (getFileStats root name (files1 ++ files2) w) = Ok stats
    ∧ stats ≡ₚ stats1 ++ stats2
    ∧ outcome (getFileStats root name [] w) = Ok [].
Proof.
  rewrite !getFileStats_run. cbn [outcome].
  eexists _, _, _. split; [reflexivity |]. split; [reflexivity |].
  split; [reflexivity |]. split.
  - rewrite !interleave_Permutation, fmap_app. by rewrite join_app.
  - by rewrite interleave_nil.
Qed.

Lemma recorded_unchanged_Permutation (stats stats' : list FileInfo)
    (target : string) :
  stats ≡ₚ stats' →
  recorded_unchanged stats target ↔ recorded_unchanged stats' target.
Proof.
  intros Hperm. unfold recorded_unchanged.
  split; intros (m & Hm & Hrest); exists m; split; try done.
  - by rewrite <- Hperm.
  - by rewrite Hperm.
Qed.

Lemma recorded_unchanged_stats root name files (w : World) (target : string) :
  recorded_unchanged
    (files ≫= λ file, stat_of w <$> resolved root name file w) target
  ↔ ∃ file pair,
      file ∈ files ∧ pair ∈ resolved root name file w
      ∧ targetPath pair = target
      ∧ io_getHash (sourcePath pair) (fs w) = io_getHash target (fs w).
Proof.
  unfold recorded_unchanged. split.
  - intros (m & Hm & Hpath & Hchanged).
    apply list_elem_of_bind in Hm as (file & Hm & Hfile).
    apply list_elem_of_fmap in Hm as (pair & -> & Hpair).
    exists file, pair. cbn in Hpath, Hchanged. subst target.
    split; [done |]. split; [done |]. split; [done |].
    apply negb_false_iff in Hchanged. by apply bool_decide_eq_true in Hchanged.
  - intros (file & pair & Hfile & Hpair & <- & Hhash).
    exists (stat_of w pair). split; [| split; [done |]].
    + apply list_elem_of_bind. exists file. split; [| done].
      apply list_elem_of_fmap. by exists pair.
    + cbn. apply negb_false_iff. by apply bool_decide_eq_true.
Qed.

(** X8. Statistics taken by [getFileStats] and handed to [copyPiralFiles]:
    a copy is forced exactly when, at the time of the statistics, some
    resolved pair with that target had a source and a target of equal hash;
    a target that differed from every source resolved to it is copied with
    the caller's policy. *)
Theorem stats_then_copy root name files (w : World) :
  ∃ stats,
    outcome (getFileStats root name files w) = Ok stats
    ∧ ∀ files' forceOverwrite (w' : World) source target force,
        (source, target, force)
          ∈ copies (events (copyPiralFiles root name files' forceOverwrite
                              stats w')) →
        let identical :=
          ∃ file pair,
            file ∈ files ∧ pair ∈ resolved root name file w
            ∧ targetPath pair = target
            ∧ io_getHash (sourcePath pair) (fs w) = io_getHash target (fs w) in
        (identical → force = ForceOverwrite_yes)
        ∧ (¬ identical → force = forceOverwrite).
Proof.
  rewrite getFileStats_run. cbn [outcome].
  eexists. split; [reflexivity |].
  intros files' forceOverwrite w' source target force Hin.
  apply list_elem_of_omap in Hin as (ev & Hev & Hcopy).
  set (stats := interleave
                  ((λ file, stat_of w <$> resolved root name file w) <$> files))
    in *.
  assert (recorded_unchanged stats target
          ↔ ∃ file pair,
              file ∈ files ∧ pair ∈ resolved root name file w
              ∧ targetPath pair = target
              ∧ io_getHash (sourcePath pair) (fs w) = io_getHash target (fs w))
    as Hrecorded.
  { rewrite <- recorded_unchanged_stats.
    apply recorded_unchanged_Permutation. subst stats.
    by rewrite interleave_Permutation, join_fmap_bind. }
  pose proof (copyPiralFiles_policy root name files' forceOverwrite stats w')
    as Hall.
  rewrite Forall_forall in Hall. specialize (Hall ev Hev).
  destruct ev; try discriminate. injection Hcopy as -> -> ->.
  destruct Hall as [Hyes Hno]. split.
  - intros Hid. apply Hyes. by apply Hrecorded.
  - intros Hid. apply Hno. by rewrite Hrecorded.
Qed.

Lemma fails_at_copy_bind {A B} (m : M A) (k : A → M B) (w : World) :
  fails_at_copy (m w) → (∀ a w', fails_at_copy (k a w')) →
  fails_at_copy (bind m k w).
Proof.
  intros Hm Hk e. unfold bind.
  destruct (outcome (m w)) as [a|e'] eqn:Hout; cbn.
  - intros Hthrow. destruct (Hk a (final (m w)) e Hthrow)
      as (-> & source & target & force & Hlast).
    split; [done |]. exists source, target, force.
    apply last_app_Some. by left.
  - intros [= <-]. by apply Hm.
Qed.

Lemma fails_at_copy_for_of {A} (l : list A) (body : A → M unit) :
  (∀ x w, fails_at_copy (body x w)) → ∀ w, fails_at_copy (for_of l body w).
Proof.
  intros Hbody. induction l as [|x l IH]; intros w.
  - by intros e.
  - cbn [for_of]. apply fails_at_copy_bind; [apply Hbody | done].
Qed.

(** X9. [copyPiralFiles] fails only through a copy that fails: the error
    is the one of [copy], that copy is the last call made, and no later
    pair is resolved or copied. *)
Theorem copy_failure_aborts root name files forceOverwrite originalFiles
    (w : World) :
  let run := copyPiralFiles root name files forceOverwrite originalFiles w in
  ∀ e, outcome run = Throw e →
       e = External "copy"
       ∧ ∃ source target force,
           last (events run) = Some (EvCopy source target force)
           ∧ (source, target, force) ∈ copies (events run).
Proof.
  intros run e Hthrow. subst run.
  assert (fails_at_copy
            (copyPiralFiles root name files forceOverwrite originalFiles w))
    as Hfails.
  { unfold copyPiralFiles. apply fails_at_copy_for_of. intros file w'.
    apply fails_at_copy_bind.
    - intros e'. by rewrite getFilesOf_resolved.
    - intros subfiles w''. apply fails_at_copy_for_of. intros subfile w3 e'.
      unfold copy, update.
      destruct (io_copy _ _ _ _); cbn; [done |].
      intros [= <-]. split; [done |]. by eexists _, _, _. }
  destruct (Hfails e Hthrow) as (-> & source & target & force & Hlast).
  split; [done |]. exists source, target, force. split; [done |].
  apply list_elem_of_omap. exists (EvCopy source target force).
  split; [| done]. by apply last_Some_elem_of.
Qed.

(** X10. Copying a concatenated file list is copying the first part and
    then, in the world that left and unless it failed, the second part; an
    empty list calls nothing and changes nothing. *)
Theorem copyPiralFiles_app root name (files1 files2 : list FileEntry)
    forceOverwrite originalFiles (w : World) :
  let first := copyPiralFiles root name files1 forceOverwrite originalFiles w in
  let second :=
    copyPiralFiles root name files2 forceOverwrite originalFiles (final first) in
  copyPiralFiles root name (files1 ++ files2) forceOverwrite originalFiles w
    = match outcome first with
      | Ok _ =>
          {| outcome := outcome second; final := final second;
             events := events first ++ events second |}
      | Throw e =>
          {| outcome := Throw e; final := final first;
             events := events first |}
      end
  ∧ copyPiralFiles root name [] forceOverwrite originalFiles w
    = {| outcome := Ok tt; final := w; events := [] |}.
Proof.
  intros first second. subst first second. split; [| done].
  unfold copyPiralFiles. by rewrite for_of_app.
Qed.

End FileSet.

(** ** The module loader: what it registers and what it imports *)

Section Loader.

Context {path_api : PathApi} {tooling : Tooling} {io : Io}
        {module_system : ModuleSystem}.

Lemma imports_app (evs1 evs2 : list Event) :
  imports (evs1 ++ evs2) = imports evs1 ++ imports evs2.
Proof. apply omap_app. Qed.

Lemma registrations_app (evs1 evs2 : list Event) :
  registrations (evs1 ++ evs2) = registrations evs1 ++ registrations evs2.
Proof. apply omap_app. Qed.

(** The registration loop over a list of dependency names. *)
Definition register_loop (deps : Dict JsVal) (names : list string)
    : M unit :=
  for_of names (λ depName,
    bind (System_has depName) (λ known,
      if negb known then
        registerModule depName (default JUndefined (deps !! depName))
      else ret tt)).

Lemma register_loop_cons deps n names (w : World) :
  register_loop deps (n :: names) w
    = if sys_has n (registry w)
      then
        let rest := register_loop deps names w in
        {| outcome := outcome rest; final := final rest;
           events := EvSystemHas n :: events rest |}
      else
        let w' := {| fs := fs w;
                     registry := sys_register n (default JUndefined (deps !! n))
                                              (registry w) |} in
        let rest := register_loop deps names w' in
        {| outcome := outcome rest; final := final rest;
           events := EvSystemHas n
                       :: EvRegisterModule n (default JUndefined (deps !! n))
                       :: events rest |}.
Proof.
  unfold register_loop. cbn [for_of].
  unfold bind, System_has, registerModule, ret. cbn.
  destruct (sys_has n (registry w)); cbn; reflexivity.
Qed.

Lemma register_loop_trace deps names (w : World) :
  outcome (register_loop deps names w) = Ok tt
  ∧ fs (final (register_loop deps names w)) = fs w
  ∧ imports (events (register_loop deps names w)) = []
  ∧ (registrations (events (register_loop deps names w))).*1 `sublist_of` names
  ∧ ∀ n url,
      (n, url) ∈ registrations (events (register_loop deps names w)) →
      url = default JUndefined (deps !! n).
Proof.
  revert w. induction names as [|n names IH]; intros w.
  { repeat split; try done. intros n url Hin. by apply elem_of_nil in Hin. }
  rewrite register_loop_cons.
  destruct (sys_has n (registry w)).
  - destruct (IH w) as (Hout & Hfs & Himp & Hsub & Hurl).
    cbn. repeat split; try done. by apply sublist_cons.
  - set (w' := {| fs := fs w; registry := _ |}).
    destruct (IH w') as (Hout & Hfs & Himp & Hsub & Hurl).
    cbn. split; [done |]. split; [done |]. split; [done |]. split.
    + by apply sublist_skip.
    + intros m url [[= -> ->]|Hin]%elem_of_cons; [done | by apply Hurl].
Qed.


Lemma filter_ext_elem {A} (P1 P2 : A → Prop)
    `{!∀ x, Decision (P1 x), !∀ x, Decision (P2 x)} (l : list A) :
  (∀ x, x ∈ l → (P1 x ↔ P2 x)) → filter P1 l = filter P2 l.
Proof.
  induction l as [|a l IH]; intros Hiff; [done |].
  rewrite !filter_cons, IH; last first.
  { intros x Hx. apply Hiff. by right. }
  destruct (decide (P1 a)) as [H1|H1], (decide (P2 a)) as [H2|H2]; try done.
  - exfalso. apply H2, Hiff; [by left | done].
  - exfalso. apply H1, Hiff; [by left | done].
Qed.

Lemma register_loop_unknown deps names (w : World) :
  register_frame → NoDup names →
  (registrations (events (register_loop deps names w))).*1
    = filter (λ n, sys_has n (registry w) = false) names.
Proof.
  intros Hframe Hnd. revert w.
  induction Hnd as [|n names Hn Hnd IH]; intros w; [done |].
  rewrite register_loop_cons, filter_cons.
  destruct (sys_has n (registry w)) eqn:Hhas; cbv zeta; cbn [events].
  - rewrite decide_False; [| done].
    change (registrations (EvSystemHas n :: ?l)) with (registrations l).
    apply IH.
  - rewrite decide_True; [| done].
    change (registrations (EvSystemHas n :: EvRegisterModule n ?u :: ?l))
      with ((n, u) :: registrations l).
    rewrite fmap_cons. cbn [fst]. f_equal. rewrite IH. cbn [registry].
    apply filter_ext_elem. intros m Hm.
    rewrite Hframe; [done |]. by intros ->.
Qed.

Lemma registerDependencies_loop meta (w : World) :
  registerDependencies meta w
    = match meta !! "dependencies" with
      | Some (JObj deps) => register_loop deps (Object_keys deps) w
      | _ => {| outcome := Ok tt; final := w; events := [] |}
      end.
Proof.
  unfold registerDependencies.
  by destruct (meta !! "dependencies") as [[| | | | | |deps]|].
Qed.

(** The run of [loader] after the registration of the dependencies. *)
Lemma loader_run meta config (w : World) :
  let link := setBasePath meta (default JUndefined (meta !! "link")) in
  let prepared := registerDependencies meta w in
  let '(r, reg) := sys_import link (registry (final prepared)) in
  events (loader meta config w)
    = events prepared
      ++ EvSystemImport link
         :: match r with
            | Ok _ => []
            | Throw error =>
                [EvConsoleError "Failed to load SystemJS module" link error]
            end
  ∧ final (loader meta config w)
    = {| fs := fs (final prepared); registry := reg |}.
Proof.
  intros link prepared. subst prepared.
  destruct (sys_import link (registry (final (registerDependencies meta w))))
    as [r reg] eqn:Himport.
  unfold loader. fold link.
  pose proof (registerDependencies_ok meta w) as Hreg.
  rewrite (bind_run_ok _ _ w (final (registerDependencies meta w)) tt
             (events (registerDependencies meta w)));
    [| rewrite (run_eta (registerDependencies meta w)) at 1; by rewrite Hreg].
  unfold bind, loadSystemModule, System_import. rewrite Himport.
  destruct r as [app|error]; cbn; by rewrite ?app_nil_r.
Qed.


(** X11. [loader] imports exactly one URL, the pilet's link: the URLs of
    the declared dependencies are registered, never imported. It registers
    only names declared under [dependencies], each at most once and with
    its declared URL, registers nothing when the metadata declares no
    dependencies, and never touches the file system. *)
Theorem loader_registers_not_imports meta config (w : World) :
  let link := setBasePath meta (default JUndefined (meta !! "link")) in
  let run := loader meta config w in
  imports (events run) = [link]
  ∧ fs (final run) = fs w
  ∧ NoDup (registrations (events run)).*1
  ∧ (∀ n url,
       (n, url) ∈ registrations (events run) →
       ∃ deps, meta !! "dependencies" = Some (JObj deps)
               ∧ deps !! n = Some url)
  ∧ (meta !! "dependencies" = None → registrations (events run) = []).
Proof.
  intros link run. subst run.
  pose proof (loader_run meta config w) as Hrun. cbv zeta in Hrun.
  fold link in Hrun.
  destruct (sys_import link _) as [r reg]. destruct Hrun as [Hev Hfinal].
  rewrite Hev, Hfinal, imports_app, registrations_app.
  assert (registrations
            (EvSystemImport link
               :: match r with
                  | Ok _ => []
                  | Throw error =>
                      [EvConsoleError "Failed to load SystemJS module" link error]
                  end) = []) as -> by (by destruct r).
  assert (imports
            (EvSystemImport link
               :: match r with
                  | Ok _ => []
                  | Throw error =>
                      [EvConsoleError "Failed to load SystemJS module" link error]
                  end) = [link]) as -> by (by destruct r).
  rewrite app_nil_r, registerDependencies_loop. cbn [fs].
  destruct (meta !! "dependencies") as [v|] eqn:Hdeps; [destruct v as [| | | | | |deps] |];
    try (split; [done |]; split; [done |]; split; [constructor |];
         split; [intros dep url Hin; by apply elem_of_nil in Hin | done]).
  destruct (register_loop_trace deps (Object_keys deps) w)
    as (_ & Hfs & Himp & Hsub & Hurl).
  rewrite Himp. split; [done |]. split; [done |]. split; [| split; [| done]].
  - apply (sublist_NoDup _ _ (NoDup_Object_keys deps) Hsub).
  - intros n url Hin. exists deps. split; [done |].
    rewrite (Hurl n url Hin).
    assert (n ∈ Object_keys deps) as Hkey.
    { eapply elem_of_sublist; [| exact Hsub].
      apply list_elem_of_fmap. by exists (n, url). }
    apply elem_of_Object_keys in Hkey as [v ->]. done.
Qed.


(** X13. When registering a module does not change what the registry
    answers for other names, [loader] registers exactly the declared
    dependencies that the registry did not know when the call began, in the
    order of [Object.keys]. *)
Theorem loader_registers_unknown meta config deps (w : World) :
  register_frame →
  meta !! "dependencies" = Some (JObj deps) →
  (registrations (events (loader meta config w))).*1
    = filter (λ n, sys_has n (registry w) = false) (Object_keys deps).
Proof.
  intros Hframe Hdeps.
  pose proof (loader_run meta config w) as Hrun. cbv zeta in Hrun.
  destruct (sys_import _ _) as [r reg]. destruct Hrun as [-> _].
  rewrite registrations_app, fmap_app.
  match goal with
  | |- _ ++ (registrations ?tail).*1 = _ =>
      assert (registrations tail = []) as -> by (by destruct r)
  end.
  rewrite app_nil_r, registerDependencies_loop, Hdeps.
  apply register_loop_unknown; [done | apply NoDup_Object_keys].
Qed.

End Loader.

(** * Looking up manifests and packages

    [retrievePiletsInfo], [findRoot], [findPackage] and [retrievePiletData]
    call two more collaborators, [findFile] of [io] and Node's
    [require.resolve], and [findPackage] assigns to the manifest object that
    [require] returned. Their computations emit these calls next to the
    events of the other functions. *)

(** A pilet manifest as [retrievePiletData] reads it: the manifest and its
    [dependencies] block. *)
Record PiletManifest := {
  pm_package : PackageJson;
  pm_dependencies : option (gmap string string);
}.

(** What [retrievePiletsInfo] returns: the normalised [pilets] block spread
    next to [name], [version] and [root]. *)
Record HostInfo := {
  hi_info : PiletsInfo;
  hi_name : option string;
  hi_version : option string;
  hi_root : string;
}.

(** What [retrievePiletData] returns. *)
Record PiletData := {
  pd_coreFile : string;
  pd_dependencies : gmap string string;
  pd_devDependencies : Dict string;
  pd_peerDependencies : gmap string string;
  pd_appFile : string;
  pd_appPackage : PackageJson;
  pd_root : string;
}.

(** [findFile(start, name)] answers a path or [undefined];
    [require.resolve(request, { paths: [baseDir] })] answers a path or
    throws; [require] is read at the type of a host manifest and of a pilet
    manifest; [io_setApp] is the assignment [appPackage.app = ...] to the
    object in the module cache. *)
Class Lookup `{Io} := {
  io_findFile : string → string → FS → option string;
  io_resolve : string → string → FS → option string;
  io_requireHost : string → FS → option PiralInfo;
  io_requirePilet : string → FS → option PiletManifest;
  io_setApp : string → option string → FS → FS;
}.

Section Lookups.

Context {path_api : PathApi} {tooling : Tooling} {io : Io}
        {module_system : ModuleSystem} {lookup : Lookup}.

Inductive LookupEvent :=
  | Base (ev : Event)
  | EvFindFile (start file : string)
  | EvResolve (request baseDir : string)
  | EvSetApp (path : string) (app : option string).

Record Run2 (A : Type) := {
  outcome2 : result A;
  final2 : World;
  events2 : list LookupEvent;
}.
Arguments outcome2 {A} _.
Arguments final2 {A} _.
Arguments events2 {A} _.

Definition M2 (A : Type) : Type := World → Run2 A.

Definition ret2 {A} (a : A) : M2 A :=
  λ w, {| outcome2 := Ok a; final2 := w; events2 := [] |}.

Definition bind2 {A B} (m : M2 A) (k : A → M2 B) : M2 B :=
  λ w,
    let r := m w in
    match outcome2 r with
    | Ok a =>
        let r' := k a (final2 r) in
        {| outcome2 := outcome2 r'; final2 := final2 r';
           events2 := events2 r ++ events2 r' |}
    | Throw e =>
        {| outcome2 := Throw e; final2 := final2 r; events2 := events2 r |}
    end.

Definition throw2 {A} (e : exn) : M2 A :=
  λ w, {| outcome2 := Throw e; final2 := w; events2 := [] |}.

(** [try { body } catch (ex) { handler }] *)
Definition catch2 {A} (body : M2 A) (handler : exn → M2 A) : M2 A :=
  λ w,
    let r := body w in
    match outcome2 r with
    | Ok a => r
    | Throw e =>
        let r' := handler e (final2 r) in
        {| outcome2 := outcome2 r'; final2 := final2 r';
           events2 := events2 r ++ events2 r' |}
    end.

(** A computation of the other functions, run here. *)
Definition lift {A} (m : M A) : M2 A :=
  λ w,
    let r := m w in
    {| outcome2 := outcome r; final2 := final r; events2 := Base <$> events r |}.

#[local] Notation "x <- c1 ;; c2" := (bind2 c1 (λ x, c2))
  (at level 20, c1 at level 99, c2 at level 200, only parsing).
#[local] Notation "c1 ;; c2" := (bind2 c1 (λ _, c2))
  (at level 100, c2 at level 200, only parsing, right associativity).

Definition findFile (start file : string) : M2 (option string) :=
  λ w, {| outcome2 := Ok (io_findFile start file (fs w)); final2 := w;
          events2 := [EvFindFile start file] |}.

Definition require_resolve (request baseDir : string) : M2 string :=
  λ w,
    match io_resolve request baseDir (fs w) with
    | Some p => {| outcome2 := Ok p; final2 := w;
                   events2 := [EvResolve request baseDir] |}
    | None => {| outcome2 := Throw (External "require.resolve"); final2 := w;
                 events2 := [EvResolve request baseDir] |}
    end.

Definition requireHost (p : string) : M2 PiralInfo :=
  λ w,
    match io_requireHost p (fs w) with
    | Some info => {| outcome2 := Ok info; final2 := w;
                      events2 := [Base (EvRequire p)] |}
    | None => {| outcome2 := Throw (External "require"); final2 := w;
                 events2 := [Base (EvRequire p)] |}
    end.

Definition requirePilet (p : string) : M2 PiletManifest :=
  λ w,
    match io_requirePilet p (fs w) with
    | Some m => {| outcome2 := Ok m; final2 := w;
                   events2 := [Base (EvRequire p)] |}
    | None => {| outcome2 := Throw (External "require"); final2 := w;
                 events2 := [Base (EvRequire p)] |}
    end.

Definition setApp (p : string) (app : option string) : M2 unit :=
  λ w, {| outcome2 := Ok tt;
          final2 := {| fs := io_setApp p app (fs w); registry := registry w |};
          events2 := [EvSetApp p app] |}.

Definition with_app (pkg : PackageJson) (app : option string) : PackageJson :=
  {| pkg_app := app; pkg_piral := pkg_piral pkg;
     pkg_devDependencies := pkg_devDependencies pkg;
     pkg_peerDependencies := pkg_peerDependencies pkg;
     pkg_scripts := pkg_scripts pkg; pkg_rest := pkg_rest pkg |}.

Definition findRoot (pck baseDir : string) : M2 (option string) :=
  catch2 (p <- require_resolve pck baseDir ;; ret2 (Some p))
         (λ _, ret2 None).

(** [findPackage] on a single package name. *)
Definition findPackage_name (pck baseDir : string) : M2 (option PackageJson) :=
  catch2
    (p <- require_resolve (pck +:+ "/package.json") baseDir ;;
     appPackage <- lift (require p) ;;
     let relPath := pkg_app appPackage in
     let app := if truthy relPath
                then Some (resolve [dirname p; template relPath])
                else relPath in
     setApp p app ;;
     ret2 (Some (with_app appPackage app)))
    (λ _, ret2 None).

(** [findPackage] on an array of names: the first result that is an
    object ends the loop. *)
Fixpoint findPackage_names (pck : list string) (baseDir : string)
    : M2 (option PackageJson) :=
  match pck with
  | [] => ret2 None
  | item :: rest =>
      result <- findPackage_name item baseDir ;;
      match result with
      | Some found => ret2 (Some found)
      | None => findPackage_names rest baseDir
      end
  end.

Definition findPackage (pck : string + list string) (baseDir : string)
    : M2 (option PackageJson) :=
  match pck with
  | inr names => findPackage_names names baseDir
  | inl name => findPackage_name name baseDir
  end.

Definition retrievePiletsInfo (entryFile : string) : M2 HostInfo :=
  exists_ <- lift (checkExists entryFile) ;;
  (if negb exists_ then
     lift (logFail ("The given entry pointing to " +:+ dq +:+ "%s" +:+ dq
                      +:+ " does not exist.") [entryFile]) ;;
     throw2 (Error "Invalid Piral instance.")
   else ret2 tt) ;;
  packageJson <- findFile entryFile "package.json" ;;
  (if negb (truthy packageJson) then
     lift (logFail "Cannot find any package.json. You need a valid package.json for your Piral instance." []) ;;
     throw2 (Error "Invalid Piral instance.")
   else ret2 tt) ;;
  packageInfo <- requireHost (template packageJson) ;;
  ret2 {| hi_info := getPiletsInfo packageInfo;
          hi_name := piral_name packageInfo;
          hi_version := piral_version packageInfo;
          hi_root := dirname (template packageJson) |}.

(** The first argument of the call of [findPackage] in [retrievePiletData],
    [app || (piral && piral.name) || Object.keys(devDependencies)];
    [Object.keys] throws on [undefined]. A [piral] section carries a
    [name], as the one [patchPiletPackage] writes; a section without one
    is read here as a section with an empty name, which is as falsy. *)
Definition host_candidates (app : option string) (package : PackageJson)
    : result (string + list string) :=
  let piralName := ps_name <$> pkg_piral package in
  if truthy app then Ok (inl (template app))
  else if truthy piralName then Ok (inl (template piralName))
  else match pkg_devDependencies package with
       | Some devDependencies => Ok (inr (Object_keys devDependencies))
       | None => Throw (External "TypeError")
       end.

Definition of_result {A} (r : result A) : M2 A :=
  λ w, {| outcome2 := r; final2 := w; events2 := [] |}.

Definition retrievePiletData (target : string) (app : option string)
    : M2 PiletData :=
  packageJson <- findFile target "package.json" ;;
  (if negb (truthy packageJson) then
     lift (logFail ("Cannot find the " +:+ dq +:+ "%s" +:+ dq
                      +:+ ". You need a valid package.json for your pilet.")
                   ["package.json"]) ;;
     throw2 (Error "Invalid pilet.")
   else ret2 tt) ;;
  let root := dirname (template packageJson) in
  packageContent <- requirePilet (template packageJson) ;;
  let package := pm_package packageContent in
  candidates <- of_result (host_candidates app package) ;;
  appPackage <- findPackage candidates target ;;
  let appFile := appPackage ≫= pkg_app in
  (if negb (truthy appFile) then
     lift (logFail ("Cannot find the Piral instance. Make sure the "
                      +:+ dq +:+ "%s" +:+ dq
                      +:+ " of the Piral instance is valid (has an "
                      +:+ dq +:+ "%s" +:+ dq +:+ " field).")
                   ["package.json"; "app"]) ;;
     throw2 (Error "Invalid Piral instance selected.")
   else ret2 tt) ;;
  coreFile <- findRoot "piral-core" (template appFile) ;;
  (if negb (truthy coreFile) then
     lift (logFail ("Cannot find the package " +:+ dq +:+ "%s" +:+ dq
                      +:+ ". Make sure your dependencies are correctly resolved.")
                   ["piral-core"]) ;;
     throw2 (Error "Invalid dependency structure.")
   else ret2 tt) ;;
  ret2 {| pd_coreFile := template coreFile;
          pd_dependencies := default ∅ (pm_dependencies packageContent);
          pd_devDependencies := default ∅ (pkg_devDependencies package);
          pd_peerDependencies := default ∅ (pkg_peerDependencies package);
          pd_appFile := template appFile;
          (* [appPackage] is an object here: its [app] is truthy *)
          pd_appPackage := default package appPackage;
          pd_root := root |}.

End Lookups.

Arguments outcome2 {_ _ _} _.
Arguments final2 {_ _ _} _.
Arguments events2 {_ _ _} _.

Section Finding.

Context {path_api : PathApi} {tooling : Tooling} {io : Io}
        {module_system : ModuleSystem} {lookup : Lookup}.

(** ** Observations on a lookup *)

(** The requests passed to [require.resolve], with their base directory,
    in call order. *)
Definition resolutions (evs : list LookupEvent) : list (string * string) :=
  omap (λ ev, match ev with
              | EvResolve request baseDir => Some (request, baseDir)
              | _ => None
              end) evs.

(** The assignments to the [app] field of a cached manifest. *)
Definition cache_writes (evs : list LookupEvent)
    : list (string * option string) :=
  omap (λ ev, match ev with EvSetApp p app => Some (p, app) | _ => None end) evs.

(** The messages passed to [logFail], in call order. *)
Definition failures (evs : list LookupEvent) : list string :=
  omap (λ ev, match ev with Base (EvFail message _) => Some message | _ => None end)
       evs.


(** The manifest of the package [name] as seen from [baseDir]: where
    [require.resolve] finds it and what [require] reads there. *)
Definition probe (baseDir name : string) (w : World)
    : option (string * PackageJson) :=
  match io_resolve (name +:+ "/package.json") baseDir (fs w) with
  | Some p =>
      match io_require p (fs w) with
      | Some pkg => Some (p, pkg)
      | None => None
      end
  | None => None
  end.

(** The [app] field after [findPackage]: an entry that is set and not empty
    is resolved against the manifest's directory. *)
Definition located_app (p : string) (pkg : PackageJson) : option string :=
  match pkg_app pkg with
  | Some app => if is_empty app then Some app else Some (resolve [dirname p; app])
  | None => None
  end.

Lemma bind2_run_ok {A B} (m : M2 A) (k : A → M2 B) (w w' : World) (a : A)
    (evs : list LookupEvent) :
  m w = {| outcome2 := Ok a; final2 := w'; events2 := evs |} →
  bind2 m k w
    = {| outcome2 := outcome2 (k a w'); final2 := final2 (k a w');
         events2 := evs ++ events2 (k a w') |}.
Proof. intros Hm. unfold bind2. by rewrite Hm. Qed.

Lemma bind2_run_throw {A B} (m : M2 A) (k : A → M2 B) (w w' : World) (e : exn)
    (evs : list LookupEvent) :
  m w = {| outcome2 := Throw e; final2 := w'; events2 := evs |} →
  bind2 m k w = {| outcome2 := Throw e; final2 := w'; events2 := evs |}.
Proof. intros Hm. unfold bind2. by rewrite Hm. Qed.

Lemma run2_eta {A} (r : Run2 A) :
  r = {| outcome2 := outcome2 r; final2 := final2 r; events2 := events2 r |}.
Proof. by destruct r. Qed.

Lemma world_eta (w : World) : {| fs := fs w; registry := registry w |} = w.
Proof. by destruct w. Qed.

Lemma findRoot_run pck baseDir (w : World) :
  findRoot pck baseDir w
    = {| outcome2 := Ok (io_resolve pck baseDir (fs w)); final2 := w;
         events2 := [EvResolve pck baseDir] |}.
Proof.
  unfold findRoot, catch2, bind2, require_resolve, ret2.
  by destruct (io_resolve pck baseDir (fs w)).
Qed.

Lemma findPackage_name_hit baseDir name (w : World) p pkg :
  probe baseDir name w = Some (p, pkg) →
  findPackage_name name baseDir w
    = {| outcome2 := Ok (Some (with_app pkg (located_app p pkg)));
         final2 := {| fs := io_setApp p (located_app p pkg) (fs w);
                      registry := registry w |};
         events2 := [EvResolve (name +:+ "/package.json") baseDir;
                     Base (EvRequire p); EvSetApp p (located_app p pkg)] |}.
Proof.
  unfold probe. intros Hprobe.
  destruct (io_resolve _ baseDir (fs w)) as [p'|] eqn:Hresolve; [| discriminate Hprobe].
  destruct (io_require p' (fs w)) as [pkg'|] eqn:Hrequire; [| discriminate Hprobe].
  injection Hprobe as -> ->.
  unfold findPackage_name, catch2.
  rewrite (bind2_run_ok _ _ w w p [EvResolve (name +:+ "/package.json") baseDir]).
  2:{ unfold require_resolve. rewrite Hresolve. reflexivity. }
  rewrite (bind2_run_ok _ _ w w pkg [Base (EvRequire p)]).
  2:{ unfold lift, require. rewrite Hrequire. reflexivity. }
  cbv beta zeta.
  unfold bind2, setApp, ret2.
  cbn [outcome2 final2 events2 app].
  unfold located_app. destruct (pkg_app pkg) as [[|c app]|]; reflexivity.
Qed.

Lemma findPackage_name_miss baseDir name (w : World) :
  probe baseDir name w = None →
  ∃ evs,
    findPackage_name name baseDir w
      = {| outcome2 := Ok None; final2 := w; events2 := evs |}
    ∧ resolutions evs = [(name +:+ "/package.json", baseDir)]
    ∧ cache_writes evs = [] ∧ failures evs = [].
Proof.
  unfold probe. intros Hprobe.
  unfold findPackage_name, catch2.
  destruct (io_resolve _ baseDir (fs w)) as [p'|] eqn:Hresolve.
  - destruct (io_require p' (fs w)) as [pkg'|] eqn:Hrequire;
      [discriminate Hprobe |].
    rewrite (bind2_run_ok _ _ w w p' [EvResolve (name +:+ "/package.json") baseDir]).
    2:{ unfold require_resolve. rewrite Hresolve. reflexivity. }
    rewrite (bind2_run_throw _ _ w w (External "require") [Base (EvRequire p')]).
    2:{ unfold lift, require. rewrite Hrequire. reflexivity. }
    cbn [outcome2 final2 events2 app ret2]. eexists.
    split; [reflexivity |]. split; [reflexivity |]. split; reflexivity.
  - rewrite (bind2_run_throw _ _ w w (External "require.resolve")
               [EvResolve (name +:+ "/package.json") baseDir]).
    2:{ unfold require_resolve. rewrite Hresolve. reflexivity. }
    cbn [outcome2 final2 events2 app ret2]. eexists.
    split; [reflexivity |]. split; [reflexivity |]. split; reflexivity.
Qed.

Lemma resolutions_app (a b : list LookupEvent) :
  resolutions (a ++ b) = resolutions a ++ resolutions b.
Proof. apply omap_app. Qed.

Lemma cache_writes_app (a b : list LookupEvent) :
  cache_writes (a ++ b) = cache_writes a ++ cache_writes b.
Proof. apply omap_app. Qed.

Lemma failures_app (a b : list LookupEvent) :
  failures (a ++ b) = failures a ++ failures b.
Proof. apply omap_app. Qed.

Definition request_of (baseDir name : string) : string * string :=
  (name +:+ "/package.json", baseDir).

Lemma findPackage_names_miss baseDir names (w : World) :
  (∀ name, name ∈ names → probe baseDir name w = None) →
  ∃ evs,
    findPackage_names names baseDir w
      = {| outcome2 := Ok None; final2 := w; events2 := evs |}
    ∧ resolutions evs = request_of baseDir <$> names
    ∧ cache_writes evs = [] ∧ failures evs = [].
Proof.
  induction names as [|name names IH]; intros Hmiss.
  - exists []. split; [reflexivity |]. split; [reflexivity |].
    split; reflexivity.
  - destruct (findPackage_name_miss baseDir name w) as (evs & Hrun & Hres & Hcw & Hf).
    { apply Hmiss. by left. }
    destruct IH as (evs' & Hrun' & Hres' & Hcw' & Hf').
    { intros m Hm. apply Hmiss. by right. }
    exists (evs ++ evs'). cbn [findPackage_names].
    rewrite (bind2_run_ok _ _ w w None evs Hrun). rewrite Hrun'.
    cbn [outcome2 final2 events2].
    split; [reflexivity |].
    rewrite resolutions_app, cache_writes_app, failures_app.
    rewrite Hres, Hres', Hcw, Hcw', Hf, Hf'.
    split; [reflexivity |]. split; reflexivity.
Qed.

Lemma findPackage_names_hit baseDir before name after (w : World) p pkg :
  (∀ m, m ∈ before → probe baseDir m w = None) →
  probe baseDir name w = Some (p, pkg) →
  ∃ evs,
    findPackage_names (before ++ name :: after) baseDir w
      = {| outcome2 := Ok (Some (with_app pkg (located_app p pkg)));
           final2 := {| fs := io_setApp p (located_app p pkg) (fs w);
                        registry := registry w |};
           events2 := evs |}
    ∧ resolutions evs = request_of baseDir <$> (before ++ [name])
    ∧ cache_writes evs = [(p, located_app p pkg)] ∧ failures evs = [].
Proof.
  intros Hmiss Hhit.
  induction before as [|m before IH].
  - cbn [app findPackage_names].
    rewrite (bind2_run_ok _ _ _ _ _ _ (findPackage_name_hit _ _ _ _ _ Hhit)).
    cbn [ret2 outcome2 final2 events2 app]. eexists.
    split; [reflexivity |]. split; [reflexivity |]. split; reflexivity.
  - destruct (findPackage_name_miss baseDir m w) as (evs & Hrun & Hres & Hcw & Hf).
    { apply Hmiss. by left. }
    destruct IH as (evs' & Hrun' & Hres' & Hcw' & Hf').
    { intros m' Hm'. apply Hmiss. by right. }
    exists (evs ++ evs').
    change ((m :: before) ++ name :: after) with (m :: (before ++ name :: after)).
    cbn [findPackage_names].
    rewrite (bind2_run_ok _ _ w w None evs Hrun). rewrite Hrun'.
    cbn [outcome2 final2 events2].
    split; [reflexivity |].
    rewrite resolutions_app, cache_writes_app, failures_app.
    rewrite Hres, Hres', Hcw, Hcw', Hf, Hf'.
    split; [reflexivity |]. split; reflexivity.
Qed.

(** X15. [findPackage] on an array returns the first package, in the order
    of the array, whose manifest [require.resolve] finds from [baseDir]
    and [require] can read; the packages after it are not looked at, the
    ones before it are each resolved once, and the only write is the
    assignment of the located [app] to that manifest. A manifest without
    an [app] field ends the search as well. *)
Theorem findPackage_first_match baseDir before name after (w : World) p pkg :
  (∀ m, m ∈ before → probe baseDir m w = None) →
  probe baseDir name w = Some (p, pkg) →
  let run := findPackage (inr (before ++ name :: after)) baseDir w in
  outcome2 run = Ok (Some (with_app pkg (located_app p pkg)))
  ∧ fs (final2 run) = io_setApp p (located_app p pkg) (fs w)
  ∧ registry (final2 run) = registry w
  ∧ resolutions (events2 run) = request_of baseDir <$> (before ++ [name])
  ∧ cache_writes (events2 run) = [(p, located_app p pkg)].
Proof.
  intros Hmiss Hhit run. subst run. unfold findPackage.
  destruct (findPackage_names_hit baseDir before name after w p pkg Hmiss Hhit)
    as (evs & -> & Hres & Hcw & _).
  cbn [outcome2 final2 events2 fs registry].
  split; [reflexivity |]. split; [reflexivity |]. split; [reflexivity |].
  split; assumption.
Qed.

(** X16. When no package of the array can be resolved and read from
    [baseDir], [findPackage] returns [undefined] without throwing: every
    name was tried once, in order, nothing was written and nothing was
    logged. *)
Theorem findPackage_no_match baseDir names (w : World) :
  (∀ name, name ∈ names → probe baseDir name w = None) →
  let run := findPackage (inr names) baseDir w in
  outcome2 run = Ok None ∧ final2 run = w
  ∧ resolutions (events2 run) = request_of baseDir <$> names
  ∧ cache_writes (events2 run) = [] ∧ failures (events2 run) = [].
Proof.
  intros Hmiss run. subst run. unfold findPackage.
  destruct (findPackage_names_miss baseDir names w Hmiss)
    as (evs & -> & Hres & Hcw & Hf).
  cbn [outcome2 final2 events2].
  split; [reflexivity |]. split; [reflexivity |]. split; [assumption |].
  split; assumption.
Qed.

Definition names_of (pck : string + list string) : list string :=
  match pck with inl name => [name] | inr names => names end.

(** Every run of [findPackage]: the names tried are a prefix of the
    candidates; either nothing was found and nothing changed, or the
    manifest of a candidate was found and its [app] located. *)
Lemma findPackage_run pck baseDir (w : World) :
  ∃ evs tried,
    failures evs = []
    ∧ resolutions evs = request_of baseDir <$> tried
    ∧ tried `prefix_of` names_of pck
    ∧ (tried = [] → names_of pck = [])
    ∧ (findPackage pck baseDir w
         = {| outcome2 := Ok None; final2 := w; events2 := evs |}
       ∨ ∃ name p pkg,
           name ∈ names_of pck ∧ probe baseDir name w = Some (p, pkg)
           ∧ findPackage pck baseDir w
               = {| outcome2 := Ok (Some (with_app pkg (located_app p pkg)));
                    final2 := {| fs := io_setApp p (located_app p pkg) (fs w);
                                 registry := registry w |};
                    events2 := evs |}).
Proof.
  destruct pck as [name|names]; cbn [findPackage names_of].
  - destruct (probe baseDir name w) as [[p pkg]|] eqn:Hprobe.
    + eexists _, [name]. split; [| split; [| split; [reflexivity |]]].
      3:{ split; [intros H; discriminate H |]. right. exists name, p, pkg. split; [by left |]. split; [done |].
          apply (findPackage_name_hit _ _ _ _ _ Hprobe). }
      * reflexivity.
      * reflexivity.
    + destruct (findPackage_name_miss _ _ _ Hprobe) as (evs & Hrun & Hres & _ & Hf).
      exists evs, [name]. split; [done |]. split; [done |].
      split; [reflexivity |]. split; [intros H; discriminate H |]. by left.
  - induction names as [|name names IH].
    + exists [], []. split; [reflexivity |]. split; [reflexivity |].
      split; [reflexivity |]. split; [done |]. left. reflexivity.
    + destruct (probe baseDir name w) as [[p pkg]|] eqn:Hprobe.
      * destruct (findPackage_names_hit baseDir [] name names w p pkg)
          as (evs & Hrun & Hres & _ & Hf); [by intros m ?%not_elem_of_nil | done |].
        exists evs, [name]. split; [done |]. split; [done |].
        split; [apply prefix_cons, prefix_nil |].
        split; [intros H; discriminate H |].
        right. exists name, p, pkg. split; [by left |]. split; done.
      * destruct (findPackage_name_miss _ _ _ Hprobe)
          as (evs & Hrun & Hres & _ & Hf).
        destruct IH as (evs' & tried & Hf' & Hres' & Hpre & _ & Hcases).
        exists (evs ++ evs'), (name :: tried).
        rewrite failures_app, resolutions_app, Hf, Hf', Hres, Hres'.
        split; [reflexivity |]. split; [reflexivity |].
        split; [by apply prefix_cons |].
        split; [intros H; discriminate H |].
        cbn [findPackage_names].
        rewrite (bind2_run_ok _ _ w w None evs Hrun).
        destruct Hcases as [Hnone|(name' & p & pkg & Hin & Hhit & Hsome)].
        -- left. by rewrite Hnone.
        -- right. exists name', p, pkg. split; [by right |]. split; [done |].
           by rewrite Hsome.
Qed.

(** X17. [findRoot] and [findPackage] never throw and never log: a failed
    resolution or a manifest that cannot be read becomes [undefined].
    [findRoot] changes nothing; [findPackage] leaves the module registry
    alone, and the world as a whole when it finds nothing. *)
Theorem lookups_never_throw pck baseDir (w : World) :
  (∀ name,
     findRoot name baseDir w
       = {| outcome2 := Ok (io_resolve name baseDir (fs w)); final2 := w;
            events2 := [EvResolve name baseDir] |})
  ∧ ∃ r, outcome2 (findPackage pck baseDir w) = Ok r
         ∧ registry (final2 (findPackage pck baseDir w)) = registry w
         ∧ (r = None → final2 (findPackage pck baseDir w) = w)
         ∧ failures (events2 (findPackage pck baseDir w)) = [].
Proof.
  split; [intros name; apply findRoot_run |].
  destruct (findPackage_run pck baseDir w)
    as (evs & tried & Hf & _ & _ & _ & [->|(name & p & pkg & _ & _ & ->)]);
    cbn [outcome2 final2 events2 registry]; eexists.
  - split; [reflexivity |]. split; [reflexivity |]. split; [reflexivity | done].
  - split; [reflexivity |]. split; [reflexivity |].
    split; [intros H; discriminate H | done].
Qed.

(** X18. A package name and the array holding only that name are looked
    up in the same way. *)
Theorem findPackage_singleton name baseDir (w : World) :
  findPackage (inl name) baseDir w = findPackage (inr [name]) baseDir w.
Proof.
  unfold findPackage. cbn [findPackage_names].
  destruct (probe baseDir name w) as [[p pkg]|] eqn:Hprobe.
  - rewrite (bind2_run_ok _ _ _ _ _ _ (findPackage_name_hit _ _ _ _ _ Hprobe)).
    rewrite (findPackage_name_hit _ _ _ _ _ Hprobe). reflexivity.
  - destruct (findPackage_name_miss _ _ _ Hprobe) as (evs & Hrun & _).
    rewrite (bind2_run_ok _ _ _ _ _ _ Hrun), Hrun.
    cbn [findPackage_names ret2 outcome2 final2 events2].
    by rewrite app_nil_r.
Qed.

(** ** The host manifest of an entry file *)

Lemma bool_cases (b : bool) : b = true ∨ b = false.
Proof. destruct b; [by left | by right]. Qed.


(** X19. [retrievePiletsInfo] changes nothing. It throws
    [Invalid Piral instance.] exactly when the entry file does not exist
    or [findFile] finds no [package.json] above it, each time right after
    a [logFail]; for a missing entry [findFile] is not called at all.
    Otherwise, if the manifest can be read, the result is the normalised
    [pilets] block of [getPiletsInfo] next to the manifest's [name] and
    [version] and the manifest's directory as [root]. *)
Theorem retrievePiletsInfo_result entryFile (w : World) :
  let run := retrievePiletsInfo entryFile w in
  let found := io_findFile entryFile "package.json" (fs w) in
  final2 run = w
  ∧ (outcome2 run = Throw (Error "Invalid Piral instance.")
     ↔ io_checkExists entryFile (fs w) = false ∨ truthy found = false)
  ∧ (outcome2 run = Throw (Error "Invalid Piral instance.") →
     ∃ message args, last (events2 run) = Some (Base (EvFail message args)))
  ∧ (io_checkExists entryFile (fs w) = false →
     ∃ message,
       events2 run = [Base (EvCheckExists entryFile);
                      Base (EvFail message [entryFile])])
  ∧ (∀ info,
       io_checkExists entryFile (fs w) = true → truthy found = true →
       io_requireHost (template found) (fs w) = Some info →
       outcome2 run
         = Ok {| hi_info := getPiletsInfo info; hi_name := piral_name info;
                 hi_version := piral_version info;
                 hi_root := dirname (template found) |}).
Proof.
  intros run found. subst run. unfold retrievePiletsInfo.
  destruct (io_checkExists entryFile (fs w)) eqn:Hexists.
  - rewrite (bind2_run_ok _ _ w w true [Base (EvCheckExists entryFile)]).
    2:{ unfold lift, checkExists, query. rewrite Hexists. reflexivity. }
    cbn [negb]. rewrite (bind2_run_ok _ _ w w tt []); [| reflexivity].
    rewrite (bind2_run_ok _ _ w w found [EvFindFile entryFile "package.json"]);
      [| reflexivity].
    pose proof (bool_cases (truthy found)) as [Htruthy|Htruthy];
      rewrite Htruthy; unfold negb.
    + rewrite (bind2_run_ok _ _ w w tt []); [| reflexivity].
      destruct (io_requireHost (template found) (fs w)) as [info|] eqn:Hhost.
      * rewrite (bind2_run_ok _ _ w w info [Base (EvRequire (template found))]).
        2:{ unfold requireHost. rewrite Hhost. reflexivity. }
        cbn [ret2 outcome2 final2 events2 app].
        split; [reflexivity |]. split; [| split; [| split]].
        -- split; [intros H; discriminate H |].
           intros [H|H]; discriminate H.
        -- intros H; discriminate H.
        -- intros H; discriminate H.
        -- intros info' _ _ [= <-]. reflexivity.
      * rewrite (bind2_run_throw _ _ w w (External "require")
                   [Base (EvRequire (template found))]).
        2:{ unfold requireHost. rewrite Hhost. reflexivity. }
        cbn [outcome2 final2 events2 app].
        split; [reflexivity |]. split; [| split; [| split]].
        -- split; [intros H; discriminate H |].
           intros [H|H]; discriminate H.
        -- intros H; discriminate H.
        -- intros H; discriminate H.
        -- intros info' _ _ H; discriminate H.
    + erewrite (bind2_run_throw _ _ w w (Error "Invalid Piral instance."));
        [| reflexivity].
      cbn [outcome2 final2 events2 app].
      split; [reflexivity |]. split; [| split; [| split]].
      -- split; [intros _; by right | reflexivity].
      -- intros _. by eexists _, _.
      -- intros H; discriminate H.
      -- intros info' _ H; discriminate H.
  - rewrite (bind2_run_ok _ _ w w false [Base (EvCheckExists entryFile)]).
    2:{ unfold lift, checkExists, query. rewrite Hexists. reflexivity. }
    cbn [negb].
    erewrite (bind2_run_throw _ _ w w (Error "Invalid Piral instance."));
      [| reflexivity].
    cbn [outcome2 final2 events2 app].
    split; [reflexivity |]. split; [| split; [| split]].
    -- split; [intros _; by left | reflexivity].
    -- intros _. by eexists _, _.
    -- intros _. by eexists.
    -- intros info' H; discriminate H.
Qed.

(** ** The host of a pilet *)

Definition fail_no_manifest : LookupEvent :=
  Base (EvFail ("Cannot find the " +:+ dq +:+ "%s" +:+ dq
                  +:+ ". You need a valid package.json for your pilet.")
               ["package.json"]).

Definition fail_no_host : LookupEvent :=
  Base (EvFail ("Cannot find the Piral instance. Make sure the "
                  +:+ dq +:+ "%s" +:+ dq
                  +:+ " of the Piral instance is valid (has an "
                  +:+ dq +:+ "%s" +:+ dq +:+ " field).")
               ["package.json"; "app"]).

Definition fail_no_core : LookupEvent :=
  Base (EvFail ("Cannot find the package " +:+ dq +:+ "%s" +:+ dq
                  +:+ ". Make sure your dependencies are correctly resolved.")
               ["piral-core"]).

Lemma retrievePiletData_no_manifest target app (w : World) :
  truthy (io_findFile target "package.json" (fs w)) = false →
  retrievePiletData target app w
    = {| outcome2 := Throw (Error "Invalid pilet."); final2 := w;
         events2 := [EvFindFile target "package.json"; fail_no_manifest] |}.
Proof.
  intros Htruthy. unfold retrievePiletData.
  rewrite (bind2_run_ok _ _ w w (io_findFile target "package.json" (fs w))
             [EvFindFile target "package.json"]); [| reflexivity].
  rewrite Htruthy. cbn [negb].
  erewrite (bind2_run_throw _ _ w w (Error "Invalid pilet.")); reflexivity.
Qed.

Lemma retrievePiletData_manifest target app (w : World) p :
  io_findFile target "package.json" (fs w) = Some p → is_empty p = false →
  (io_requirePilet p (fs w) = None →
   retrievePiletData target app w
     = {| outcome2 := Throw (External "require"); final2 := w;
          events2 := [EvFindFile target "package.json"; Base (EvRequire p)] |})
  ∧ (∀ m e,
       io_requirePilet p (fs w) = Some m →
       host_candidates app (pm_package m) = Throw e →
       retrievePiletData target app w
         = {| outcome2 := Throw e; final2 := w;
              events2 := [EvFindFile target "package.json";
                          Base (EvRequire p)] |})
  ∧ (∀ m c appPackage w' evs,
       io_requirePilet p (fs w) = Some m →
       host_candidates app (pm_package m) = Ok c →
       findPackage c target w
         = {| outcome2 := Ok appPackage; final2 := w'; events2 := evs |} →
       let appFile := appPackage ≫= pkg_app in
       let coreFile := io_resolve "piral-core" (template appFile) (fs w') in
       let pre := EvFindFile target "package.json" :: Base (EvRequire p) :: evs in
       retrievePiletData target app w
         = if truthy appFile then
             if truthy coreFile then
               {| outcome2 :=
                    Ok {| pd_coreFile := template coreFile;
                          pd_dependencies := default ∅ (pm_dependencies m);
                          pd_devDependencies :=
                            default ∅ (pkg_devDependencies (pm_package m));
                          pd_peerDependencies :=
                            default ∅ (pkg_peerDependencies (pm_package m));
                          pd_appFile := template appFile;
                          pd_appPackage := default (pm_package m) appPackage;
                          pd_root := dirname p |};
                  final2 := w';
                  events2 := pre ++ [EvResolve "piral-core" (template appFile)] |}
             else
               {| outcome2 := Throw (Error "Invalid dependency structure.");
                  final2 := w';
                  events2 := pre ++ [EvResolve "piral-core" (template appFile);
                                     fail_no_core] |}
           else
             {| outcome2 := Throw (Error "Invalid Piral instance selected.");
                final2 := w'; events2 := pre ++ [fail_no_host] |}).
Proof.
  intros Hfind Hp.
  split; [| split].
  - intros Hreq. unfold retrievePiletData.
    rewrite (bind2_run_ok _ _ w w (Some p) [EvFindFile target "package.json"]).
    2:{ unfold findFile. rewrite Hfind. reflexivity. }
    cbn [truthy]. rewrite Hp. cbn [negb template].
    rewrite (bind2_run_ok _ _ w w tt []); [| reflexivity].
    rewrite (bind2_run_throw _ _ w w (External "require") [Base (EvRequire p)]).
    2:{ unfold requirePilet. rewrite Hreq. reflexivity. }
    reflexivity.
  - intros m e Hreq Hcand. unfold retrievePiletData.
    rewrite (bind2_run_ok _ _ w w (Some p) [EvFindFile target "package.json"]).
    2:{ unfold findFile. rewrite Hfind. reflexivity. }
    cbn [truthy]. rewrite Hp. cbn [negb template].
    rewrite (bind2_run_ok _ _ w w tt []); [| reflexivity].
    rewrite (bind2_run_ok _ _ w w m [Base (EvRequire p)]).
    2:{ unfold requirePilet. rewrite Hreq. reflexivity. }
    cbv zeta.
    rewrite (bind2_run_throw _ _ w w e []).
    2:{ unfold of_result. rewrite Hcand. reflexivity. }
    reflexivity.
  - intros m c appPackage w' evs Hreq Hcand Hfound appFile coreFile pre.
    assert (Hrun :
      retrievePiletData target app w
        = let r :=
            bind2 (if negb (truthy appFile) then
                   bind2 (lift (logFail ("Cannot find the Piral instance. Make sure the "
                      +:+ dq +:+ "%s" +:+ dq
                      +:+ " of the Piral instance is valid (has an "
                      +:+ dq +:+ "%s" +:+ dq +:+ " field).")
                                        ["package.json"; "app"]))
                         (λ _, throw2 (Error "Invalid Piral instance selected."))
                 else ret2 tt)
            (λ _, bind2 (findRoot "piral-core" (template appFile))
               (λ coreFile,
                  bind2 (if negb (truthy coreFile) then
                           bind2 (lift (logFail ("Cannot find the package " +:+ dq +:+ "%s" +:+ dq
                      +:+ ". Make sure your dependencies are correctly resolved.")
                                                ["piral-core"]))
                                 (λ _, throw2 (Error "Invalid dependency structure."))
                         else ret2 tt)
                    (λ _, ret2
                       {| pd_coreFile := template coreFile;
                          pd_dependencies := default ∅ (pm_dependencies m);
                          pd_devDependencies :=
                            default ∅ (pkg_devDependencies (pm_package m));
                          pd_peerDependencies :=
                            default ∅ (pkg_peerDependencies (pm_package m));
                          pd_appFile := template appFile;
                          pd_appPackage := default (pm_package m) appPackage;
                          pd_root := dirname p |}))) w' in
          {| outcome2 := outcome2 r; final2 := final2 r;
             events2 := pre ++ events2 r |}).
    { unfold retrievePiletData.
      rewrite (bind2_run_ok _ _ w w (Some p) [EvFindFile target "package.json"]).
      2:{ unfold findFile. rewrite Hfind. reflexivity. }
      cbn [truthy]. rewrite Hp. cbn [negb template].
      rewrite (bind2_run_ok _ _ w w tt []); [| reflexivity].
      rewrite (bind2_run_ok _ _ w w m [Base (EvRequire p)]).
      2:{ unfold requirePilet. rewrite Hreq. reflexivity. }
      cbv zeta.
      rewrite (bind2_run_ok _ _ w w c []).
      2:{ unfold of_result. rewrite Hcand. reflexivity. }
      rewrite (bind2_run_ok _ _ w w' appPackage evs Hfound).
      reflexivity. }
    rewrite Hrun. clear Hrun. cbv zeta. subst pre.
    pose proof (bool_cases (truthy appFile)) as [Happ|Happ];
      rewrite Happ; unfold negb.
    + rewrite (bind2_run_ok _ _ w' w' tt []); [| reflexivity].
      rewrite (bind2_run_ok _ _ w' w' coreFile
                 [EvResolve "piral-core" (template appFile)]);
        [| apply findRoot_run].
      pose proof (bool_cases (truthy coreFile)) as [Hcore|Hcore];
        rewrite Hcore; unfold negb.
      * rewrite (bind2_run_ok _ _ w' w' tt []); [| reflexivity].
        reflexivity.
      * erewrite (bind2_run_throw _ _ w' w'
                    (Error "Invalid dependency structure.")); reflexivity.
    + erewrite (bind2_run_throw _ _ w' w'
                  (Error "Invalid Piral instance selected.")); reflexivity.
Qed.
Lemma truthy_true (v : option string) :
  truthy v = true → ∃ s, v = Some s ∧ is_empty s = false ∧ template v = s.
Proof.
  destruct v as [s|]; [| intros H; discriminate H].
  cbn [truthy template]. intros H. exists s.
  split; [reflexivity |]. split; [| reflexivity]. by destruct (is_empty s).
Qed.

Lemma host_candidates_throw app package e :
  host_candidates app package = Throw e →
  e = External "TypeError" ∧ truthy app = false
  ∧ truthy (ps_name <$> pkg_piral package) = false
  ∧ pkg_devDependencies package = None.
Proof.
  unfold host_candidates.
  destruct (truthy app); [intros H; discriminate H |].
  destruct (truthy (ps_name <$> pkg_piral package)); [intros H; discriminate H |].
  destruct (pkg_devDependencies package); [intros H; discriminate H |].
  by intros [= <-].
Qed.

Lemma failures_pre target p evs (rest : list LookupEvent) :
  failures evs = [] →
  failures ((EvFindFile target "package.json" :: Base (EvRequire p) :: evs) ++ rest)
    = failures rest.
Proof.
  intros Hf. rewrite failures_app.
  change (failures (EvFindFile target "package.json" :: Base (EvRequire p) :: evs))
    with (failures evs).
  by rewrite Hf.
Qed.

Lemma resolutions_pre target p evs (rest : list LookupEvent) :
  resolutions ((EvFindFile target "package.json" :: Base (EvRequire p) :: evs) ++ rest)
    = resolutions evs ++ resolutions rest.
Proof. by rewrite resolutions_app. Qed.

(** The shapes a run of [retrievePiletData] can have. *)
Inductive PiletDataRun (target : string) (app : option string) (w : World)
    : Run2 PiletData → Prop :=
  | run_no_manifest :
      truthy (io_findFile target "package.json" (fs w)) = false →
      PiletDataRun target app w
        {| outcome2 := Throw (Error "Invalid pilet."); final2 := w;
           events2 := [EvFindFile target "package.json"; fail_no_manifest] |}
  | run_unreadable p :
      io_findFile target "package.json" (fs w) = Some p → is_empty p = false →
      io_requirePilet p (fs w) = None →
      PiletDataRun target app w
        {| outcome2 := Throw (External "require"); final2 := w;
           events2 := [EvFindFile target "package.json"; Base (EvRequire p)] |}
  | run_no_candidates p m :
      io_findFile target "package.json" (fs w) = Some p → is_empty p = false →
      io_requirePilet p (fs w) = Some m →
      host_candidates app (pm_package m) = Throw (External "TypeError") →
      PiletDataRun target app w
        {| outcome2 := Throw (External "TypeError"); final2 := w;
           events2 := [EvFindFile target "package.json"; Base (EvRequire p)] |}
  | run_located p m c appPackage w' evs tried last_events outcome :
      io_findFile target "package.json" (fs w) = Some p → is_empty p = false →
      io_requirePilet p (fs w) = Some m →
      host_candidates app (pm_package m) = Ok c →
      findPackage c target w
        = {| outcome2 := Ok appPackage; final2 := w'; events2 := evs |} →
      failures evs = [] →
      resolutions evs = request_of target <$> tried →
      tried `prefix_of` names_of c →
      (tried = [] → names_of c = []) →
      (truthy (appPackage ≫= pkg_app) = false
       ∧ outcome = Throw (Error "Invalid Piral instance selected.")
       ∧ last_events = [fail_no_host]
       ∨ ∃ appFile,
           appPackage ≫= pkg_app = Some appFile ∧ is_empty appFile = false
           ∧ (truthy (io_resolve "piral-core" appFile (fs w')) = false
              ∧ outcome = Throw (Error "Invalid dependency structure.")
              ∧ last_events = [EvResolve "piral-core" appFile; fail_no_core]
              ∨ ∃ coreFile found,
                  io_resolve "piral-core" appFile (fs w') = Some coreFile
                  ∧ is_empty coreFile = false
                  ∧ appPackage = Some found
                  ∧ last_events = [EvResolve "piral-core" appFile]
                  ∧ outcome
                      = Ok {| pd_coreFile := coreFile;
                              pd_dependencies := default ∅ (pm_dependencies m);
                              pd_devDependencies :=
                                default ∅ (pkg_devDependencies (pm_package m));
                              pd_peerDependencies :=
                                default ∅ (pkg_peerDependencies (pm_package m));
                              pd_appFile := appFile;
                              pd_appPackage := found;
                              pd_root := dirname p |})) →
      PiletDataRun target app w
        {| outcome2 := outcome; final2 := w';
           events2 := (EvFindFile target "package.json" :: Base (EvRequire p)
                         :: evs) ++ last_events |}.

Lemma retrievePiletData_run target app (w : World) :
  PiletDataRun target app w (retrievePiletData target app w).
Proof.
  pose proof (bool_cases (truthy (io_findFile target "package.json" (fs w))))
    as [Hfound|Hfound].
  2:{ rewrite (retrievePiletData_no_manifest _ _ _ Hfound). by constructor. }
  destruct (truthy_true _ Hfound) as (p & Hfind & Hp & _).
  destruct (retrievePiletData_manifest target app w p Hfind Hp)
    as (Hunreadable & Hthrow & Hlocated).
  destruct (io_requirePilet p (fs w)) as [m|] eqn:Hreq.
  2:{ rewrite (Hunreadable eq_refl). by constructor. }
  destruct (host_candidates app (pm_package m)) as [c|e] eqn:Hcand.
  2:{ rewrite (Hthrow m e eq_refl Hcand).
      destruct (host_candidates_throw _ _ _ Hcand) as (-> & _).
      by apply (run_no_candidates _ _ _ p m). }
  destruct (findPackage_run c target w)
    as (evs & tried & Hf & Hres & Hpre & Hnil & Hcases).
  assert (∃ appPackage w',
            findPackage c target w
              = {| outcome2 := Ok appPackage; final2 := w'; events2 := evs |})
    as (appPackage & w' & Hrun).
  { destruct Hcases as [H|(name & p' & pkg & _ & _ & H)]; by eexists _, _. }
  rewrite (Hlocated m c appPackage w' evs eq_refl Hcand Hrun).
  pose proof (bool_cases (truthy (appPackage ≫= pkg_app))) as [Happ|Happ];
    rewrite Happ.
  2:{ apply (run_located _ _ _ p m c appPackage w' evs tried); try done.
      by left. }
  destruct (truthy_true _ Happ) as (appFile & HappFile & Hne & Htemplate).
  rewrite Htemplate.
  pose proof (bool_cases (truthy (io_resolve "piral-core" appFile (fs w'))))
    as [Hcore|Hcore]; rewrite Hcore.
  2:{ apply (run_located _ _ _ p m c appPackage w' evs tried); try done.
      right. exists appFile. split; [done |]. split; [done |]. by left. }
  destruct (truthy_true _ Hcore) as (coreFile & HcoreFile & Hne' & Htemplate').
  rewrite Htemplate'.
  destruct appPackage as [found|]; [| discriminate HappFile].
  apply (run_located _ _ _ p m c (Some found) w' evs tried); try done.
  right. exists appFile. split; [done |]. split; [done |]. right.
  exists coreFile, found. done.
Qed.

Lemma findPackage_final pck baseDir (w w' : World) r evs :
  findPackage pck baseDir w
    = {| outcome2 := Ok r; final2 := w'; events2 := evs |} →
  registry w' = registry w
  ∧ (r = None → w' = w)
  ∧ (∀ found, r = Some found →
       ∃ name p pkg,
         name ∈ names_of pck ∧ probe baseDir name w = Some (p, pkg)
         ∧ found = with_app pkg (located_app p pkg)
         ∧ fs w' = io_setApp p (located_app p pkg) (fs w)).
Proof.
  destruct (findPackage_run pck baseDir w)
    as (evs' & tried & _ & _ & _ & _ & [->|(name & p & pkg & Hin & Hhit & ->)]).
  - intros [= <- <- <-]. split; [done |]. split; [done |].
    intros found H; discriminate H.
  - intros [= <- <- <-]. split; [done |]. split; [intros H; discriminate H |].
    intros found [= <-]. by exists name, p, pkg.
Qed.

Lemma last_pre (pre : list LookupEvent) (a : list LookupEvent) x :
  last a = Some x → last (pre ++ a) = Some x.
Proof. intros H. apply last_app_Some. by left. Qed.

(** X20. How [retrievePiletData] fails. It never touches the module
    registry. [Invalid pilet.] is thrown exactly when [findFile] finds no
    [package.json] for the target. Every error of its own is thrown right
    after the one [logFail] of the run; a failure of a collaborator (an
    unreadable manifest, or the [TypeError] of [Object.keys] on a manifest
    without [devDependencies]) passes through without a log entry, before
    any package was resolved and with nothing changed. A run that returns
    has logged nothing. *)
Theorem retrievePiletData_failures target app (w : World) :
  let run := retrievePiletData target app w in
  registry (final2 run) = registry w
  ∧ (outcome2 run = Throw (Error "Invalid pilet.")
     ↔ truthy (io_findFile target "package.json" (fs w)) = false)
  ∧ (∀ msg, outcome2 run = Throw (Error msg) →
       ∃ message args,
         failures (events2 run) = [message]
         ∧ last (events2 run) = Some (Base (EvFail message args)))
  ∧ (∀ what, outcome2 run = Throw (External what) →
       failures (events2 run) = [] ∧ resolutions (events2 run) = []
       ∧ final2 run = w)
  ∧ (∀ d, outcome2 run = Ok d → failures (events2 run) = []).
Proof.
  intros run. subst run.
  destruct (retrievePiletData_run target app w)
    as [Hnone
       | p Hfind Hp Hreq
       | p m Hfind Hp Hreq Hcand
       | p m c appPackage w' evs tried last_events outcome
           Hfind Hp Hreq Hcand Hrun Hf Hres Hpre Hnil Hcases];
    cbn [outcome2 final2 events2].
  - split; [done |]. split; [done |]. split; [| split].
    + intros msg _. by eexists _, _.
    + intros what H; discriminate H.
    + intros d H; discriminate H.
  - assert (truthy (io_findFile target "package.json" (fs w)) = true) as Ht.
    { rewrite Hfind. cbn [truthy]. by rewrite Hp. }
    split; [done |]. split; [| split; [| split]].
    + split; [intros H; discriminate H | intros H; congruence].
    + intros msg H; discriminate H.
    + done.
    + intros d H; discriminate H.
  - assert (truthy (io_findFile target "package.json" (fs w)) = true) as Ht.
    { rewrite Hfind. cbn [truthy]. by rewrite Hp. }
    split; [done |]. split; [| split; [| split]].
    + split; [intros H; discriminate H | intros H; congruence].
    + intros msg H; discriminate H.
    + done.
    + intros d H; discriminate H.
  - assert (truthy (io_findFile target "package.json" (fs w)) = true) as Ht.
    { rewrite Hfind. cbn [truthy]. by rewrite Hp. }
    destruct (findPackage_final _ _ _ _ _ _ Hrun) as (Hreg & _ & _).
    rewrite (failures_pre _ _ _ _ Hf).
    split; [done |].
    destruct Hcases
      as [(_ & -> & ->)
         |(appFile & _ & _ &
             [(_ & -> & ->)|(coreFile & found & _ & _ & _ & -> & ->)])].
    + split; [| split; [| split]].
      * split; [intros H; discriminate H | intros H; congruence].
      * intros msg _. eexists _, _. split; [reflexivity |].
        by apply last_pre.
      * intros what H; discriminate H.
      * intros d H; discriminate H.
    + split; [| split; [| split]].
      * split; [intros H; discriminate H | intros H; congruence].
      * intros msg _. eexists _, _. split; [reflexivity |].
        by apply last_pre.
      * intros what H; discriminate H.
      * intros d H; discriminate H.
    + split; [| split; [| split]].
      * split; [intros H; discriminate H | intros H; congruence].
      * intros msg H; discriminate H.
      * intros what H; discriminate H.
      * done.
Qed.

(** X21. What [retrievePiletData] returns. The [root] is the directory of
    the manifest [findFile] found. The [appFile] is not empty: it is the
    [app] entry of the host manifest that [findPackage] located from the
    target, resolved against that manifest's directory, and the returned
    [appPackage] carries it as its [app]. The [coreFile] is not empty and
    is what [require.resolve] gives for [piral-core] from the [appFile],
    which is the last resolution of the run. The only change of the run
    is the assignment of the [appFile] to the cached host manifest. *)
Theorem retrievePiletData_success target app (w : World) d :
  let run := retrievePiletData target app w in
  outcome2 run = Ok d →
  is_empty (pd_appFile d) = false ∧ is_empty (pd_coreFile d) = false
  ∧ pkg_app (pd_appPackage d) = Some (pd_appFile d)
  ∧ io_resolve "piral-core" (pd_appFile d) (fs (final2 run))
      = Some (pd_coreFile d)
  ∧ last (resolutions (events2 run)) = Some ("piral-core", pd_appFile d)
  ∧ (∃ p, io_findFile target "package.json" (fs w) = Some p
          ∧ pd_root d = dirname p)
  ∧ ∃ name p pkg rel,
      probe target name w = Some (p, pkg)
      ∧ pkg_app pkg = Some rel ∧ is_empty rel = false
      ∧ pd_appFile d = resolve [dirname p; rel]
      ∧ fs (final2 run) = io_setApp p (Some (pd_appFile d)) (fs w).
Proof.
  intros run. subst run.
  destruct (retrievePiletData_run target app w)
    as [Hnone
       | p Hfind Hp Hreq
       | p m Hfind Hp Hreq Hcand
       | p m c appPackage w' evs tried last_events outcome
           Hfind Hp Hreq Hcand Hrun Hf Hres Hpre Hnil Hcases];
    cbn [outcome2 final2 events2]; try (intros H; discriminate H).
  destruct Hcases
    as [(_ & -> & _)
       |(appFile & HappFile & Hne &
           [(_ & -> & _)
           |(coreFile & found & Hcore & Hne' & -> & -> & ->)])];
    try (intros H; discriminate H).
  intros [= <-]. cbn [pd_appFile pd_coreFile pd_appPackage pd_root].
  cbn in HappFile.
  destruct (findPackage_final _ _ _ _ _ _ Hrun) as (_ & _ & Hsome).
  destruct (Hsome found eq_refl) as (name & p' & pkg & _ & Hprobe & -> & Hfs).
  cbn [with_app pkg_app] in HappFile.
  split; [done |]. split; [done |]. split; [done |]. split; [done |].
  split.
  { rewrite resolutions_pre. apply last_app_Some. by left. }
  split; [by exists p |].
  unfold located_app in HappFile, Hfs.
  destruct (pkg_app pkg) as [rel|] eqn:Hrel; [| discriminate HappFile].
  destruct (is_empty rel) eqn:Hempty.
  - injection HappFile as <-. congruence.
  - injection HappFile as <-. by exists name, p', pkg, rel.
Qed.

Lemma retrievePiletData_resolutions target app (w : World) p m c :
  io_findFile target "package.json" (fs w) = Some p → is_empty p = false →
  io_requirePilet p (fs w) = Some m →
  host_candidates app (pm_package m) = Ok c →
  ∃ tried rest,
    resolutions (events2 (retrievePiletData target app w))
      = (request_of target <$> tried) ++ rest
    ∧ tried `prefix_of` names_of c
    ∧ (tried = [] → names_of c = [])
    ∧ (rest = [] ∨ ∃ appFile, rest = [("piral-core", appFile)]).
Proof.
  intros Hfind0 Hp0 Hreq0 Hcand0.
  destruct (retrievePiletData_run target app w)
    as [Hnone
       | p' Hfind Hp Hreq
       | p' m' Hfind Hp Hreq Hcand
       | p' m' c' appPackage w' evs tried last_events outcome
           Hfind Hp Hreq Hcand Hrun Hf Hres Hpre Hnil Hcases];
    cbn [outcome2 final2 events2].
  - rewrite Hfind0 in Hnone. cbn [truthy] in Hnone. rewrite Hp0 in Hnone.
    discriminate Hnone.
  - congruence.
  - congruence.
  - assert (p' = p) as -> by congruence.
    assert (m' = m) as -> by congruence.
    assert (c' = c) as -> by congruence.
    exists tried, (resolutions last_events).
    rewrite resolutions_pre, Hres.
    split; [done |]. split; [done |]. split; [done |].
    destruct Hcases
      as [(_ & _ & ->)
         |(appFile & _ & _ &
             [(_ & _ & ->)|(coreFile & found & _ & _ & _ & -> & _)])].
    + by left.
    + right. by exists appFile.
    + right. by exists appFile.
Qed.

(** X22. Which host [retrievePiletData] looks for, once the pilet's
    manifest is read: the explicit [app] argument if it is not empty;
    else the [piral.name] of the manifest if there is one and it is not
    empty; else the keys of the manifest's [devDependencies], in the order
    of [Object.keys], and without [devDependencies] the run ends in a
    [TypeError]. The packages resolved are a prefix of these candidates,
    not empty unless there is no candidate, followed by at most the
    resolution of [piral-core]. *)
Theorem host_choice target app (w : World) p m :
  io_findFile target "package.json" (fs w) = Some p → is_empty p = false →
  io_requirePilet p (fs w) = Some m →
  let run := retrievePiletData target app w in
  let package := pm_package m in
  let candidates :=
    if truthy app then Some [template app]
    else if truthy (ps_name <$> pkg_piral package)
         then Some [template (ps_name <$> pkg_piral package)]
         else Object_keys <$> pkg_devDependencies package in
  match candidates with
  | Some names =>
      ∃ tried rest,
        resolutions (events2 run) = (request_of target <$> tried) ++ rest
        ∧ tried `prefix_of` names
        ∧ (tried = [] → names = [])
        ∧ (rest = [] ∨ ∃ appFile, rest = [("piral-core", appFile)])
  | None =>
      run = {| outcome2 := Throw (External "TypeError"); final2 := w;
               events2 := [EvFindFile target "package.json";
                           Base (EvRequire p)] |}
  end.
Proof.
  intros Hfind Hp Hreq run package candidates. subst run candidates.
  pose proof (retrievePiletData_resolutions target app w p m) as Hresolved.
  destruct (retrievePiletData_manifest target app w p Hfind Hp)
    as (_ & Hthrow & _).
  specialize (Hthrow m (External "TypeError") Hreq).
  unfold host_candidates in Hresolved, Hthrow. fold package in Hresolved, Hthrow.
  destruct (truthy app).
  { by apply (Hresolved (inl (template app))). }
  destruct (truthy (ps_name <$> pkg_piral package)).
  { by apply (Hresolved (inl (template (ps_name <$> pkg_piral package)))). }
  destruct (pkg_devDependencies package) as [deps|]; cbn [fmap option_fmap option_map].
  - by apply (Hresolved (inr (Object_keys deps))).
  - by apply Hthrow.
Qed.

(** X23. A pilet finds the host it was scaffolded for: when the [piral]
    section of the pilet's manifest is the one that [patchPiletPackage]
    wrote for the host [name], and no [app] is given, the package that
    [retrievePiletData] resolves from the target is [name], and no other
    candidate is tried. *)
Theorem host_named_by_patch root name version piralInfo language (w0 : World)
    content target (w : World) p m :
  written (events (patchPiletPackage root name version piralInfo language w0))
    = [content] →
  io_findFile target "package.json" (fs w) = Some p → is_empty p = false →
  io_requirePilet p (fs w) = Some m →
  pkg_piral (pm_package m) = Some (patch_piral content) →
  is_empty name = false →
  ∃ rest,
    resolutions (events2 (retrievePiletData target None w))
      = request_of target name :: rest
    ∧ (rest = [] ∨ ∃ appFile, rest = [("piral-core", appFile)]).
Proof.
  intros Hwritten Hfind Hp Hreq Hpiral Hname.
  destruct (patchPiletPackage_written root name version piralInfo language)
    as (content' & Hall & _ & _ & Hps).
  rewrite Hall in Hwritten. injection Hwritten as <-.
  destruct (retrievePiletData_resolutions target None w p m (inl name) Hfind Hp Hreq)
    as (tried & rest & Hres & Hpre & Hnil & Hrest).
  { unfold host_candidates. rewrite Hpiral. cbn [truthy fmap option_fmap option_map template].
    rewrite Hps, Hname. reflexivity. }
  cbn [names_of] in Hpre, Hnil.
  destruct tried as [|first tried]; [by specialize (Hnil eq_refl) |].
  destruct Hpre as [k Hk]. injection Hk as <- Hk.
  destruct tried; [| discriminate Hk].
  exists rest. by split.
Qed.

End Finding.

(** ** A reference lookup *)

Module SampleLookup.

(** The closest directory at or above [dir] for which [hit] answers. *)
Fixpoint search_up (fuel : nat) (dir : string) (hit : string → option string)
    : option string :=
  match fuel with
  | 0 => None
  | S fuel' =>
      match hit dir with
      | Some found => Some found
      | None =>
          if bool_decide (sample_dirname dir = dir) then None
          else search_up fuel' (sample_dirname dir) hit
      end
  end.

(** Modelled from the spec: [findFile(topDir, fileName)] of [io] answers
    the path of the closest file of that name in [topDir] or a directory
    above it, and [undefined] if there is none. *)
Definition sample_findFile (start file : string) (d : gmap string Node)
    : option string :=
  search_up (S (String.length start)) start
    (λ dir, let candidate := sample_join [dir; file] in
            if bool_decide (is_Some (d !! candidate)) then Some candidate
            else None).

(** Modelled from the spec: Node's [require.resolve] with [paths] looks
    for the request below the [node_modules] folder of the base directory
    and of the directories above it; a request for a folder answers the
    [index.js] in it. *)
Definition sample_require_resolve (request baseDir : string)
    (d : gmap string Node) : option string :=
  search_up (S (String.length baseDir)) baseDir
    (λ dir, let candidate := sample_join [dir; "node_modules"; request] in
            match d !! candidate with
            | Some Dir =>
                match d !! sample_join [candidate; "index.js"] with
                | Some (File _) => Some (sample_join [candidate; "index.js"])
                | _ => None
                end
            | Some _ => Some candidate
            | None => None
            end).

(** Modelled from the spec: a manifest read as a host manifest; its
    [name] and [version] are among the plain fields. *)
Definition host_view (pkg : PackageJson) : PiralInfo :=
  {| piral_name := pkg_rest pkg !! "name";
     piral_version := pkg_rest pkg !! "version";
     piral_dependencies := None;
     piral_devDependencies := dict_to_map <$> pkg_devDependencies pkg;
     piral_pilets := None |}.

(** Modelled from the spec: the module cache of [require] is the disk
    itself, so an assignment to a manifest object is seen by the next
    [require] of the same path. *)
#[global] Instance sample_lookup : Lookup := {|
  io_findFile := sample_findFile;
  io_resolve := sample_require_resolve;
  io_requireHost := λ p d,
    match d !! p with Some (Manifest pkg) => Some (host_view pkg) | _ => None end;
  io_requirePilet := λ p d,
    match d !! p with
    | Some (Manifest pkg) => Some {| pm_package := pkg; pm_dependencies := None |}
    | _ => None
    end;
  io_setApp := λ p app d,
    match d !! p with
    | Some (Manifest pkg) => <[p := Manifest (with_app pkg app)]> d
    | _ => d
    end;
|}.

(** The pilet folder [/work] of [disk] with the manifest of the host
    package and [piral-core] installed. *)
Definition installed : gmap string Node :=
  <["/work/node_modules/my-app/package.json" := Manifest host_package]>
    (<["/work/node_modules/piral-core" := Dir]>
       (<["/work/node_modules/piral-core/index.js" := File "core"]> disk)).

Definition pilet_manifest : PiletManifest :=
  {| pm_package := empty_package; pm_dependencies := None |}.

End SampleLookup.

Import SampleLookup.

Lemma findPackage_first_match_witness :
  outcome2 (findPackage (inr ["left-pad"; "my-app"; "piral-core"]) "/work"
              (world installed))
    = Ok (Some (with_app host_package
                  (Some "/work/node_modules/my-app/src/index.html"))).
Proof.
  refine (proj1 (findPackage_first_match "/work" ["left-pad"] "my-app"
                   ["piral-core"] (world installed)
                   "/work/node_modules/my-app/package.json" host_package _ _)).
  - intros m Hm. apply list_elem_of_singleton in Hm. subst m.
    vm_compute. reflexivity.
  - vm_compute. reflexivity.
Defined.

Lemma findPackage_no_match_witness :
  outcome2 (findPackage (inr ["left-pad"; "jest"]) "/work" (world installed))
    = Ok None.
Proof.
  refine (proj1 (findPackage_no_match "/work" ["left-pad"; "jest"]
                   (world installed) _)).
  intros name Hname.
  apply elem_of_cons in Hname as [->|Hname]; [vm_compute; reflexivity |].
  apply list_elem_of_singleton in Hname. subst name. vm_compute. reflexivity.
Defined.

Lemma retrievePiletData_success_witness :
  ∃ d,
    outcome2 (retrievePiletData "/work" (Some "my-app") (world installed)) = Ok d
    ∧ pd_root d = "/work"
    ∧ is_empty (pd_coreFile d) = false
    ∧ pkg_app (pd_appPackage d) = Some (pd_appFile d).
Proof.
  assert (∃ d,
            outcome2 (retrievePiletData "/work" (Some "my-app") (world installed))
              = Ok d ∧ pd_root d = "/work")
    as (d & Hd & Hroot).
  { vm_compute. eexists. split; reflexivity. }
  exists d. split; [exact Hd |]. split; [exact Hroot |].
  destruct (retrievePiletData_success "/work" (Some "my-app") (world installed)
              d Hd)
    as (_ & Hcore & Happ & _).
  split; [exact Hcore | exact Happ].
Defined.

(** A pilet whose manifest names no host but declares two installed
    hosts, [b-host] before [a-host]. *)
Definition pilet_declaring : PackageJson :=
  {| pkg_app := None; pkg_piral := None;
     pkg_devDependencies :=
       Some (<["a-host" := "1.0.0"]> {[ "b-host" := "1.0.0" ]});
     pkg_peerDependencies := None; pkg_scripts := None; pkg_rest := ∅ |}.

Definition two_hosts : gmap string Node :=
  list_to_map
    [ ("/pilet/package.json", Manifest pilet_declaring);
      ("/pilet/node_modules/a-host/package.json", Manifest host_package);
      ("/pilet/node_modules/b-host/package.json", Manifest host_package);
      ("/pilet/node_modules/piral-core", Dir);
      ("/pilet/node_modules/piral-core/index.js", File "core") ].

(** Without an [app] argument and a [piral] section the hosts are tried in
    the order in which the manifest declares them: [b-host] is found, and
    [a-host] is not looked at. *)
Lemma host_choice_witness :
  resolutions (events2 (retrievePiletData "/pilet" None (world two_hosts)))
    = [ request_of "/pilet" "b-host";
        ("piral-core", "/pilet/node_modules/b-host/src/index.html") ]
  ∧ ∃ tried rest,
      resolutions (events2 (retrievePiletData "/pilet" None (world two_hosts)))
        = (request_of "/pilet" <$> tried) ++ rest
      ∧ tried `prefix_of` ["b-host"; "a-host"].
Proof.
  split; [vm_compute; reflexivity |].
  assert (io_findFile "/pilet" "package.json" (fs (world two_hosts))
            = Some "/pilet/package.json") as Hfind by (vm_compute; reflexivity).
  assert (io_requirePilet "/pilet/package.json" (fs (world two_hosts))
            = Some {| pm_package := pilet_declaring; pm_dependencies := None |})
    as Hrequire by (vm_compute; reflexivity).
  pose proof (host_choice "/pilet" None (world two_hosts) "/pilet/package.json"
                {| pm_package := pilet_declaring; pm_dependencies := None |}
                Hfind eq_refl Hrequire) as Hchoice.
  cbv zeta in Hchoice. eval_scrutinee Hchoice.
  destruct Hchoice as (tried & rest & Hres & Hpre & _).
  exists tried, rest. split; [exact Hres | exact Hpre].
Defined.

(** The pilet folder after the scaffolding for the host [my-app]. *)
Definition scaffolded : World :=
  final (patchPiletPackage "/work" "my-app" "1.0.0" host_versioned typescript
           (world installed)).

Lemma host_named_by_patch_witness :
  ∃ rest,
    resolutions (events2 (retrievePiletData "/work" None scaffolded))
      = request_of "/work" "my-app" :: rest.
Proof.
  destruct (patchPiletPackage_run "/work" "my-app" "1.0.0" host_versioned
              typescript) as (content & Hrun & _).
  assert (fs scaffolded
            = <["/work/package.json" := Manifest (merge_patch empty_package content)]>
                installed) as Hfs.
  { unfold scaffolded. rewrite Hrun. reflexivity. }
  destruct (host_named_by_patch "/work" "my-app" "1.0.0" host_versioned
              typescript (world installed) content "/work" scaffolded
              "/work/package.json"
              {| pm_package := merge_patch empty_package content;
                 pm_dependencies := None |})
    as (rest & Hres & _).
  - rewrite Hrun. apply patchPiletPackage_written_run.
  - rewrite Hfs. vm_compute. reflexivity.
  - reflexivity.
  - rewrite Hfs. vm_compute. reflexivity.
  - reflexivity.
  - reflexivity.
  - by exists rest.
Defined.

Lemma copy_failure_aborts_witness :
  outcome (copyPiralFiles "/work" "my-app" [Plain "missing.txt"] no []
             (world disk))
    = Throw (External "copy")
  ∧ ∃ source target force,
      last (events (copyPiralFiles "/work" "my-app" [Plain "missing.txt"] no []
                      (world disk)))
        = Some (EvCopy source target force).
Proof.
  assert (outcome (copyPiralFiles "/work" "my-app" [Plain "missing.txt"] no []
                     (world disk))
            = Throw (External "copy")) as Hthrow.
  { vm_compute. reflexivity. }
  split; [exact Hthrow |].
  destruct (copy_failure_aborts (io := sample_io) "/work" "my-app"
              [Plain "missing.txt"] no [] (world disk) _ Hthrow)
    as (_ & source & target & force & Hlast & _).
  by exists source, target, force.
Defined.

(** A registry that already knows the dependency of [demo_meta]. *)
Definition world_knowing (name : string) (m : JsVal) : World :=
  {| fs := disk; registry := {| registered := {[ name := m ]}; served := ∅ |} |}.



Lemma sample_register_frame : register_frame (module_system := sample_modules).
Proof.
  intros name url other r Hne. cbn [sys_has sys_register sample_modules registered].
  by rewrite lookup_insert_ne.
Qed.

(** Metadata that declares the dependencies [b], [a] and [10], in this
    order. *)
Definition declared_dependencies : Dict JsVal :=
  <["10" := JStr "https://cdn.example/ten.js"]>
    (<["a" := JStr "https://cdn.example/a.js"]>
       {[ "b" := JStr "https://cdn.example/b.js" ]}).

Definition ordered_meta : gmap string JsVal :=
  <["link" := JStr "https://cdn.example/demo/index.js"]>
    {[ "dependencies" := JObj declared_dependencies ]}.

(** The dependencies are visited in the order of [Object.keys]: the array
    index [10] first, then [b] and [a] as they were declared. With [a]
    known to the registry, [10] and [b] are registered. *)
Lemma loader_registers_unknown_witness :
  Object_keys declared_dependencies = ["10"; "b"; "a"]
  ∧ (registrations (events (loader ordered_meta ∅
                              (world_knowing "a" (JFun 7))))).*1
    = ["10"; "b"].
Proof.
  split; [vm_compute; reflexivity |].
  etrans.
  - apply (loader_registers_unknown ordered_meta ∅ declared_dependencies
             (world_knowing "a" (JFun 7)) sample_register_frame).
    vm_compute. reflexivity.
  - vm_compute. reflexivity.
Defined.

(** [Object.keys]: canonical numerals of array indices come first, in
    ascending order; the other keys, among them numerals that are not
    canonical, follow in the order of their creation. *)
Example Object_keys_order :
  Object_keys
    (<["01" := 5]> (<["2" := 4]> (<["10" := 3]> (<["a" := 2]> {[ "b" := 1 ]}))))
    = ["2"; "10"; "b"; "a"; "01"].
Proof. vm_compute. reflexivity. Qed.

(** The tasks of [getFileStats] take turns under the reference scheduler:
    the records of the two entries interleave, and the record of the
    second entry comes before the last record of the first. *)
Example getFileStats_interleaved :
  fi_path
    <$> pushed (getFileStats "/work" "my-app"
                  [template_folder (Some true); Plain "readme.md"] (world disk))
    = ["/work/src/sub/b.txt"; "/work/readme.md"; "/work/src/a.txt"].
Proof. vm_compute. reflexivity. Qed.

(** The specifier written for the [name] argument is empty when both
    versions are, although the name is listed as an external. *)
Example empty_specifier_for_name :
  ∃ content,
    written (events (patchPiletPackage "/work" "my-app" EmptyString
                       (host (Some EmptyString) None
                             (Some (with_externals ["my-app"])))
                       None (world disk)))
      = [content]
    ∧ patch_devDependencies content !! "my-app" = Some EmptyString.
Proof. eexists. split; [reflexivity |]. vm_compute. reflexivity. Qed.
